(** * Escrow batching agent

    A shallow embedding of [Archive/src/agents/escrow_batching_agent.py]
    and the properties of its escrow ledger, batch aggregation and
    settlement state machine.

    Conventions of the embedding.
    - The five [StableBTreeMap]s of the module are the five fields of
      [Store]; every canister method is a function from a store to a
      result and a store.
    - Kybra's [nat64] is Python's [int] and [text] is [str]; they are [Z]
      and [string] here, [Opt[t]] is [option t].
    - Field [f] of record [R] carries a short prefix of [R] ([cfg_], [pay_],
      [bat_], [pda_], [sc_], [met_]), since the records share field names.
    - What a call reads from outside the store is an [Env]: the value of
      [ic.time()] (constant during one message) and the two draws that
      [settle_batch] takes from [random]. Python's [hash] on strings and
      [str] of the payload dictionary belong to the interpreter the canister
      runs in: they are the two fields of the class [Runtime]. *)

From Stdlib Require Import ZArith String Ascii SpecFloat Lia.
From stdpp Require Import gmap strings list fin_maps pretty.

Local Open Scope string_scope.
Local Open Scope Z_scope.

(** ** Records *)

Inductive ApiTier := free | business | enterprise.

Record MerchantConfig := {
  cfg_merchant_id : string;
  cfg_merchant_address : string;
  cfg_api_key : string;
  cfg_tier : ApiTier;
  cfg_batching_enabled : bool;
  cfg_batch_frequency : string;
  cfg_batch_day : option Z;
  cfg_batch_time : string;
  cfg_min_batch_amount : Z;
  cfg_max_batch_amount : Z;
  cfg_auto_settle : bool;
  cfg_created_at : string;
  cfg_updated_at : string
}.

Record BatchPayment := {
  pay_payment_id : string;
  pay_merchant_id : string;
  pay_user_wallet : string;
  pay_amount : Z;
  pay_currency : string;
  pay_timestamp : string;
  pay_status : string;
  pay_batch_id : option string;
  pay_transaction_hash : option string;
  pay_error_message : option string
}.

Record Batch := {
  bat_batch_id : string;
  bat_merchant_id : string;
  bat_total_amount : Z;
  bat_payment_count : Z;
  bat_created_at : string;
  bat_scheduled_at : string;
  bat_settled_at : option string;
  bat_status : string;
  bat_transaction_hash : option string;
  bat_gas_used : option Z;
  bat_gas_cost : option Z;
  bat_error_message : option string
}.

Record EscrowPDA := {
  pda_pda_address : string;
  pda_merchant_id : string;
  pda_total_balance : Z;
  pda_pending_batches : Z;
  pda_created_at : string;
  pda_last_settlement : option string;
  pda_is_active : bool
}.

Record BatchingMetrics := {
  met_total_batches_processed : Z;
  met_total_volume_batched : Z;
  met_gas_cost_savings : Z;
  met_average_batch_size : Z;
  met_merchants_active : Z;
  met_pending_amount : Z;
  met_settlement_success_rate : Z
}.

Record SettleConfig := {
  sc_max_gas_price : Z;
  sc_priority_fee : Z;
  sc_retry_attempts : Z;
  sc_settlement_timeout : Z;
  sc_emergency_pause : bool
}.

(** ** Stable storage *)

Record Store := {
  merchant_configs_storage : gmap string MerchantConfig;
  batch_payments_storage : gmap string BatchPayment;
  batches_storage : gmap string Batch;
  escrow_pdas_storage : gmap string EscrowPDA;
  settle_config_storage : gmap string SettleConfig
}.

(** [storage.insert(k, v)] on each of the maps. *)
Definition insert_config (k : string) (v : MerchantConfig) (s : Store) : Store :=
  {| merchant_configs_storage := <[k := v]> (merchant_configs_storage s);
     batch_payments_storage := batch_payments_storage s;
     batches_storage := batches_storage s;
     escrow_pdas_storage := escrow_pdas_storage s;
     settle_config_storage := settle_config_storage s |}.

Definition insert_payment (k : string) (v : BatchPayment) (s : Store) : Store :=
  {| merchant_configs_storage := merchant_configs_storage s;
     batch_payments_storage := <[k := v]> (batch_payments_storage s);
     batches_storage := batches_storage s;
     escrow_pdas_storage := escrow_pdas_storage s;
     settle_config_storage := settle_config_storage s |}.

Definition insert_batch (k : string) (v : Batch) (s : Store) : Store :=
  {| merchant_configs_storage := merchant_configs_storage s;
     batch_payments_storage := batch_payments_storage s;
     batches_storage := <[k := v]> (batches_storage s);
     escrow_pdas_storage := escrow_pdas_storage s;
     settle_config_storage := settle_config_storage s |}.

Definition insert_pda (k : string) (v : EscrowPDA) (s : Store) : Store :=
  {| merchant_configs_storage := merchant_configs_storage s;
     batch_payments_storage := batch_payments_storage s;
     batches_storage := batches_storage s;
     escrow_pdas_storage := <[k := v]> (escrow_pdas_storage s);
     settle_config_storage := settle_config_storage s |}.

(** [storage.keys()] and [storage.values()]: every stored key once. *)
Definition keys {A} (m : gmap string A) : list string := (map_to_list m).*1.
Definition values {A} (m : gmap string A) : list A := (map_to_list m).*2.

Definition DEFAULT_SETTLE_CONFIG : SettleConfig :=
  {| sc_max_gas_price := 100000;
     sc_priority_fee := 1000;
     sc_retry_attempts := 3;
     sc_settlement_timeout := 300;
     sc_emergency_pause := false |}.

(** The store after module load: empty maps, then [canister_init()]. *)
Definition canister_init : Store :=
  {| merchant_configs_storage := ∅;
     batch_payments_storage := ∅;
     batches_storage := ∅;
     escrow_pdas_storage := ∅;
     settle_config_storage := {[ "default" := DEFAULT_SETTLE_CONFIG ]} |}.

(** ** What a call reads from outside the store *)

Record Env := {
  ic_time : Z;            (* ic.time() *)
  random_success : bool;  (* random.random() > 0.02 *)
  random_gas : Z          (* random.randint(150000, 300000) *)
}.

(** The [payment_data] dictionary of [process_payment]: the four keys it
    indexes and the optional ["merchant_address"]. *)
Record PaymentData := {
  pd_api_key : string;
  pd_merchant_id : string;
  pd_user_wallet : string;
  pd_amount : Z;
  pd_merchant_address : option string
}.

(** The [config_data] dictionary of [update_merchant_config]: the six keys
    it looks up with [.get]. *)
Record ConfigData := {
  cd_batching_enabled : option bool;
  cd_batch_frequency : option string;
  cd_batch_time : option string;
  cd_min_batch_amount : option Z;
  cd_max_batch_amount : option Z;
  cd_auto_settle : option bool
}.

(** ** Tier classification *)

Definition detect_api_tier (api_key : string) : ApiTier :=
  if String.prefix "ouro_enterprise_" api_key then enterprise
  else if String.prefix "ouro_business_" api_key then business
  else free.

Definition should_use_escrow (api_key : string) : bool :=
  match detect_api_tier api_key with
  | free => false
  | business | enterprise => true
  end.

(** ** Pending payments of a merchant *)

Definition is_pending_of (merchant_id : string) (payment : BatchPayment) : bool :=
  bool_decide (pay_merchant_id payment = merchant_id)
  && bool_decide (pay_status payment = "pending").

(** The loop that both [should_create_batch] and
    [create_batch_for_merchant] run over [batch_payments_storage.keys()]. *)
Definition pending_payments_of (merchant_id : string)
    (payments : gmap string BatchPayment) : list BatchPayment :=
  omap (λ payment_id,
          match payments !! payment_id with
          | Some payment =>
              if is_pending_of merchant_id payment then Some payment else None
          | None => None
          end) (keys payments).

Definition sum_amounts (l : list BatchPayment) : Z :=
  foldr (λ p acc, pay_amount p + acc) 0 l.

Definition should_create_batch (merchant_id : string) (s : Store) : bool :=
  match merchant_configs_storage s !! merchant_id with
  | None => false
  | Some config =>
      if negb (cfg_batching_enabled config) then false
      else
        let pending_payments :=
          pending_payments_of merchant_id (batch_payments_storage s) in
        if (length pending_payments =? 0)%nat then false
        else
          let total_amount := sum_amounts pending_payments in
          if total_amount <? cfg_min_batch_amount config then false
          else if cfg_max_batch_amount config <=? total_amount then true
          else (3 <=? length pending_payments)%nat
  end.

(** ** Escrow accounts *)

Definition create_or_get_escrow_pda (e : Env) (merchant_id : string)
    (s : Store) : EscrowPDA * Store :=
  match escrow_pdas_storage s !! merchant_id with
  | Some existing_pda => (existing_pda, s)
  | None =>
      let new_pda :=
        {| pda_pda_address :=
             "escrow_pda_" +:+ merchant_id +:+ "_" +:+ pretty (ic_time e);
           pda_merchant_id := merchant_id;
           pda_total_balance := 0;
           pda_pending_batches := 0;
           pda_created_at := pretty (ic_time e);
           pda_last_settlement := None;
           pda_is_active := true |} in
      (new_pda, insert_pda merchant_id new_pda s)
  end.

(** Python's built-in [hash] on [str], and [str] of the payload dictionary. *)
Class Runtime := {
  py_hash : string → Z;
  str_payment_data : PaymentData → string
}.

Section Agent.

Context {rt : Runtime}.

(** ** Settlement *)

Definition settled_payment (tx : option string) (payment : BatchPayment)
    : BatchPayment :=
  {| pay_payment_id := pay_payment_id payment;
     pay_merchant_id := pay_merchant_id payment;
     pay_user_wallet := pay_user_wallet payment;
     pay_amount := pay_amount payment;
     pay_currency := pay_currency payment;
     pay_timestamp := pay_timestamp payment;
     pay_status := "settled";
     pay_batch_id := pay_batch_id payment;
     pay_transaction_hash := tx;
     pay_error_message := pay_error_message payment |}.

(** One round of the loop that marks the payments of a settled batch. *)
Definition settle_payment_step (batch_id : string) (tx : option string)
    (payments : gmap string BatchPayment) (payment_id : string)
    : gmap string BatchPayment :=
  match payments !! payment_id with
  | Some payment =>
      if bool_decide (pay_batch_id payment = Some batch_id)
      then <[payment_id := settled_payment tx payment]> payments
      else payments
  | None => payments
  end.

Definition settle_payments (batch_id : string) (tx : option string)
    (payments : gmap string BatchPayment) : gmap string BatchPayment :=
  foldl (settle_payment_step batch_id tx) payments (keys payments).

Definition with_payments (payments : gmap string BatchPayment) (s : Store)
    : Store :=
  {| merchant_configs_storage := merchant_configs_storage s;
     batch_payments_storage := payments;
     batches_storage := batches_storage s;
     escrow_pdas_storage := escrow_pdas_storage s;
     settle_config_storage := settle_config_storage s |}.

Definition emergency_paused (s : Store) : bool :=
  match settle_config_storage s !! "default" with
  | Some config => sc_emergency_pause config
  | None => false
  end.

Definition processing_batch (e : Env) (batch : Batch) : Batch :=
  {| bat_batch_id := bat_batch_id batch;
     bat_merchant_id := bat_merchant_id batch;
     bat_total_amount := bat_total_amount batch;
     bat_payment_count := bat_payment_count batch;
     bat_created_at := bat_created_at batch;
     bat_scheduled_at := bat_scheduled_at batch;
     bat_settled_at := Some (pretty (ic_time e));
     bat_status := "processing";
     bat_transaction_hash := bat_transaction_hash batch;
     bat_gas_used := None;
     bat_gas_cost := None;
     bat_error_message := bat_error_message batch |}.

Definition final_batch (e : Env) (batch_id : string) (batch : Batch) : Batch :=
  {| bat_batch_id := bat_batch_id batch;
     bat_merchant_id := bat_merchant_id batch;
     bat_total_amount := bat_total_amount batch;
     bat_payment_count := bat_payment_count batch;
     bat_created_at := bat_created_at batch;
     bat_scheduled_at := bat_scheduled_at batch;
     bat_settled_at := bat_settled_at batch;
     bat_status := "settled";
     bat_transaction_hash :=
       Some ("settle_tx_" +:+ pretty (py_hash (batch_id +:+ pretty (ic_time e))));
     bat_gas_used := Some (random_gas e);
     bat_gas_cost := Some (random_gas e * 25);
     bat_error_message := None |}.

Definition failed_batch (batch : Batch) : Batch :=
  {| bat_batch_id := bat_batch_id batch;
     bat_merchant_id := bat_merchant_id batch;
     bat_total_amount := bat_total_amount batch;
     bat_payment_count := bat_payment_count batch;
     bat_created_at := bat_created_at batch;
     bat_scheduled_at := bat_scheduled_at batch;
     bat_settled_at := bat_settled_at batch;
     bat_status := "failed";
     bat_transaction_hash := None;
     bat_gas_used := None;
     bat_gas_cost := None;
     bat_error_message := Some "Settlement transaction failed" |}.

Definition settled_pda (batch : Batch) (pda : EscrowPDA) : EscrowPDA :=
  {| pda_pda_address := pda_pda_address pda;
     pda_merchant_id := pda_merchant_id pda;
     pda_total_balance :=
       Z.max 0 (pda_total_balance pda - bat_total_amount batch);
     pda_pending_batches := Z.max 0 (pda_pending_batches pda - 1);
     pda_created_at := pda_created_at pda;
     pda_last_settlement := bat_settled_at batch;
     pda_is_active := pda_is_active pda |}.

Definition settle_batch (e : Env) (batch_id : string) (s : Store)
    : bool * Store :=
  match batches_storage s !! batch_id with
  | None => (false, s)
  | Some batch =>
      if negb (bool_decide (bat_status batch = "pending")) then (false, s)
      else if emergency_paused s then (false, s)
      else
        let s := insert_batch batch_id (processing_batch e batch) s in
        if random_success e then
          let final := final_batch e batch_id batch in
          let s := insert_batch batch_id final s in
          let s :=
            with_payments
              (settle_payments batch_id (bat_transaction_hash final)
                 (batch_payments_storage s)) s in
          let merchant_id := bat_merchant_id batch in
          let s :=
            match escrow_pdas_storage s !! merchant_id with
            | Some pda => insert_pda merchant_id (settled_pda batch pda) s
            | None => s
            end in
          (true, s)
        else
          (false, insert_batch batch_id (failed_batch batch) s)
  end.

(** ** Batch creation *)

Definition new_batch_id (e : Env) (merchant_id : string) : string :=
  "batch_" +:+ merchant_id +:+ "_" +:+ pretty (ic_time e).

Definition new_batch (e : Env) (merchant_id : string)
    (pending_payments : list BatchPayment) : Batch :=
  {| bat_batch_id := new_batch_id e merchant_id;
     bat_merchant_id := merchant_id;
     bat_total_amount := sum_amounts pending_payments;
     bat_payment_count := Z.of_nat (length pending_payments);
     bat_created_at := pretty (ic_time e);
     bat_scheduled_at := pretty (ic_time e);
     bat_settled_at := None;
     bat_status := "pending";
     bat_transaction_hash := None;
     bat_gas_used := None;
     bat_gas_cost := None;
     bat_error_message := None |}.

Definition batched_payment (batch_id : string) (payment : BatchPayment)
    : BatchPayment :=
  {| pay_payment_id := pay_payment_id payment;
     pay_merchant_id := pay_merchant_id payment;
     pay_user_wallet := pay_user_wallet payment;
     pay_amount := pay_amount payment;
     pay_currency := pay_currency payment;
     pay_timestamp := pay_timestamp payment;
     pay_status := "batched";
     pay_batch_id := Some batch_id;
     pay_transaction_hash := pay_transaction_hash payment;
     pay_error_message := pay_error_message payment |}.

(** The loop over [pending_payments] that points each payment at the batch;
    the record is written back under its own [payment_id] field. *)
Definition batch_payments (batch_id : string)
    (pending_payments : list BatchPayment)
    (payments : gmap string BatchPayment) : gmap string BatchPayment :=
  foldl (λ acc payment,
           <[pay_payment_id payment := batched_payment batch_id payment]> acc)
        payments pending_payments.

Definition funded_pda (total_amount : Z) (pda : EscrowPDA) : EscrowPDA :=
  {| pda_pda_address := pda_pda_address pda;
     pda_merchant_id := pda_merchant_id pda;
     pda_total_balance := pda_total_balance pda + total_amount;
     pda_pending_batches := pda_pending_batches pda + 1;
     pda_created_at := pda_created_at pda;
     pda_last_settlement := pda_last_settlement pda;
     pda_is_active := pda_is_active pda |}.

(** [create_batch_for_merchant] from the construction of the batch up to
    the update of the escrow account, that is, without its last statement
    (the auto-settle call). *)
Definition record_batch (e : Env) (merchant_id : string)
    (pending_payments : list BatchPayment) (s : Store) : Store :=
  let batch_id := new_batch_id e merchant_id in
  let s := insert_batch batch_id (new_batch e merchant_id pending_payments) s in
  let s :=
    with_payments
      (batch_payments batch_id pending_payments (batch_payments_storage s)) s in
  match escrow_pdas_storage s !! merchant_id with
  | Some pda =>
      insert_pda merchant_id
        (funded_pda (sum_amounts pending_payments) pda) s
  | None => s
  end.

Definition create_batch_for_merchant (e : Env) (merchant_id : string)
    (s : Store) : string * Store :=
  match merchant_configs_storage s !! merchant_id with
  | None => ("merchant_not_found", s)
  | Some config =>
      let pending_payments :=
        pending_payments_of merchant_id (batch_payments_storage s) in
      if (length pending_payments =? 0)%nat then ("no_pending_payments", s)
      else
        let batch_id := new_batch_id e merchant_id in
        let s := record_batch e merchant_id pending_payments s in
        let s :=
          if cfg_auto_settle config then (settle_batch e batch_id s).2 else s in
        (batch_id, s)
  end.

(** ** Payment intake *)

Definition new_payment_id (e : Env) (payment_data : PaymentData) : string :=
  "payment_" +:+ pretty (ic_time e) +:+ "_"
  +:+ pretty (py_hash (str_payment_data payment_data) `mod` 10000).

Definition default_config (e : Env) (payment_data : PaymentData)
    : MerchantConfig :=
  {| cfg_merchant_id := pd_merchant_id payment_data;
     cfg_merchant_address := default "" (pd_merchant_address payment_data);
     cfg_api_key := pd_api_key payment_data;
     cfg_tier := detect_api_tier (pd_api_key payment_data);
     cfg_batching_enabled := should_use_escrow (pd_api_key payment_data);
     cfg_batch_frequency := "daily";
     cfg_batch_day := None;
     cfg_batch_time := "14:00";
     cfg_min_batch_amount := 100000000;
     cfg_max_batch_amount := 10000000000;
     cfg_auto_settle := true;
     cfg_created_at := pretty (ic_time e);
     cfg_updated_at := pretty (ic_time e) |}.

Definition escrow_payment (e : Env) (payment_data : PaymentData)
    : BatchPayment :=
  {| pay_payment_id := new_payment_id e payment_data;
     pay_merchant_id := pd_merchant_id payment_data;
     pay_user_wallet := pd_user_wallet payment_data;
     pay_amount := pd_amount payment_data;
     pay_currency := "USDC";
     pay_timestamp := pretty (ic_time e);
     pay_status := "pending";
     pay_batch_id := None;
     pay_transaction_hash := None;
     pay_error_message := None |}.

Definition direct_payment (e : Env) (payment_data : PaymentData)
    : BatchPayment :=
  {| pay_payment_id := new_payment_id e payment_data;
     pay_merchant_id := pd_merchant_id payment_data;
     pay_user_wallet := pd_user_wallet payment_data;
     pay_amount := pd_amount payment_data;
     pay_currency := "USDC";
     pay_timestamp := pretty (ic_time e);
     pay_status := "settled";
     pay_batch_id := None;
     pay_transaction_hash :=
       Some ("direct_tx_" +:+ pretty (py_hash (new_payment_id e payment_data)));
     pay_error_message := None |}.

(** The first half of [process_payment]: the merchant's configuration is
    created on its first payment. *)
Definition ensure_config (e : Env) (payment_data : PaymentData) (s : Store)
    : Store :=
  match merchant_configs_storage s !! pd_merchant_id payment_data with
  | Some _ => s
  | None =>
      insert_config (pd_merchant_id payment_data)
        (default_config e payment_data) s
  end.

Definition process_payment (e : Env) (payment_data : PaymentData) (s : Store)
    : string * Store :=
  let merchant_id := pd_merchant_id payment_data in
  let s := ensure_config e payment_data s in
  let payment_id := new_payment_id e payment_data in
  if should_use_escrow (pd_api_key payment_data) then
    let s := (create_or_get_escrow_pda e merchant_id s).2 in
    let s := insert_payment payment_id (escrow_payment e payment_data) s in
    let s :=
      if should_create_batch merchant_id s
      then (create_batch_for_merchant e merchant_id s).2
      else s in
    ("escrow_batched_" +:+ payment_id, s)
  else
    let s := insert_payment payment_id (direct_payment e payment_data) s in
    ("direct_settled_" +:+ payment_id, s).

(** ** Configuration updates *)

Definition updated_config (e : Env) (merchant_id : string)
    (config_data : ConfigData) (existing_config : MerchantConfig)
    : MerchantConfig :=
  {| cfg_merchant_id := merchant_id;
     cfg_merchant_address := cfg_merchant_address existing_config;
     cfg_api_key := cfg_api_key existing_config;
     cfg_tier := cfg_tier existing_config;
     cfg_batching_enabled :=
       default (cfg_batching_enabled existing_config)
         (cd_batching_enabled config_data);
     cfg_batch_frequency :=
       default (cfg_batch_frequency existing_config)
         (cd_batch_frequency config_data);
     cfg_batch_day := cfg_batch_day existing_config;
     cfg_batch_time :=
       default (cfg_batch_time existing_config) (cd_batch_time config_data);
     cfg_min_batch_amount :=
       default (cfg_min_batch_amount existing_config)
         (cd_min_batch_amount config_data);
     cfg_max_batch_amount :=
       default (cfg_max_batch_amount existing_config)
         (cd_max_batch_amount config_data);
     cfg_auto_settle :=
       default (cfg_auto_settle existing_config) (cd_auto_settle config_data);
     cfg_created_at := cfg_created_at existing_config;
     cfg_updated_at := pretty (ic_time e) |}.

Definition update_merchant_config (e : Env) (merchant_id : string)
    (config_data : ConfigData) (s : Store) : bool * Store :=
  match merchant_configs_storage s !! merchant_id with
  | None => (false, s)
  | Some existing_config =>
      (true,
       insert_config merchant_id
         (updated_config e merchant_id config_data existing_config) s)
  end.

(** ** Metrics *)

(** [int / int] and [float * int] on binary64. Python converts an [int]
    operand to the nearest double (ties to even); for the counts used here,
    below [2 ^ 53], the conversion is exact and [/] is the IEEE division of
    the two doubles. [int(x)] truncates towards zero. *)
Definition float_of_int (n : Z) : spec_float :=
  binary_normalize 53 1024 n 0 false.

Definition float_div (x y : spec_float) : spec_float := SFdiv 53 1024 x y.
Definition float_mul (x y : spec_float) : spec_float := SFmul 53 1024 x y.

Definition int_of_float (x : spec_float) : Z :=
  match x with
  | S754_finite sign m ex =>
      let magnitude :=
        if 0 <=? ex then Z.pos m * 2 ^ ex else Z.pos m / 2 ^ (- ex) in
      if sign then - magnitude else magnitude
  | _ => 0
  end.

Definition has_status (status : string) (b : Batch) : bool :=
  bool_decide (bat_status b = status).

Definition sum_totals (l : list Batch) : Z :=
  foldr (λ b acc, bat_total_amount b + acc) 0 l.

Definition stored_batches (batches : gmap string Batch) : list Batch :=
  omap (λ batch_id, batches !! batch_id) (keys batches).

Definition success_rate (settled_batches total_batches : Z) : Z :=
  int_of_float
    (float_mul
       (float_div (float_of_int settled_batches)
          (float_of_int (Z.max 1 total_batches)))
       (float_of_int 10000)).

Definition get_batching_metrics (s : Store) : BatchingMetrics * Store :=
  let all_batches := stored_batches (batches_storage s) in
  let total_batches := Z.of_nat (length all_batches) in
  let settled_batches :=
    Z.of_nat (length (filter (λ b, has_status "settled" b) all_batches)) in
  let failed_batches :=
    Z.of_nat (length (filter (λ b, has_status "failed" b) all_batches)) in
  let total_volume := sum_totals all_batches in
  let pending_volume :=
    sum_totals (filter (λ b, has_status "pending" b) all_batches) in
  let avg_batch_size := total_volume `div` Z.max 1 total_batches in
  let active_merchants :=
    Z.of_nat
      (length
         (filter (λ c, cfg_batching_enabled c)
            (values (merchant_configs_storage s)))) in
  ({| met_total_batches_processed := total_batches;
      met_total_volume_batched := total_volume;
      met_gas_cost_savings := 50000;
      met_average_batch_size := avg_batch_size;
      met_merchants_active := active_merchants;
      met_pending_amount := pending_volume;
      met_settlement_success_rate := success_rate settled_batches total_batches |},
   s).

(** ** Calls and reachable stores *)

Inductive Call :=
  | ProcessPayment (payment_data : PaymentData)
  | CreateBatchForMerchant (merchant_id : string)
  | SettleBatch (batch_id : string)
  | UpdateMerchantConfig (merchant_id : string) (config_data : ConfigData).

Definition exec (e : Env) (c : Call) (s : Store) : Store :=
  match c with
  | ProcessPayment payment_data => (process_payment e payment_data s).2
  | CreateBatchForMerchant merchant_id =>
      (create_batch_for_merchant e merchant_id s).2
  | SettleBatch batch_id => (settle_batch e batch_id s).2
  | UpdateMerchantConfig merchant_id config_data =>
      (update_merchant_config e merchant_id config_data s).2
  end.

(** The amount of a payment is a [nat64]. *)
Definition amount_is_nat (c : Call) : Prop :=
  match c with
  | ProcessPayment payment_data => 0 ≤ pd_amount payment_data
  | _ => True
  end.

Inductive reachable : Store → Prop :=
  | reachable_init : reachable canister_init
  | reachable_exec e c s :
      reachable s → amount_is_nat c → reachable (exec e c s).

(** The identifier that a call would give to a new batch is not in use. *)
Definition batch_id_unused (e : Env) (c : Call) (s : Store) : Prop :=
  match c with
  | ProcessPayment payment_data =>
      batches_storage s !! new_batch_id e (pd_merchant_id payment_data) = None
  | CreateBatchForMerchant merchant_id =>
      batches_storage s !! new_batch_id e merchant_id = None
  | _ => True
  end.

(** Whether [create_batch_for_merchant] gets past its two early returns:
    the merchant has a configuration and a pending payment. Only then does
    the function store a batch. *)
Definition creates_batch (merchant_id : string) (s : Store) : bool :=
  match merchant_configs_storage s !! merchant_id with
  | None => false
  | Some _ =>
      negb (length (pending_payments_of merchant_id (batch_payments_storage s))
            =? 0)%nat
  end.

(** The store in which [process_payment] asks [should_create_batch] on its
    escrow path: the configuration and the escrow account exist and the
    payment is stored as pending. *)
Definition escrow_intake (e : Env) (payment_data : PaymentData) (s : Store)
    : Store :=
  let merchant_id := pd_merchant_id payment_data in
  let s := ensure_config e payment_data s in
  let s := (create_or_get_escrow_pda e merchant_id s).2 in
  insert_payment (new_payment_id e payment_data)
    (escrow_payment e payment_data) s.

(** Whether a call stores a batch: [process_payment] on its escrow path
    when [should_create_batch] holds and [create_batch_for_merchant] then
    gets past its early returns, [create_batch_for_merchant] when it gets
    past them, and no other call. *)
Definition stores_batch (e : Env) (c : Call) (s : Store) : bool :=
  match c with
  | ProcessPayment payment_data =>
      let merchant_id := pd_merchant_id payment_data in
      should_use_escrow (pd_api_key payment_data)
      && should_create_batch merchant_id (escrow_intake e payment_data s)
      && creates_batch merchant_id (escrow_intake e payment_data s)
  | CreateBatchForMerchant merchant_id => creates_batch merchant_id s
  | SettleBatch _ | UpdateMerchantConfig _ _ => false
  end.

(** The call uses no batch identifier a second time: if it stores a batch,
    the identifier of that batch is not in use. A call that stores no batch
    uses no identifier and is never excluded. *)
Definition batch_id_not_reused (e : Env) (c : Call) (s : Store) : Prop :=
  stores_batch e c s = true → batch_id_unused e c s.

(** Stores reached by runs in which no batch identifier is used twice. *)
Inductive reachable_fresh : Store → Prop :=
  | reachable_fresh_init : reachable_fresh canister_init
  | reachable_fresh_exec e c s :
      reachable_fresh s → amount_is_nat c → batch_id_not_reused e c s →
      reachable_fresh (exec e c s).

(** A run: the calls are executed one after the other. *)
Definition run (calls : list (Env * Call)) (s : Store) : Store :=
  foldl (λ acc call, exec call.1 call.2 acc) s calls.

End Agent.

(** ** Vocabulary of the properties *)

Section Vocabulary.

Context {rt : Runtime}.

Definition keep_pending_of (merchant_id : string) (payment : BatchPayment)
    : option BatchPayment :=
  if is_pending_of merchant_id payment then Some payment else None.

Definition settle_if_in (batch_id : string) (tx : option string)
    (payment : BatchPayment) : BatchPayment :=
  if bool_decide (pay_batch_id payment = Some batch_id)
  then settled_payment tx payment else payment.

Definition batch_if_pending (merchant_id batch_id : string)
    (payment : BatchPayment) : BatchPayment :=
  if is_pending_of merchant_id payment
  then batched_payment batch_id payment else payment.

(** The stored payments that point at a batch. *)
Definition batch_members (batch_id : string)
    (payments : gmap string BatchPayment) : list BatchPayment :=
  filter (λ p, pay_batch_id p = Some batch_id) (values payments).

(** Every stored payment sits under its own [payment_id]. *)
Definition payment_keys_ok (payments : gmap string BatchPayment) : Prop :=
  ∀ k p, payments !! k = Some p → pay_payment_id p = k.

Record store_ok (s : Store) : Prop := {
  ok_payment_keys : payment_keys_ok (batch_payments_storage s);
  ok_config_keys :
    ∀ k c, merchant_configs_storage s !! k = Some c → cfg_merchant_id c = k;
  ok_batch_keys :
    ∀ k b, batches_storage s !! k = Some b → bat_batch_id b = k;
  ok_amounts :
    ∀ k p, batch_payments_storage s !! k = Some p → 0 ≤ pay_amount p;
  ok_status :
    ∀ k p, batch_payments_storage s !! k = Some p →
           pay_status p = "pending" ∨ pay_status p = "batched"
           ∨ pay_status p = "settled";
  ok_pending :
    ∀ k p, batch_payments_storage s !! k = Some p →
           pay_status p = "pending" →
           pay_batch_id p = None
           ∧ is_Some (escrow_pdas_storage s !! pay_merchant_id p);
  ok_batch_ref :
    ∀ k p b, batch_payments_storage s !! k = Some p →
             pay_batch_id p = Some b → is_Some (batches_storage s !! b);
  ok_batch_total :
    ∀ k b, batches_storage s !! k = Some b → 0 ≤ bat_total_amount b;
  ok_batch_pda :
    ∀ k b, batches_storage s !! k = Some b →
           is_Some (escrow_pdas_storage s !! bat_merchant_id b);
  ok_balance :
    ∀ k pda, escrow_pdas_storage s !! k = Some pda → 0 ≤ pda_total_balance pda
}.

Definition share (P : Batch → bool) (b : Batch) : Z :=
  if P b then bat_total_amount b else 0.

(** The sum of [total_amount] over the stored batches that satisfy [P]. *)
Definition total_where (P : Batch → bool) (batches : gmap string Batch) : Z :=
  map_fold (λ _ b acc, share P b + acc) 0 batches.

(** The batches of a merchant that are pending or processing, and those
    that have not settled (pending, processing or failed). *)
Definition is_open_of (merchant_id : string) (b : Batch) : bool :=
  bool_decide (bat_merchant_id b = merchant_id)
  && (bool_decide (bat_status b = "pending")
      || bool_decide (bat_status b = "processing")).

Definition is_unsettled_of (merchant_id : string) (b : Batch) : bool :=
  bool_decide (bat_merchant_id b = merchant_id)
  && negb (bool_decide (bat_status b = "settled")).

(** Every escrow account holds what its merchant's unsettled batches add
    up to. *)
Definition balance_ok (s : Store) : Prop :=
  ∀ merchant_id pda,
    escrow_pdas_storage s !! merchant_id = Some pda →
    pda_total_balance pda
    = total_where (is_unsettled_of merchant_id) (batches_storage s).

Inductive status_step : string → string → Prop :=
  | step_batched : status_step "pending" "batched"
  | step_settled : status_step "batched" "settled"
  | step_failed : status_step "batched" "failed".

(** The identifier that a call would give to a new payment is not in use. *)
Definition payment_id_unused (e : Env) (c : Call) (s : Store) : Prop :=
  match c with
  | ProcessPayment payment_data =>
      batch_payments_storage s !! new_payment_id e payment_data = None
  | _ => True
  end.

End Vocabulary.

(** ** Schedule and queries *)

Definition calculate_next_batch_time (e : Env) (config : MerchantConfig)
    : string :=
  let next_time :=
    if bool_decide (cfg_batch_frequency config = "hourly")
    then ic_time e + 3600
    else if bool_decide (cfg_batch_frequency config = "daily")
    then ic_time e + 86400
    else if bool_decide (cfg_batch_frequency config = "weekly")
    then ic_time e + 604800
    else ic_time e + 2592000 in
  pretty next_time.

Definition get_merchant_config (merchant_id : string) (s : Store)
    : option MerchantConfig * Store :=
  (merchant_configs_storage s !! merchant_id, s).

Definition get_merchant_batches (merchant_id : string) (s : Store)
    : list Batch * Store :=
  (omap (λ batch_id,
           match batches_storage s !! batch_id with
           | Some batch =>
               if bool_decide (bat_merchant_id batch = merchant_id)
               then Some batch else None
           | None => None
           end) (keys (batches_storage s)),
   s).

Definition get_escrow_balance (merchant_id : string) (s : Store) : Z * Store :=
  match escrow_pdas_storage s !! merchant_id with
  | Some pda => (pda_total_balance pda, s)
  | None => (0, s)
  end.

(** ** Vocabulary of the further properties *)

(** [c] occurs in the string. *)
Fixpoint occurs (c : ascii) (x : string) : bool :=
  match x with
  | EmptyString => false
  | String c' x' => bool_decide (c' = c) || occurs c x'
  end.

(** The fields of a batch that no operation rewrites. *)
Definition same_batch_content (b b' : Batch) : Prop :=
  bat_batch_id b' = bat_batch_id b
  ∧ bat_merchant_id b' = bat_merchant_id b
  ∧ bat_total_amount b' = bat_total_amount b
  ∧ bat_payment_count b' = bat_payment_count b
  ∧ bat_created_at b' = bat_created_at b
  ∧ bat_scheduled_at b' = bat_scheduled_at b.


(** Every batch is stored under the identifier made of its merchant and a
    time. *)
Definition batch_keys_made (batches : gmap string Batch) : Prop :=
  ∀ k b, batches !! k = Some b →
         ∃ t : Z, k = "batch_" +:+ bat_merchant_id b +:+ "_" +:+ pretty t.

(** The merchant whose escrow account and batches a call may write. *)
Definition call_merchant (c : Call) (s : Store) : option string :=
  match c with
  | ProcessPayment payment_data => Some (pd_merchant_id payment_data)
  | CreateBatchForMerchant merchant_id => Some merchant_id
  | SettleBatch batch_id => bat_merchant_id <$> batches_storage s !! batch_id
  | UpdateMerchantConfig _ _ => None
  end.

(** The total of every stored batch is the sum of the amounts of the
    payments that point at it. *)
Definition totals_ok (s : Store) : Prop :=
  ∀ k b, batches_storage s !! k = Some b →
         bat_total_amount b
         = sum_amounts (batch_members k (batch_payments_storage s)).

Section FurtherVocabulary.

Context {rt : Runtime}.

(** Stores reached by runs in which no batch identifier and no payment
    identifier is used twice. *)
Inductive reachable_unique : Store → Prop :=
  | reachable_unique_init : reachable_unique canister_init
  | reachable_unique_exec e c s :
      reachable_unique s → amount_is_nat c →
      batch_id_not_reused e c s → payment_id_unused e c s →
      reachable_unique (exec e c s).

End FurtherVocabulary.

(** The fields of a payment that no operation rewrites. *)
Definition same_payment_content (p p' : BatchPayment) : Prop :=
  pay_payment_id p' = pay_payment_id p
  ∧ pay_merchant_id p' = pay_merchant_id p
  ∧ pay_user_wallet p' = pay_user_wallet p
  ∧ pay_amount p' = pay_amount p
  ∧ pay_currency p' = pay_currency p
  ∧ pay_timestamp p' = pay_timestamp p.

(** ** A concrete interpreter and concrete inputs

    The examples at the end of the file run the agent with this [hash] and
    this rendering of the payload; any other choice would do, since the
    agent only needs them to be functions. *)

Fixpoint example_hash (x : string) : Z :=
  match x with
  | EmptyString => 7
  | String c x' =>
      (Z.of_N (Ascii.N_of_ascii c) + 31 * example_hash x') `mod` 1000003
  end.

Definition example_str (payment_data : PaymentData) : string :=
  "{'api_key': '" +:+ pd_api_key payment_data
  +:+ "', 'merchant_id': '" +:+ pd_merchant_id payment_data
  +:+ "', 'user_wallet': '" +:+ pd_user_wallet payment_data
  +:+ "', 'amount': " +:+ pretty (pd_amount payment_data) +:+ "}".

Definition example_runtime : Runtime :=
  {| py_hash := example_hash; str_payment_data := example_str |}.

(** A call at time [t] during which the connector succeeds or fails. *)
Definition at_time (t : Z) (success : bool) : Env :=
  {| ic_time := t; random_success := success; random_gas := 200000 |}.

(** A payment to the merchant ["shop"]. *)
Definition payment (api_key user_wallet : string) (amount : Z) : PaymentData :=
  {| pd_api_key := api_key;
     pd_merchant_id := "shop";
     pd_user_wallet := user_wallet;
     pd_amount := amount;
     pd_merchant_address := None |}.

Definition manual_settlement : ConfigData :=
  {| cd_batching_enabled := None;
     cd_batch_frequency := None;
     cd_batch_time := None;
     cd_min_batch_amount := None;
     cd_max_batch_amount := None;
     cd_auto_settle := Some false |}.

Definition thresholds (min_batch_amount max_batch_amount : Z) : ConfigData :=
  {| cd_batching_enabled := None;
     cd_batch_frequency := None;
     cd_batch_time := None;
     cd_min_batch_amount := Some min_batch_amount;
     cd_max_batch_amount := Some max_batch_amount;
     cd_auto_settle := None |}.

(** One business payment of 10,000 USDC: it reaches [max_batch_amount], so
    the call batches it and, with [auto_settle], settles the batch. *)
Definition large_payment : PaymentData :=
  payment "ouro_business_k1" "alice" 10000000000.

(** Three business payments of 40 each stay pending under the default
    thresholds. *)
Definition three_pending : list (Env * Call) :=
  [ (at_time 1000 true, ProcessPayment (payment "ouro_business_k1" "alice" 40));
    (at_time 1001 true, ProcessPayment (payment "ouro_business_k1" "bob" 40));
    (at_time 1002 true, ProcessPayment (payment "ouro_business_k1" "carol" 40)) ].

(** The same three payments, then automatic settlement is switched off and
    a batch is created: the batch stays pending. *)
Definition pending_batch : list (Env * Call) :=
  three_pending
  ++ [ (at_time 1003 true, UpdateMerchantConfig "shop" manual_settlement);
       (at_time 1004 true, CreateBatchForMerchant "shop") ].

(** A hundred large payments, one per time unit; the connector succeeds
    for the first 57 and fails for the other 43. *)
Definition hundred_payments : list (Env * Call) :=
  (λ i : Z, (at_time i (bool_decide (i < 57)), ProcessPayment large_payment))
  <$> seqZ 0 100.

(** A business payment of 10,000 USDC to a second merchant, ["cafe"]. *)
Definition cafe_payment : PaymentData :=
  {| pd_api_key := "ouro_business_k2";
     pd_merchant_id := "cafe";
     pd_user_wallet := "erin";
     pd_amount := 10000000000;
     pd_merchant_address := None |}.

(** The merchant ["shop"] is first seen with a free-tier credential. *)
Definition free_merchant : list (Env * Call) :=
  [ (at_time 1000 true, ProcessPayment (payment "ouro_free_k1" "alice" 40)) ].

(** The run [pending_batch], then a fourth payment of 40 in the round in
    which the batch was created: the identifier that a batch of this call
    would get is in use, but the call stores no batch. *)
Definition same_round_payment : list (Env * Call) :=
  pending_batch
  ++ [ (at_time 1004 true,
        ProcessPayment (payment "ouro_business_k1" "dave" 40)) ].

(** * Properties *)

Section Properties.

Context {rt : Runtime}.

Implicit Types (e : Env) (s : Store) (batch : Batch) (payment : BatchPayment).

(** ** The guards of [settle_batch] *)

Lemma settle_batch_unknown e batch_id s :
  batches_storage s !! batch_id = None → settle_batch e batch_id s = (false, s).
Proof. intros Hget. unfold settle_batch. by rewrite Hget. Qed.

Lemma settle_batch_not_pending e batch_id s batch :
  batches_storage s !! batch_id = Some batch →
  bat_status batch ≠ "pending" →
  settle_batch e batch_id s = (false, s).
Proof.
  intros Hget Hstatus. unfold settle_batch. rewrite Hget.
  by rewrite bool_decide_eq_false_2.
Qed.

Lemma settle_batch_paused e batch_id s :
  emergency_paused s = true → settle_batch e batch_id s = (false, s).
Proof.
  intros Hpause. unfold settle_batch.
  destruct (batches_storage s !! batch_id) as [batch|]; [|done].
  destruct (negb _); [done|]. by rewrite Hpause.
Qed.

(** What [settle_batch] does once the three guards are passed. *)
Lemma settle_batch_accepted e batch_id s batch :
  batches_storage s !! batch_id = Some batch →
  bat_status batch = "pending" →
  emergency_paused s = false →
  settle_batch e batch_id s =
    if random_success e then
      let final := final_batch e batch_id batch in
      let s1 :=
        with_payments
          (settle_payments batch_id (bat_transaction_hash final)
             (batch_payments_storage s))
          (insert_batch batch_id final
             (insert_batch batch_id (processing_batch e batch) s)) in
      (true,
       match escrow_pdas_storage s !! bat_merchant_id batch with
       | Some pda => insert_pda (bat_merchant_id batch) (settled_pda batch pda) s1
       | None => s1
       end)
    else
      (false,
       insert_batch batch_id (failed_batch batch)
         (insert_batch batch_id (processing_batch e batch) s)).
Proof.
  intros Hget Hstatus Hpause. unfold settle_batch.
  rewrite Hget, bool_decide_eq_true_2 by done.
  change (emergency_paused (insert_batch ?k ?b s)) with (emergency_paused s).
  rewrite Hpause. cbn [negb]. by destruct (random_success e).
Qed.

(** Whatever a first call did, a second call on the same identifier is
    rejected: the first call was rejected by a guard that still applies, or
    it left the batch settled or failed. *)
Lemma settle_batch_second e e' batch_id s :
  settle_batch e' batch_id (settle_batch e batch_id s).2
  = (false, (settle_batch e batch_id s).2).
Proof.
  destruct (batches_storage s !! batch_id) as [batch|] eqn:Hget.
  - destruct (decide (bat_status batch = "pending")) as [Hstatus|Hstatus].
    + destruct (emergency_paused s) eqn:Hpause.
      * rewrite (settle_batch_paused e) by done. by apply settle_batch_paused.
      * rewrite (settle_batch_accepted e _ _ batch) by done.
        destruct (random_success e); cbn [snd].
        -- apply settle_batch_not_pending with (final_batch e batch_id batch);
             [|done].
           destruct (escrow_pdas_storage s !! bat_merchant_id batch);
             cbn; apply lookup_insert_eq.
        -- apply settle_batch_not_pending with (failed_batch batch); [|done].
           cbn. apply lookup_insert_eq.
    + rewrite (settle_batch_not_pending e _ _ batch) by done.
      by apply settle_batch_not_pending with batch.
  - rewrite (settle_batch_unknown e) by done. by apply settle_batch_unknown.
Qed.

(** C1. [settle_batch] returns [False] and leaves the whole store as it was
    when the batch is unknown, when its status is not ["pending"], or when
    the settlement configuration has [emergency_pause] set; and whatever a
    first call on a batch identifier did, a second call on it returns
    [False] and leaves the store as the first call left it. *)
Theorem settle_batch_rejects e e' batch_id s :
  (batches_storage s !! batch_id = None
   ∨ (∃ batch, batches_storage s !! batch_id = Some batch
               ∧ bat_status batch ≠ "pending")
   ∨ (∃ config, settle_config_storage s !! "default" = Some config
                ∧ sc_emergency_pause config = true)
   → settle_batch e batch_id s = (false, s))
  ∧ settle_batch e' batch_id (settle_batch e batch_id s).2
    = (false, (settle_batch e batch_id s).2).
Proof.
  split; [|apply settle_batch_second].
  intros [Hnone|[(batch & Hget & Hstatus)|(config & Hget & Hpause)]].
  - by apply settle_batch_unknown.
  - by apply settle_batch_not_pending with batch.
  - apply settle_batch_paused. unfold emergency_paused. by rewrite Hget.
Qed.

(** C4. When the batch is stored with status ["pending"], settlement is
    not paused and the connector reports a failure, [settle_batch] returns
    [False]; afterwards the batch has status ["failed"] and carries the
    failure message, and the payment store is untouched: every payment of
    the batch that was ["batched"] is still the same ["batched"] record. *)
Theorem settle_batch_failure e batch_id s batch :
  batches_storage s !! batch_id = Some batch →
  bat_status batch = "pending" →
  emergency_paused s = false →
  random_success e = false →
  let s' := (settle_batch e batch_id s).2 in
  (settle_batch e batch_id s).1 = false
  ∧ (∃ failed, batches_storage s' !! batch_id = Some failed
               ∧ bat_status failed = "failed"
               ∧ bat_error_message failed = Some "Settlement transaction failed")
  ∧ batch_payments_storage s' = batch_payments_storage s
  ∧ (∀ payment_id payment,
       batch_payments_storage s !! payment_id = Some payment →
       pay_batch_id payment = Some batch_id →
       pay_status payment = "batched" →
       ∃ payment', batch_payments_storage s' !! payment_id = Some payment'
                   ∧ pay_status payment' = "batched"
                   ∧ pay_batch_id payment' = Some batch_id).
Proof.
  intros Hget Hstatus Hpause Hfail s'. subst s'.
  rewrite (settle_batch_accepted e _ _ batch), Hfail by done. cbn [fst snd].
  split; [done|]. split.
  - exists (failed_batch batch). split; [|done]. cbn. apply lookup_insert_eq.
  - split; [done|]. intros payment_id payment Hpay Hbatch Hbatched.
    exists payment. by cbn.
Qed.

(** ** The batch-creation trigger *)

Lemma elem_of_keys {A} (m : gmap string A) k : k ∈ keys m ↔ is_Some (m !! k).
Proof.
  unfold keys. rewrite list_elem_of_fmap. split.
  - intros [[k' v] [-> Hin]]. apply elem_of_map_to_list in Hin. by exists v.
  - intros [v Hv]. exists (k, v). split; [done|]. by apply elem_of_map_to_list.
Qed.

Lemma elem_of_values {A} (m : gmap string A) v :
  v ∈ values m ↔ ∃ k, m !! k = Some v.
Proof.
  unfold values. rewrite list_elem_of_fmap. split.
  - intros [[k v'] [-> Hin]]. apply elem_of_map_to_list in Hin. by exists k.
  - intros [k Hk]. exists (k, v). split; [done|]. by apply elem_of_map_to_list.
Qed.

Lemma NoDup_keys {A} (m : gmap string A) : NoDup (keys m).
Proof. apply NoDup_fst_map_to_list. Qed.

(** A loop over the keys that looks each key up is a loop over the values. *)
Lemma omap_keys {A B} (m : gmap string A) (F : string → option B)
    (f : A → option B) :
  (∀ k v, m !! k = Some v → F k = f v) →
  omap F (keys m) = omap f (values m).
Proof.
  intros HF. unfold keys, values.
  assert (∀ l : list (string * A),
            (∀ k v, (k, v) ∈ l → m !! k = Some v) →
            omap F l.*1 = omap f l.*2) as Hgen.
  { induction l as [|[k v] l IH]; intros Hl; [done|]. cbn.
    rewrite (HF k v) by (apply Hl; left).
    rewrite IH; [done|]. intros k' v' Hin. apply Hl. by right. }
  apply Hgen. intros k v Hin. by apply elem_of_map_to_list.
Qed.

Lemma pending_payments_of_values merchant_id (payments : gmap string BatchPayment) :
  pending_payments_of merchant_id payments
  = omap (keep_pending_of merchant_id) (values payments).
Proof.
  unfold pending_payments_of. apply omap_keys.
  intros k v Hget. by rewrite Hget.
Qed.

(** The list collected by the loop holds exactly the stored payments of the
    merchant whose status is ["pending"]. *)
Lemma elem_of_pending_payments_of merchant_id
    (payments : gmap string BatchPayment) payment :
  payment ∈ pending_payments_of merchant_id payments
  ↔ (∃ k, payments !! k = Some payment)
    ∧ pay_merchant_id payment = merchant_id
    ∧ pay_status payment = "pending".
Proof.
  rewrite pending_payments_of_values, list_elem_of_omap.
  unfold keep_pending_of, is_pending_of. split.
  - intros (p & Hin & Hkeep). apply elem_of_values in Hin.
    destruct (bool_decide (pay_merchant_id p = merchant_id)) eqn:Hm;
      destruct (bool_decide (pay_status p = "pending")) eqn:Hs;
      cbn in Hkeep; try discriminate.
    injection Hkeep as <-.
    apply bool_decide_eq_true_1 in Hm, Hs. done.
  - intros (Hin & Hm & Hs). exists payment. split; [by apply elem_of_values|].
    by rewrite !bool_decide_eq_true_2.
Qed.

(** C5. Let [pending] be the stored payments of the merchant whose status
    is ["pending"] and [total] the sum of their amounts.
    [should_create_batch] answers [False] when the merchant has no
    configuration or batching is disabled, when [pending] is empty, and
    when [total] is below [min_batch_amount]; past these checks it answers
    [True] as soon as [total] reaches [max_batch_amount] (whatever the
    number of payments, and also when [total] equals it), and otherwise
    exactly when at least three payments are pending. *)
Theorem should_create_batch_cases merchant_id s :
  let pending := pending_payments_of merchant_id (batch_payments_storage s) in
  let total := sum_amounts pending in
  (∀ p, p ∈ pending
        ↔ (∃ k, batch_payments_storage s !! k = Some p)
          ∧ pay_merchant_id p = merchant_id
          ∧ pay_status p = "pending")
  ∧ (merchant_configs_storage s !! merchant_id = None →
     should_create_batch merchant_id s = false)
  ∧ (∀ config,
       merchant_configs_storage s !! merchant_id = Some config →
       (cfg_batching_enabled config = false →
        should_create_batch merchant_id s = false)
       ∧ (pending = [] → should_create_batch merchant_id s = false)
       ∧ (total < cfg_min_batch_amount config →
          should_create_batch merchant_id s = false)
       ∧ (cfg_batching_enabled config = true → pending ≠ [] →
          cfg_min_batch_amount config ≤ total →
          (cfg_max_batch_amount config ≤ total →
           should_create_batch merchant_id s = true)
          ∧ (total < cfg_max_batch_amount config →
             (should_create_batch merchant_id s = true
              ↔ (3 ≤ length pending)%nat)))).
Proof.
  intros pending total. split.
  { intros p. apply elem_of_pending_payments_of. }
  unfold should_create_batch. split.
  { by intros ->. }
  intros config ->. fold pending. fold total.
  destruct (cfg_batching_enabled config); cbn [negb].
  2:{ repeat split; try done. }
  destruct pending as [|p pending'] eqn:Hpending.
  { cbn. repeat split; try done. }
  change (length (p :: pending') =? 0)%nat with false. cbv iota.
  split; [done|]. split; [done|]. split.
  - intros Hlt. by rewrite (proj2 (Z.ltb_lt _ _) Hlt).
  - intros _ _ Hmin. rewrite (proj2 (Z.ltb_ge _ _) Hmin). split.
    + intros Hmax. by rewrite (proj2 (Z.leb_le _ _) Hmax).
    + intros Hmax. rewrite (proj2 (Z.leb_gt _ _) Hmax).
      apply Nat.leb_le.
Qed.

(** ** The two loops over the payment store *)

Lemma settle_payment_step_alter batch_id tx
    (payments : gmap string BatchPayment) k :
  settle_payment_step batch_id tx payments k
  = alter (settle_if_in batch_id tx) k payments.
Proof.
  unfold settle_payment_step. apply map_eq. intros j.
  rewrite lookup_alter. unfold settle_if_in.
  destruct (payments !! k) as [p|] eqn:Hk.
  - destruct (bool_decide (pay_batch_id p = Some batch_id)) eqn:Hin.
    + rewrite lookup_insert. destruct (decide (k = j)); [|done].
      cbn. by rewrite Hin.
    + destruct (decide (k = j)) as [<-|]; [|done].
      rewrite Hk. cbn. by rewrite Hin.
  - destruct (decide (k = j)) as [<-|]; [|done]. by rewrite Hk.
Qed.

Lemma foldl_alter_lookup {A} (g : A → A) (ks : list string)
    (m : gmap string A) j :
  NoDup ks →
  foldl (λ acc k, alter g k acc) m ks !! j
  = if decide (j ∈ ks) then g <$> m !! j else m !! j.
Proof.
  intros Hnd. revert m. induction Hnd as [|k ks Hk Hnd IH]; intros m.
  - cbn. destruct (decide (j ∈ [])) as [Hin|]; [|done].
    by apply elem_of_nil in Hin.
  - cbn [foldl]. rewrite IH, lookup_alter.
    destruct (decide (j ∈ ks)) as [Hin|Hout];
      destruct (decide (j ∈ k :: ks)) as [Hin'|Hout'];
      destruct (decide (k = j)) as [->|Hne]; try done.
    all: try (destruct Hout'; first [left | by right]).
    all: try (apply elem_of_cons in Hin' as [->|]; done).
    all: try (by destruct Hk).
Qed.

(** The settlement loop rewrites each payment of the batch in place and
    leaves every other record alone. *)
Lemma settle_payments_lookup batch_id tx (payments : gmap string BatchPayment) k :
  settle_payments batch_id tx payments !! k
  = settle_if_in batch_id tx <$> payments !! k.
Proof.
  unfold settle_payments.
  assert (∀ ks m,
            foldl (settle_payment_step batch_id tx) m ks
            = foldl (λ acc k, alter (settle_if_in batch_id tx) k acc) m ks)
    as Hstep.
  { induction ks as [|k' ks IH]; intros m; [done|].
    cbn [foldl]. by rewrite settle_payment_step_alter, IH. }
  rewrite Hstep, foldl_alter_lookup by apply NoDup_keys.
  destruct (decide (k ∈ keys payments)) as [|Hout]; [done|].
  rewrite elem_of_keys in Hout.
  destruct (payments !! k); [|done]. destruct Hout. by eexists.
Qed.

Lemma settle_payments_fmap batch_id tx (payments : gmap string BatchPayment) :
  settle_payments batch_id tx payments
  = settle_if_in batch_id tx <$> payments.
Proof. apply map_eq. intros k. by rewrite settle_payments_lookup, lookup_fmap. Qed.

Lemma batch_payments_lookup_notin batch_id (l : list BatchPayment)
    (payments : gmap string BatchPayment) k :
  (∀ p, p ∈ l → pay_payment_id p ≠ k) →
  batch_payments batch_id l payments !! k = payments !! k.
Proof.
  unfold batch_payments. revert payments.
  induction l as [|q l IH]; intros payments Hl; [done|].
  cbn [foldl]. rewrite IH by (intros p Hp; apply Hl; by right).
  apply lookup_insert_ne, Hl. left.
Qed.

Lemma batch_payments_lookup_in batch_id (l : list BatchPayment)
    (payments : gmap string BatchPayment) p :
  NoDup (pay_payment_id <$> l) → p ∈ l →
  batch_payments batch_id l payments !! pay_payment_id p
  = Some (batched_payment batch_id p).
Proof.
  revert payments. induction l as [|q l IH]; intros payments Hnd Hin.
  { by apply elem_of_nil in Hin. }
  cbn in Hnd. apply NoDup_cons in Hnd as [Hq Hnd].
  apply elem_of_cons in Hin as [->|Hin].
  - change (batch_payments batch_id (q :: l) payments)
      with (batch_payments batch_id l
              (<[pay_payment_id q := batched_payment batch_id q]> payments)).
    rewrite batch_payments_lookup_notin; [apply lookup_insert_eq|].
    intros p Hp Heq. apply Hq. rewrite <- Heq. by apply list_elem_of_fmap_2.
  - change (batch_payments batch_id (q :: l) payments)
      with (batch_payments batch_id l
              (<[pay_payment_id q := batched_payment batch_id q]> payments)).
    by apply IH.
Qed.

Lemma pending_payments_of_NoDup merchant_id (payments : gmap string BatchPayment) :
  payment_keys_ok payments →
  NoDup (pay_payment_id <$> pending_payments_of merchant_id payments).
Proof.
  intros Hkeys. unfold pending_payments_of.
  pose proof (NoDup_keys payments) as Hnd.
  assert (∀ k, k ∈ keys payments → is_Some (payments !! k)) as Hin
    by (intros k; apply elem_of_keys).
  induction Hnd as [|k ks Hk Hnd IH]; [constructor|].
  cbn [omap list_omap].
  destruct (Hin k) as [p Hp]; [left|]. rewrite Hp.
  assert (∀ k', k' ∈ ks → is_Some (payments !! k')) as Hin'
    by (intros k' Hk'; apply Hin; by right).
  destruct (is_pending_of merchant_id p); [|by apply IH].
  cbn. apply NoDup_cons. split; [|by apply IH].
  intros Hdup. apply list_elem_of_fmap in Hdup as (q & Hq & Hqin).
  apply list_elem_of_omap in Hqin as (k' & Hk' & Hsome).
  destruct (payments !! k') as [q'|] eqn:Hq'; [|done].
  destruct (is_pending_of merchant_id q'); [|done].
  injection Hsome as ->.
  apply Hkeys in Hp, Hq'. congruence.
Qed.

(** With every record under its own key, the batching loop rewrites each
    pending payment of the merchant in place. *)
Lemma batch_payments_lookup merchant_id batch_id
    (payments : gmap string BatchPayment) k :
  payment_keys_ok payments →
  batch_payments batch_id (pending_payments_of merchant_id payments) payments !! k
  = batch_if_pending merchant_id batch_id <$> payments !! k.
Proof.
  intros Hkeys. unfold batch_if_pending.
  destruct (payments !! k) as [p|] eqn:Hk; cbn.
  - destruct (is_pending_of merchant_id p) eqn:Hpend.
    + rewrite <- (Hkeys _ _ Hk).
      apply batch_payments_lookup_in.
      * by apply pending_payments_of_NoDup.
      * apply elem_of_pending_payments_of.
        unfold is_pending_of in Hpend.
        apply andb_prop in Hpend as [Hm Hs].
        apply bool_decide_eq_true_1 in Hm, Hs. eauto.
    + rewrite batch_payments_lookup_notin; [done|].
      intros q Hq Heq. apply elem_of_pending_payments_of in Hq as ([k' Hq] & Hm & Hs).
      pose proof (Hkeys _ _ Hq). assert (k' = k) as -> by congruence.
      assert (q = p) as -> by congruence.
      unfold is_pending_of in Hpend. by rewrite !bool_decide_eq_true_2 in Hpend.
  - rewrite batch_payments_lookup_notin; [done|].
    intros q Hq Heq. apply elem_of_pending_payments_of in Hq as ([k' Hq] & _).
    pose proof (Hkeys _ _ Hq). congruence.
Qed.

Lemma batch_payments_fmap merchant_id batch_id
    (payments : gmap string BatchPayment) :
  payment_keys_ok payments →
  batch_payments batch_id (pending_payments_of merchant_id payments) payments
  = batch_if_pending merchant_id batch_id <$> payments.
Proof.
  intros Hkeys. apply map_eq. intros k.
  by rewrite batch_payments_lookup, lookup_fmap.
Qed.

(** ** Effect of the operations on each map *)

Lemma record_batch_fields e merchant_id (l : list BatchPayment) s :
  let s' := record_batch e merchant_id l s in
  let batch_id := new_batch_id e merchant_id in
  merchant_configs_storage s' = merchant_configs_storage s
  ∧ batch_payments_storage s'
    = batch_payments batch_id l (batch_payments_storage s)
  ∧ batches_storage s'
    = <[batch_id := new_batch e merchant_id l]> (batches_storage s)
  ∧ escrow_pdas_storage s'
    = match escrow_pdas_storage s !! merchant_id with
      | Some pda =>
          <[merchant_id := funded_pda (sum_amounts l) pda]>
            (escrow_pdas_storage s)
      | None => escrow_pdas_storage s
      end
  ∧ settle_config_storage s' = settle_config_storage s.
Proof.
  unfold record_batch. cbn.
  by destruct (escrow_pdas_storage s !! merchant_id).
Qed.

Lemma settle_batch_success_fields e batch_id s batch :
  batches_storage s !! batch_id = Some batch →
  bat_status batch = "pending" →
  emergency_paused s = false →
  random_success e = true →
  let s' := (settle_batch e batch_id s).2 in
  (settle_batch e batch_id s).1 = true
  ∧ merchant_configs_storage s' = merchant_configs_storage s
  ∧ batch_payments_storage s'
    = settle_if_in batch_id
        (bat_transaction_hash (final_batch e batch_id batch))
      <$> batch_payments_storage s
  ∧ batches_storage s'
    = <[batch_id := final_batch e batch_id batch]> (batches_storage s)
  ∧ escrow_pdas_storage s'
    = match escrow_pdas_storage s !! bat_merchant_id batch with
      | Some pda =>
          <[bat_merchant_id batch := settled_pda batch pda]>
            (escrow_pdas_storage s)
      | None => escrow_pdas_storage s
      end
  ∧ settle_config_storage s' = settle_config_storage s.
Proof.
  intros Hget Hstatus Hpause Hok.
  rewrite (settle_batch_accepted e _ _ batch), Hok by done.
  cbn [fst snd]. cbn -[final_batch settle_payments].
  rewrite <- settle_payments_fmap.
  destruct (escrow_pdas_storage s !! bat_merchant_id batch);
    cbn -[final_batch settle_payments]; by rewrite insert_insert_eq.
Qed.

Lemma settle_batch_failed_fields e batch_id s batch :
  batches_storage s !! batch_id = Some batch →
  bat_status batch = "pending" →
  emergency_paused s = false →
  random_success e = false →
  let s' := (settle_batch e batch_id s).2 in
  (settle_batch e batch_id s).1 = false
  ∧ merchant_configs_storage s' = merchant_configs_storage s
  ∧ batch_payments_storage s' = batch_payments_storage s
  ∧ batches_storage s'
    = <[batch_id := failed_batch batch]> (batches_storage s)
  ∧ escrow_pdas_storage s' = escrow_pdas_storage s
  ∧ settle_config_storage s' = settle_config_storage s.
Proof.
  intros Hget Hstatus Hpause Hok.
  rewrite (settle_batch_accepted e _ _ batch), Hok by done.
  cbn. by rewrite insert_insert_eq.
Qed.

(** The three ways a call of [settle_batch] can go. *)
Lemma settle_batch_cases e batch_id s :
  settle_batch e batch_id s = (false, s)
  ∨ ∃ batch, batches_storage s !! batch_id = Some batch
             ∧ bat_status batch = "pending"
             ∧ emergency_paused s = false.
Proof.
  destruct (batches_storage s !! batch_id) as [batch|] eqn:Hget.
  - destruct (decide (bat_status batch = "pending")) as [Hstatus|Hstatus].
    + destruct (emergency_paused s) eqn:Hpause.
      * left. by apply settle_batch_paused.
      * right. by exists batch.
    + left. by apply settle_batch_not_pending with batch.
  - left. by apply settle_batch_unknown.
Qed.

Lemma is_Some_lookup_insert {A} (m : gmap string A) k v j :
  is_Some (m !! j) → is_Some (<[k := v]> m !! j).
Proof.
  intros Hj. rewrite lookup_insert. by destruct (decide (k = j)).
Qed.

(** ** Well-formed stores *)

Lemma store_ok_init : store_ok canister_init.
Proof. split; cbn; intros *; by rewrite ?lookup_empty. Qed.

Lemma sum_amounts_nonneg (l : list BatchPayment) :
  (∀ p, p ∈ l → 0 ≤ pay_amount p) → 0 ≤ sum_amounts l.
Proof.
  induction l as [|p l IH]; intros Hl; cbn; [done|].
  assert (0 ≤ pay_amount p) by (apply Hl; left).
  assert (0 ≤ sum_amounts l) by (apply IH; intros q Hq; apply Hl; by right).
  unfold sum_amounts in *. lia.
Qed.

Lemma store_ok_ensure_config e payment_data s :
  store_ok s → store_ok (ensure_config e payment_data s).
Proof.
  intros Hok. unfold ensure_config.
  destruct (merchant_configs_storage s !! pd_merchant_id payment_data) eqn:Hget;
    [done|].
  destruct Hok. split; cbn; try done.
  intros k c. rewrite lookup_insert.
  destruct (decide (pd_merchant_id payment_data = k)) as [<-|]; [|by eauto].
  by intros [= <-].
Qed.

Lemma store_ok_create_or_get_escrow_pda e merchant_id s :
  store_ok s → store_ok (create_or_get_escrow_pda e merchant_id s).2.
Proof.
  intros Hok. unfold create_or_get_escrow_pda.
  destruct (escrow_pdas_storage s !! merchant_id) eqn:Hget; [done|].
  destruct Hok as [Hkeys Hckeys Hbkeys Hamounts Hstatus Hpending Hrefs
                     Htotals Hpdas Hbalances].
  split; cbn; try done.
  - intros k p Hp Hs. destruct (Hpending k p Hp Hs). split; [done|].
    by apply is_Some_lookup_insert.
  - intros k b Hb. apply is_Some_lookup_insert. eauto.
  - intros k pda. rewrite lookup_insert.
    destruct (decide (merchant_id = k)) as [<-|]; [|by eauto].
    by intros [= <-].
Qed.

Lemma escrow_pda_exists e merchant_id s :
  is_Some (escrow_pdas_storage (create_or_get_escrow_pda e merchant_id s).2
           !! merchant_id).
Proof.
  unfold create_or_get_escrow_pda.
  destruct (escrow_pdas_storage s !! merchant_id) eqn:Hget; cbn.
  - by rewrite Hget.
  - by rewrite lookup_insert_eq.
Qed.

(** A new record may be stored under [k] when it carries [k], a natural
    amount, and is either a fresh pending payment of a merchant with an
    escrow account or a settled payment outside any batch. *)
Lemma store_ok_insert_payment k p s :
  store_ok s →
  pay_payment_id p = k → 0 ≤ pay_amount p → pay_batch_id p = None →
  (pay_status p = "pending"
   ∧ is_Some (escrow_pdas_storage s !! pay_merchant_id p)
   ∨ pay_status p = "settled") →
  store_ok (insert_payment k p s).
Proof.
  intros Hok Hid Hamount Hbatch Hstatus. destruct Hok.
  split; cbn; try done.
  all: intros k' p'; rewrite lookup_insert;
    destruct (decide (k = k')) as [<-|]; [|by eauto].
  - by intros [= <-].
  - by intros [= <-].
  - intros [= <-]. destruct Hstatus as [[-> _]| ->]; auto.
  - intros [= <-] Hs. split; [done|].
    destruct Hstatus as [[_ ?]|Hst]; [done|]. by rewrite Hst in Hs.
  - intros b [= <-]. by rewrite Hbatch.
Qed.

Lemma pending_payments_of_stored merchant_id s p :
  store_ok s →
  p ∈ pending_payments_of merchant_id (batch_payments_storage s) →
  0 ≤ pay_amount p ∧ is_Some (escrow_pdas_storage s !! merchant_id).
Proof.
  intros Hok Hin.
  apply elem_of_pending_payments_of in Hin as ([k Hk] & <- & Hs).
  split; [by eapply ok_amounts|]. by eapply ok_pending.
Qed.

(** Two steps that recur below. A record read from a payment store that
    was mapped over comes from a record [q] of the old store; a record read
    at [k] after an insertion at [k0] is the inserted one or an old one. *)
Ltac from_mapped k q Hq :=
  rewrite lookup_fmap;
  destruct (batch_payments_storage _ !! k) as [q|] eqn:Hq; [|done];
  intros [= <-].

Ltac from_inserted k0 k :=
  rewrite lookup_insert;
  destruct (decide (k0 = k)) as [<-|]; [intros [= <-]; cbn|].

Lemma store_ok_record_batch e merchant_id s :
  store_ok s →
  pending_payments_of merchant_id (batch_payments_storage s) ≠ [] →
  store_ok
    (record_batch e merchant_id
       (pending_payments_of merchant_id (batch_payments_storage s)) s).
Proof.
  intros Hok Hne.
  destruct (record_batch_fields e merchant_id
              (pending_payments_of merchant_id (batch_payments_storage s)) s)
    as (Hc & Hp & Hb & Hpda & Hsc).
  rewrite batch_payments_fmap in Hp by apply Hok.
  set (l := pending_payments_of merchant_id (batch_payments_storage s)) in *.
  assert (is_Some (escrow_pdas_storage s !! merchant_id)) as [pda Hget].
  { destruct l as [|p l'] eqn:Hl; [done|].
    eapply (pending_payments_of_stored merchant_id s p); [done|].
    fold l. rewrite Hl. left. }
  rewrite Hget in Hpda.
  assert (0 ≤ sum_amounts l) as Htotal.
  { apply sum_amounts_nonneg. intros p Hin.
    by eapply pending_payments_of_stored. }
  destruct Hok as [Hkeys Hckeys Hbkeys Hamounts Hstatus Hpending Hrefs
                     Htotals Hpdas Hbalances].
  split; rewrite ?Hc, ?Hp, ?Hb, ?Hpda; try done.
  - intros k p. from_mapped k q Hq. unfold batch_if_pending.
    destruct (is_pending_of merchant_id q); cbn; eauto.
  - intros k b. from_inserted (new_batch_id e merchant_id) k; eauto.
  - intros k p. from_mapped k q Hq. unfold batch_if_pending.
    destruct (is_pending_of merchant_id q); cbn; eauto.
  - intros k p. from_mapped k q Hq. unfold batch_if_pending.
    destruct (is_pending_of merchant_id q); cbn; eauto.
  - intros k p. from_mapped k q Hq. unfold batch_if_pending.
    destruct (is_pending_of merchant_id q); cbn; [done|].
    intros Hs. destruct (Hpending k q Hq Hs). split; [done|].
    by apply is_Some_lookup_insert.
  - intros k p b. from_mapped k q Hq. unfold batch_if_pending.
    destruct (is_pending_of merchant_id q); cbn.
    + intros [= <-]. by rewrite lookup_insert_eq.
    + intros Hb'. apply is_Some_lookup_insert. eauto.
  - intros k b. from_inserted (new_batch_id e merchant_id) k; eauto.
  - intros k b. from_inserted (new_batch_id e merchant_id) k.
    + by rewrite lookup_insert_eq.
    + intros Hb'. apply is_Some_lookup_insert. eauto.
  - intros k pda'. from_inserted merchant_id k; [|by eauto].
    pose proof (Hbalances _ _ Hget). lia.
Qed.

Lemma store_ok_settle_batch e batch_id s :
  store_ok s → store_ok (settle_batch e batch_id s).2.
Proof.
  intros Hok.
  destruct (settle_batch_cases e batch_id s)
    as [->|(batch & Hget & Hbstatus & Hpause)]; [done|].
  destruct (random_success e) eqn:Hrand.
  - destruct (settle_batch_success_fields e batch_id s batch)
      as (_ & Hc & Hp & Hb & Hpda & Hsc); try done.
    destruct (ok_batch_pda s Hok _ _ Hget) as [pda Hpdaget].
    rewrite Hpdaget in Hpda.
    destruct Hok as [Hkeys Hckeys Hbkeys Hamounts Hstatus Hpending Hrefs
                       Htotals Hpdas Hbalances].
    split; rewrite ?Hc, ?Hp, ?Hb, ?Hpda; try done.
    + intros k p. from_mapped k q Hq. unfold settle_if_in.
      destruct (bool_decide _); cbn; eauto.
    + intros k b. from_inserted batch_id k; eauto.
    + intros k p. from_mapped k q Hq. unfold settle_if_in.
      destruct (bool_decide _); cbn; eauto.
    + intros k p. from_mapped k q Hq. unfold settle_if_in.
      destruct (bool_decide _); cbn; eauto.
    + intros k p. from_mapped k q Hq. unfold settle_if_in.
      destruct (bool_decide _); cbn; [done|].
      intros Hs. destruct (Hpending k q Hq Hs). split; [done|].
      by apply is_Some_lookup_insert.
    + intros k p b. from_mapped k q Hq. unfold settle_if_in.
      destruct (bool_decide _); cbn; intros Hb';
        apply is_Some_lookup_insert; eauto.
    + intros k b. from_inserted batch_id k; eauto.
    + intros k b. from_inserted batch_id k.
      * by rewrite lookup_insert_eq.
      * intros Hb'. apply is_Some_lookup_insert. eauto.
    + intros k pda'. from_inserted (bat_merchant_id batch) k; [lia|by eauto].
  - destruct (settle_batch_failed_fields e batch_id s batch)
      as (_ & Hc & Hp & Hb & Hpda & Hsc); try done.
    destruct Hok as [Hkeys Hckeys Hbkeys Hamounts Hstatus Hpending Hrefs
                       Htotals Hpdas Hbalances].
    split; rewrite ?Hc, ?Hp, ?Hb, ?Hpda; try done.
    + intros k b. from_inserted batch_id k; eauto.
    + intros k p b Hq Hb'. apply is_Some_lookup_insert. eauto.
    + intros k b. from_inserted batch_id k; eauto.
    + intros k b. from_inserted batch_id k; eauto.
Qed.

Lemma store_ok_create_batch_for_merchant e merchant_id s :
  store_ok s → store_ok (create_batch_for_merchant e merchant_id s).2.
Proof.
  intros Hok. unfold create_batch_for_merchant.
  destruct (merchant_configs_storage s !! merchant_id) as [config|]; [|done].
  destruct (pending_payments_of merchant_id (batch_payments_storage s))
    as [|p l] eqn:Hl; [done|].
  change (length (p :: l) =? 0)%nat with false. cbv iota. cbn [snd].
  assert (store_ok (record_batch e merchant_id (p :: l) s)) as Hok'.
  { rewrite <- Hl. apply store_ok_record_batch; [done|]. by rewrite Hl. }
  destruct (cfg_auto_settle config); [|done].
  by apply store_ok_settle_batch.
Qed.

Lemma store_ok_process_payment e payment_data s :
  store_ok s → 0 ≤ pd_amount payment_data →
  store_ok (process_payment e payment_data s).2.
Proof.
  intros Hok Hamount. unfold process_payment.
  apply (store_ok_ensure_config e payment_data) in Hok.
  destruct (should_use_escrow (pd_api_key payment_data)); cbn [snd].
  - apply (store_ok_create_or_get_escrow_pda e (pd_merchant_id payment_data))
      in Hok.
    match goal with
    | |- store_ok (if _ then (create_batch_for_merchant _ _ ?s1).2 else _) =>
        assert (store_ok s1) as Hok1
    end.
    { apply store_ok_insert_payment; try done.
      left. split; [done|]. apply escrow_pda_exists. }
    destruct (should_create_batch _ _); [|done].
    by apply store_ok_create_batch_for_merchant.
  - apply store_ok_insert_payment; try done. by right.
Qed.

Lemma store_ok_update_merchant_config e merchant_id config_data s :
  store_ok s →
  store_ok (update_merchant_config e merchant_id config_data s).2.
Proof.
  intros Hok. unfold update_merchant_config.
  destruct (merchant_configs_storage s !! merchant_id) eqn:Hget; [|done].
  destruct Hok. split; cbn; try done.
  intros k c. rewrite lookup_insert.
  destruct (decide (merchant_id = k)) as [<-|]; [|by eauto].
  by intros [= <-].
Qed.

Lemma store_ok_exec e c s :
  store_ok s → amount_is_nat c → store_ok (exec e c s).
Proof.
  intros Hok Hc. destruct c; cbn [exec].
  - by apply store_ok_process_payment.
  - by apply store_ok_create_batch_for_merchant.
  - by apply store_ok_settle_batch.
  - by apply store_ok_update_merchant_config.
Qed.

(** Every reachable store is well formed. *)
Lemma reachable_store_ok s : reachable s → store_ok s.
Proof.
  induction 1 as [|e c s Hreach IH Hc]; [apply store_ok_init|].
  by apply store_ok_exec.
Qed.

Lemma reachable_fresh_reachable s : reachable_fresh s → reachable s.
Proof. induction 1; [constructor|by constructor]. Qed.

(** ** Configuration updates *)

(** C10. [update_merchant_config] returns [False] and leaves the store as
    it was when the merchant has no configuration. Otherwise it returns
    [True]; the stored configuration keeps its [merchant_id],
    [merchant_address], [api_key], [tier], [batch_day] and [created_at];
    the configurations of the other merchants, the payments, the batches,
    the escrow accounts and the settlement configuration are untouched. *)
Theorem update_merchant_config_frame e merchant_id config_data s :
  reachable s →
  let r := update_merchant_config e merchant_id config_data s in
  match merchant_configs_storage s !! merchant_id with
  | None => r = (false, s)
  | Some old =>
      r.1 = true
      ∧ (∃ new, merchant_configs_storage r.2 !! merchant_id = Some new
                ∧ cfg_merchant_id new = cfg_merchant_id old
                ∧ cfg_merchant_address new = cfg_merchant_address old
                ∧ cfg_api_key new = cfg_api_key old
                ∧ cfg_tier new = cfg_tier old
                ∧ cfg_batch_day new = cfg_batch_day old
                ∧ cfg_created_at new = cfg_created_at old)
      ∧ (∀ k, k ≠ merchant_id →
              merchant_configs_storage r.2 !! k
              = merchant_configs_storage s !! k)
      ∧ batch_payments_storage r.2 = batch_payments_storage s
      ∧ batches_storage r.2 = batches_storage s
      ∧ escrow_pdas_storage r.2 = escrow_pdas_storage s
      ∧ settle_config_storage r.2 = settle_config_storage s
  end.
Proof.
  intros Hreach r. subst r. unfold update_merchant_config.
  destruct (merchant_configs_storage s !! merchant_id) as [old|] eqn:Hget;
    [|done].
  cbn [fst snd]. split; [done|]. split.
  - exists (updated_config e merchant_id config_data old).
    split; [cbn; apply lookup_insert_eq|].
    cbn. split; [|done].
    symmetry. by eapply ok_config_keys; [apply reachable_store_ok|].
  - split; [|done]. intros k Hk. cbn. by apply lookup_insert_ne.
Qed.

(** ** Free-tier payments *)

(** C8, as the code has it. A payment whose credential classifies as free
    tier returns ["direct_settled_" + payment_id]; it leaves the escrow
    accounts, the batches and the settlement configuration as they were,
    and it writes exactly one record to the payment store, under the new
    payment identifier: the payment itself, with status ["settled"] and no
    batch. No record with status ["pending"] comes from the call. *)
Theorem process_payment_free_tier e payment_data s :
  detect_api_tier (pd_api_key payment_data) = free →
  let r := process_payment e payment_data s in
  let payment_id := new_payment_id e payment_data in
  r.1 = "direct_settled_" +:+ payment_id
  ∧ escrow_pdas_storage r.2 = escrow_pdas_storage s
  ∧ batches_storage r.2 = batches_storage s
  ∧ settle_config_storage r.2 = settle_config_storage s
  ∧ batch_payments_storage r.2
    = <[payment_id := direct_payment e payment_data]>
        (batch_payments_storage s)
  ∧ pay_status (direct_payment e payment_data) = "settled"
  ∧ pay_batch_id (direct_payment e payment_data) = None
  ∧ (∀ k p, batch_payments_storage r.2 !! k = Some p →
            pay_status p = "pending" →
            batch_payments_storage s !! k = Some p).
Proof.
  intros Htier r payment_id. subst r payment_id.
  unfold process_payment, should_use_escrow. rewrite Htier. cbn [fst snd].
  assert (∀ s', escrow_pdas_storage (ensure_config e payment_data s')
                = escrow_pdas_storage s'
                ∧ batches_storage (ensure_config e payment_data s')
                  = batches_storage s'
                ∧ settle_config_storage (ensure_config e payment_data s')
                  = settle_config_storage s'
                ∧ batch_payments_storage (ensure_config e payment_data s')
                  = batch_payments_storage s') as Hensure.
  { intros s'. unfold ensure_config.
    by destruct (merchant_configs_storage s' !! pd_merchant_id payment_data). }
  destruct (Hensure s) as (He & Hb & Hsc & Hp).
  cbn -[new_payment_id direct_payment]. rewrite He, Hb, Hsc, Hp.
  repeat split; try done.
  intros k p. rewrite lookup_insert.
  destruct (decide (new_payment_id e payment_data = k)); [|done].
  by intros [= <-].
Qed.

(** ** Funds committed to batches *)

Lemma total_where_empty P : total_where P ∅ = 0.
Proof. unfold total_where. by rewrite map_fold_empty. Qed.

Lemma total_where_insert_fresh P (batches : gmap string Batch) k b :
  batches !! k = None →
  total_where P (<[k := b]> batches) = share P b + total_where P batches.
Proof.
  intros Hk. unfold total_where.
  rewrite map_fold_insert_L; [done| |done]. intros. lia.
Qed.

Lemma total_where_delete P (batches : gmap string Batch) k b :
  batches !! k = Some b →
  total_where P batches = share P b + total_where P (delete k batches).
Proof.
  intros Hk. unfold total_where.
  rewrite (map_fold_delete_L _ _ k b batches); [done| |done]. intros. lia.
Qed.

Lemma total_where_insert_replace P (batches : gmap string Batch) k old b :
  batches !! k = Some old →
  total_where P (<[k := b]> batches)
  = share P b + total_where P batches - share P old.
Proof.
  intros Hk. rewrite <- insert_delete_eq.
  rewrite total_where_insert_fresh by apply lookup_delete_eq.
  rewrite (total_where_delete P batches k old) by done. lia.
Qed.

Lemma total_where_nonneg P (batches : gmap string Batch) :
  (∀ k b, batches !! k = Some b → 0 ≤ bat_total_amount b) →
  0 ≤ total_where P batches.
Proof.
  induction batches as [|k b batches Hk IH] using map_ind; intros Hall.
  - by rewrite total_where_empty.
  - rewrite total_where_insert_fresh by done.
    assert (0 ≤ bat_total_amount b)
      by (apply (Hall k); apply lookup_insert_eq).
    assert (0 ≤ total_where P batches).
    { apply IH. intros k' b' Hb'. apply (Hall k').
      rewrite lookup_insert_ne; [done|]. intros ->. congruence. }
    unfold share. destruct (P b); lia.
Qed.

Lemma total_where_zero P (batches : gmap string Batch) :
  (∀ k b, batches !! k = Some b → P b = false) →
  total_where P batches = 0.
Proof.
  induction batches as [|k b batches Hk IH] using map_ind; intros Hall.
  - by rewrite total_where_empty.
  - rewrite total_where_insert_fresh by done.
    unfold share. rewrite (Hall k b) by apply lookup_insert_eq.
    rewrite IH; [done|]. intros k' b' Hb'. apply (Hall k').
    rewrite lookup_insert_ne; [done|]. intros ->. congruence.
Qed.

(** The share of one stored batch is at most the total. *)
Lemma share_le_total_where P (batches : gmap string Batch) k b :
  (∀ k b, batches !! k = Some b → 0 ≤ bat_total_amount b) →
  batches !! k = Some b →
  share P b ≤ total_where P batches.
Proof.
  intros Hall Hk. rewrite (total_where_delete P batches k b) by done.
  assert (0 ≤ total_where P (delete k batches)); [|lia].
  apply total_where_nonneg. intros k' b'. rewrite lookup_delete.
  destruct (decide (k = k')); [done|]. apply Hall.
Qed.

Lemma share_unsettled_settled merchant_id b :
  bat_status b = "settled" → share (is_unsettled_of merchant_id) b = 0.
Proof.
  intros Hs. unfold share, is_unsettled_of.
  rewrite (bool_decide_eq_true_2 _ Hs). by rewrite andb_false_r.
Qed.

Lemma share_unsettled_other merchant_id b :
  bat_merchant_id b ≠ merchant_id → share (is_unsettled_of merchant_id) b = 0.
Proof.
  intros Hm. unfold share, is_unsettled_of.
  by rewrite (bool_decide_eq_false_2 _ Hm).
Qed.

Lemma share_unsettled_own merchant_id b :
  bat_merchant_id b = merchant_id → bat_status b ≠ "settled" →
  share (is_unsettled_of merchant_id) b = bat_total_amount b.
Proof.
  intros Hm Hs. unfold share, is_unsettled_of.
  rewrite (bool_decide_eq_true_2 _ Hm).
  by rewrite (bool_decide_eq_false_2 _ Hs).
Qed.

Lemma balance_ok_init : balance_ok canister_init.
Proof. intros m pda. cbn. by rewrite lookup_empty. Qed.

Lemma balance_ok_same s s' :
  escrow_pdas_storage s' = escrow_pdas_storage s →
  batches_storage s' = batches_storage s →
  balance_ok s → balance_ok s'.
Proof. unfold balance_ok. intros -> ->. done. Qed.

Lemma balance_ok_create_or_get_escrow_pda e merchant_id s :
  store_ok s → balance_ok s →
  balance_ok (create_or_get_escrow_pda e merchant_id s).2.
Proof.
  intros Hok Hbal. unfold create_or_get_escrow_pda.
  destruct (escrow_pdas_storage s !! merchant_id) eqn:Hget; [done|].
  intros m pda. cbn. rewrite lookup_insert.
  destruct (decide (merchant_id = m)) as [<-|]; [|by apply Hbal].
  intros [= <-]. cbn. symmetry. apply total_where_zero.
  intros k b Hb. unfold is_unsettled_of.
  destruct (bool_decide (bat_merchant_id b = merchant_id)) eqn:Hm; [|done].
  apply bool_decide_eq_true_1 in Hm.
  destruct (ok_batch_pda s Hok k b Hb) as [pda' Hpda']. congruence.
Qed.

Lemma balance_ok_record_batch e merchant_id s :
  store_ok s → balance_ok s →
  batches_storage s !! new_batch_id e merchant_id = None →
  balance_ok
    (record_batch e merchant_id
       (pending_payments_of merchant_id (batch_payments_storage s)) s).
Proof.
  intros Hok Hbal Hfresh.
  destruct (record_batch_fields e merchant_id
              (pending_payments_of merchant_id (batch_payments_storage s)) s)
    as (_ & _ & Hb & Hpda & _).
  set (l := pending_payments_of merchant_id (batch_payments_storage s)) in *.
  intros m pda. rewrite Hb, Hpda.
  rewrite total_where_insert_fresh by done.
  destruct (escrow_pdas_storage s !! merchant_id) as [old|] eqn:Hold.
  - rewrite lookup_insert.
    destruct (decide (merchant_id = m)) as [<-|Hne].
    + intros [= <-].
      rewrite (share_unsettled_own merchant_id (new_batch e merchant_id l))
        by done.
      cbn. rewrite (Hbal _ _ Hold). lia.
    + intros Hm. rewrite share_unsettled_other by done.
      by rewrite (Hbal _ _ Hm).
  - intros Hm.
    rewrite share_unsettled_other by (cbn; intros ->; congruence).
    by rewrite (Hbal _ _ Hm).
Qed.

Lemma balance_ok_settle_batch e batch_id s :
  store_ok s → balance_ok s → balance_ok (settle_batch e batch_id s).2.
Proof.
  intros Hok Hbal.
  destruct (settle_batch_cases e batch_id s)
    as [->|(batch & Hget & Hstatus & Hpause)]; [done|].
  destruct (random_success e) eqn:Hrand.
  - destruct (settle_batch_success_fields e batch_id s batch)
      as (_ & _ & _ & Hb & Hpda & _); try done.
    intros m pda. rewrite Hb, Hpda.
    rewrite (total_where_insert_replace _ _ _ batch) by done.
    rewrite share_unsettled_settled by done.
    pose proof (share_le_total_where (is_unsettled_of m) _ _ _
                  (ok_batch_total s Hok) Hget) as Hle.
    destruct (escrow_pdas_storage s !! bat_merchant_id batch) as [old|] eqn:Hold.
    + rewrite lookup_insert.
      destruct (decide (bat_merchant_id batch = m)) as [<-|Hne].
      * intros [= <-]. cbn.
        rewrite (share_unsettled_own _ batch) in * by (by rewrite ?Hstatus).
        rewrite (Hbal _ _ Hold) in *. lia.
      * intros Hm. rewrite share_unsettled_other by done.
        rewrite (Hbal _ _ Hm). lia.
    + intros Hm.
      rewrite share_unsettled_other by (intros <-; congruence).
      rewrite (Hbal _ _ Hm). lia.
  - destruct (settle_batch_failed_fields e batch_id s batch)
      as (_ & _ & _ & Hb & Hpda & _); try done.
    intros m pda. rewrite Hb, Hpda.
    rewrite (total_where_insert_replace _ _ _ batch) by done.
    intros Hm. rewrite (Hbal _ _ Hm).
    assert (share (is_unsettled_of m) (failed_batch batch)
            = share (is_unsettled_of m) batch) as ->; [|lia].
    unfold share, is_unsettled_of. cbn. rewrite Hstatus.
    rewrite (bool_decide_eq_false_2 ("pending" = "settled")) by done.
    by rewrite (bool_decide_eq_false_2 ("failed" = "settled")) by done.
Qed.

Lemma balance_ok_create_batch_for_merchant e merchant_id s :
  store_ok s → balance_ok s →
  (creates_batch merchant_id s = true →
   batches_storage s !! new_batch_id e merchant_id = None) →
  balance_ok (create_batch_for_merchant e merchant_id s).2.
Proof.
  intros Hok Hbal. unfold create_batch_for_merchant, creates_batch.
  destruct (merchant_configs_storage s !! merchant_id) as [config|]; [|done].
  destruct (pending_payments_of merchant_id (batch_payments_storage s))
    as [|p l] eqn:Hl; [done|].
  change (length (p :: l) =? 0)%nat with false. cbv iota. cbn [snd negb].
  intros Hfresh. specialize (Hfresh eq_refl).
  assert (store_ok (record_batch e merchant_id (p :: l) s)
          ∧ balance_ok (record_batch e merchant_id (p :: l) s)) as [Hok' Hbal'].
  { rewrite <- Hl. split.
    - apply store_ok_record_batch; [done|]. by rewrite Hl.
    - by apply balance_ok_record_batch. }
  destruct (cfg_auto_settle config); [|done].
  by apply balance_ok_settle_batch.
Qed.

Lemma balance_ok_process_payment e payment_data s :
  store_ok s → balance_ok s → 0 ≤ pd_amount payment_data →
  batch_id_not_reused e (ProcessPayment payment_data) s →
  balance_ok (process_payment e payment_data s).2.
Proof.
  intros Hok Hbal Hamount Hfresh.
  unfold batch_id_not_reused, stores_batch, escrow_intake, batch_id_unused
    in Hfresh.
  cbv zeta in Hfresh. unfold process_payment.
  assert (escrow_pdas_storage (ensure_config e payment_data s)
          = escrow_pdas_storage s
          ∧ batches_storage (ensure_config e payment_data s)
            = batches_storage s) as [He Hb].
  { unfold ensure_config.
    by destruct (merchant_configs_storage s !! pd_merchant_id payment_data). }
  apply (balance_ok_same s (ensure_config e payment_data s)) in Hbal;
    [|done..].
  apply (store_ok_ensure_config e payment_data) in Hok.
  rewrite <- Hb in Hfresh. clear He Hb.
  set (s0 := ensure_config e payment_data s) in *.
  destruct (should_use_escrow (pd_api_key payment_data)); cbn [snd].
  - cbn [andb] in Hfresh.
    pose proof (escrow_pda_exists e (pd_merchant_id payment_data) s0) as Hpda.
    apply (balance_ok_create_or_get_escrow_pda e
             (pd_merchant_id payment_data)) in Hbal; [|done].
    apply (store_ok_create_or_get_escrow_pda e (pd_merchant_id payment_data))
      in Hok.
    assert (batches_storage
              (create_or_get_escrow_pda e (pd_merchant_id payment_data) s0).2
            = batches_storage s0) as Hb.
    { unfold create_or_get_escrow_pda.
      by destruct (escrow_pdas_storage s0 !! pd_merchant_id payment_data). }
    rewrite <- Hb in Hfresh. clear Hb.
    set (s1 := (create_or_get_escrow_pda e (pd_merchant_id payment_data) s0).2)
      in *.
    match goal with
    | |- balance_ok (if _ then (create_batch_for_merchant _ _ ?s2).2 else _) =>
        assert (store_ok s2 ∧ balance_ok s2) as [Hok2 Hbal2]
    end.
    { split.
      - apply store_ok_insert_payment; try done. left. by split.
      - by apply (balance_ok_same s1). }
    destruct (should_create_batch _ _); [|done].
    by apply balance_ok_create_batch_for_merchant.
  - by apply (balance_ok_same s0).
Qed.

Lemma balance_ok_exec e c s :
  store_ok s → balance_ok s → amount_is_nat c → batch_id_not_reused e c s →
  balance_ok (exec e c s).
Proof.
  intros Hok Hbal Hc Hfresh. destruct c; cbn [exec].
  - by apply balance_ok_process_payment.
  - by apply balance_ok_create_batch_for_merchant.
  - by apply balance_ok_settle_batch.
  - unfold update_merchant_config.
    destruct (merchant_configs_storage s !! merchant_id); [|done].
    by apply (balance_ok_same s).
Qed.

Lemma reachable_fresh_balance_ok s : reachable_fresh s → balance_ok s.
Proof.
  induction 1 as [|e c s Hreach IH Hc Hfresh]; [apply balance_ok_init|].
  apply balance_ok_exec; try done.
  by apply reachable_store_ok, reachable_fresh_reachable.
Qed.

(** ** How a call moves a balance *)

(** [settle_batch] keeps every account; it lowers the balance of the
    batch's merchant when it returns [True] and changes no balance
    otherwise. *)
Lemma settle_batch_balance e batch_id s merchant_id pda :
  escrow_pdas_storage s !! merchant_id = Some pda →
  ∃ pda',
    escrow_pdas_storage (settle_batch e batch_id s).2 !! merchant_id
    = Some pda'
    ∧ (pda_total_balance pda' = pda_total_balance pda
       ∨ (settle_batch e batch_id s).1 = true
         ∧ ∃ batch,
             batches_storage s !! batch_id = Some batch
             ∧ bat_status batch = "pending"
             ∧ bat_merchant_id batch = merchant_id
             ∧ pda_total_balance pda'
               = Z.max 0 (pda_total_balance pda - bat_total_amount batch)).
Proof.
  intros Hpda.
  destruct (settle_batch_cases e batch_id s)
    as [->|(batch & Hget & Hstatus & Hpause)]; [by eauto|].
  destruct (random_success e) eqn:Hrand.
  - destruct (settle_batch_success_fields e batch_id s batch)
      as (Hr & _ & _ & _ & He & _); try done.
    rewrite He, Hr.
    destruct (decide (bat_merchant_id batch = merchant_id)) as [Hm|Hm].
    + rewrite Hm, Hpda, lookup_insert_eq.
      eexists. split; [done|]. right. split; [done|]. by exists batch.
    + destruct (escrow_pdas_storage s !! bat_merchant_id batch);
        rewrite ?lookup_insert_ne by done; eauto.
  - destruct (settle_batch_failed_fields e batch_id s batch)
      as (_ & _ & _ & _ & He & _); try done.
    rewrite He. eauto.
Qed.

(** [create_batch_for_merchant] keeps every account. A balance other than
    the merchant's own is unchanged; the merchant's own balance is
    unchanged or has grown by the total of the batch just stored, which is
    then still unsettled. *)
Lemma create_batch_for_merchant_balance e merchant_id s m pda :
  store_ok s →
  escrow_pdas_storage s !! m = Some pda →
  let s' := (create_batch_for_merchant e merchant_id s).2 in
  ∃ pda',
    escrow_pdas_storage s' !! m = Some pda'
    ∧ (pda_total_balance pda' = pda_total_balance pda
       ∨ m = merchant_id
         ∧ ∃ batch,
             batches_storage s' !! new_batch_id e merchant_id = Some batch
             ∧ bat_merchant_id batch = merchant_id
             ∧ bat_status batch ≠ "settled"
             ∧ pda_total_balance pda'
               = pda_total_balance pda + bat_total_amount batch).
Proof.
  intros Hok Hpda s'. subst s'. unfold create_batch_for_merchant.
  destruct (merchant_configs_storage s !! merchant_id) as [config|];
    [|by eauto].
  destruct (pending_payments_of merchant_id (batch_payments_storage s))
    as [|p l] eqn:Hl; [by eauto|].
  change (length (p :: l) =? 0)%nat with false. cbv iota. cbn [snd].
  destruct (record_batch_fields e merchant_id (p :: l) s)
    as (_ & _ & Hb & He & Hsc).
  set (s1 := record_batch e merchant_id (p :: l) s) in *.
  set (new := new_batch e merchant_id (p :: l)) in *.
  assert (0 ≤ pda_total_balance pda) as Hbal by (by eapply ok_balance).
  (* the account after the batch is recorded *)
  assert (∃ pda1,
            escrow_pdas_storage s1 !! m = Some pda1
            ∧ pda_total_balance pda1
              = if decide (m = merchant_id)
                then pda_total_balance pda + bat_total_amount new
                else pda_total_balance pda) as (pda1 & Hpda1 & Hbal1).
  { rewrite He. destruct (decide (m = merchant_id)) as [->|Hne].
    - rewrite Hpda, lookup_insert_eq. by eexists.
    - destruct (escrow_pdas_storage s !! merchant_id);
        rewrite ?lookup_insert_ne by done; eauto. }
  assert (batches_storage s1 !! new_batch_id e merchant_id = Some new)
    as Hnew by (rewrite Hb; apply lookup_insert_eq).
  assert (0 ≤ bat_total_amount new) as Htotal.
  { apply sum_amounts_nonneg. intros q Hq. rewrite <- Hl in Hq.
    by eapply pending_payments_of_stored. }
  destruct (cfg_auto_settle config).
  2:{ exists pda1. split; [done|]. rewrite Hbal1.
      destruct (decide (m = merchant_id)); [|by left].
      right. split; [done|]. by exists new. }
  destruct (settle_batch_cases e (new_batch_id e merchant_id) s1)
    as [->|(batch & Hget & Hstatus & Hpause)].
  { exists pda1. split; [done|]. rewrite Hbal1.
    destruct (decide (m = merchant_id)); [|by left].
    right. split; [done|]. by exists new. }
  assert (batch = new) as -> by congruence.
  destruct (random_success e) eqn:Hrand.
  - destruct (settle_batch_success_fields e (new_batch_id e merchant_id) s1 new)
      as (_ & _ & _ & _ & He' & _); try done.
    rewrite He'. change (bat_merchant_id new) with merchant_id.
    destruct (decide (m = merchant_id)) as [->|Hne].
    + rewrite Hpda1, lookup_insert_eq. eexists. split; [done|]. left.
      unfold settled_pda. cbn [pda_total_balance]. rewrite Hbal1. lia.
    + destruct (escrow_pdas_storage s1 !! merchant_id);
        rewrite ?lookup_insert_ne by done; eauto.
  - destruct (settle_batch_failed_fields e (new_batch_id e merchant_id) s1 new)
      as (_ & _ & _ & Hb' & He' & _); try done.
    rewrite He', Hb'. exists pda1. split; [done|]. rewrite Hbal1.
    destruct (decide (m = merchant_id)); [|by left].
    right. split; [done|]. exists (failed_batch new).
    split; [apply lookup_insert_eq|done].
Qed.

Lemma process_payment_balance e payment_data s m pda :
  store_ok s → 0 ≤ pd_amount payment_data →
  escrow_pdas_storage s !! m = Some pda →
  let s' := (process_payment e payment_data s).2 in
  let merchant_id := pd_merchant_id payment_data in
  ∃ pda',
    escrow_pdas_storage s' !! m = Some pda'
    ∧ (pda_total_balance pda' = pda_total_balance pda
       ∨ m = merchant_id
         ∧ ∃ batch,
             batches_storage s' !! new_batch_id e merchant_id = Some batch
             ∧ bat_merchant_id batch = merchant_id
             ∧ bat_status batch ≠ "settled"
             ∧ pda_total_balance pda'
               = pda_total_balance pda + bat_total_amount batch).
Proof.
  intros Hok Hamount Hpda s' merchant_id. subst s' merchant_id.
  unfold process_payment.
  assert (escrow_pdas_storage (ensure_config e payment_data s)
          = escrow_pdas_storage s) as He.
  { unfold ensure_config.
    by destruct (merchant_configs_storage s !! pd_merchant_id payment_data). }
  apply (store_ok_ensure_config e payment_data) in Hok.
  rewrite <- He in Hpda. clear He.
  set (s0 := ensure_config e payment_data s) in *.
  destruct (should_use_escrow (pd_api_key payment_data)); cbn [snd];
    [|by eauto].
  pose proof (escrow_pda_exists e (pd_merchant_id payment_data) s0) as Hex.
  assert (escrow_pdas_storage
            (create_or_get_escrow_pda e (pd_merchant_id payment_data) s0).2
          !! m = Some pda) as Hpda1.
  { unfold create_or_get_escrow_pda.
    destruct (escrow_pdas_storage s0 !! pd_merchant_id payment_data) eqn:Hget;
      [done|].
    cbn. rewrite lookup_insert_ne; [done|]. intros <-. congruence. }
  apply (store_ok_create_or_get_escrow_pda e (pd_merchant_id payment_data))
    in Hok.
  set (s1 := (create_or_get_escrow_pda e (pd_merchant_id payment_data) s0).2)
    in *.
  match goal with
  | |- context [create_batch_for_merchant _ _ ?s2] =>
      assert (store_ok s2) as Hok2
  end.
  { apply store_ok_insert_payment; try done. left. by split. }
  destruct (should_create_batch _ _); [|by eauto].
  by apply create_batch_for_merchant_balance.
Qed.

(** [settle_batch] and [create_batch_for_merchant] add no account. *)
Lemma settle_batch_no_account e batch_id s m :
  escrow_pdas_storage s !! m = None →
  escrow_pdas_storage (settle_batch e batch_id s).2 !! m = None.
Proof.
  intros Hm.
  destruct (settle_batch_cases e batch_id s)
    as [->|(batch & Hget & Hstatus & Hpause)]; [done|].
  destruct (random_success e) eqn:Hrand.
  - destruct (settle_batch_success_fields e batch_id s batch)
      as (_ & _ & _ & _ & He & _); try done.
    rewrite He.
    destruct (escrow_pdas_storage s !! bat_merchant_id batch) eqn:Hown;
      [|done].
    rewrite lookup_insert_ne; [done|]. intros Heq. congruence.
  - destruct (settle_batch_failed_fields e batch_id s batch)
      as (_ & _ & _ & _ & He & _); try done.
    by rewrite He.
Qed.

Lemma create_batch_for_merchant_no_account e merchant_id s m :
  escrow_pdas_storage s !! m = None →
  escrow_pdas_storage (create_batch_for_merchant e merchant_id s).2 !! m
  = None.
Proof.
  intros Hm. unfold create_batch_for_merchant.
  destruct (merchant_configs_storage s !! merchant_id) as [config|]; [|done].
  destruct (length _ =? 0)%nat; [done|]. cbn [snd].
  destruct (record_batch_fields e merchant_id
              (pending_payments_of merchant_id (batch_payments_storage s)) s)
    as (_ & _ & _ & He & _).
  set (s1 := record_batch e merchant_id _ s) in *.
  assert (escrow_pdas_storage s1 !! m = None) as Hm1.
  { rewrite He.
    destruct (escrow_pdas_storage s !! merchant_id) eqn:Hown; [|done].
    rewrite lookup_insert_ne; [done|]. intros Heq. congruence. }
  destruct (cfg_auto_settle config); [|done].
  by apply settle_batch_no_account.
Qed.

(** [process_payment] adds an account only on its escrow path and only for
    its own merchant. The new account starts at zero; when the call goes on
    to store a batch, the balance is zero again after a settlement that
    succeeded, and the total of the batch otherwise. *)
Lemma process_payment_new_account e payment_data s m pda' :
  store_ok s → 0 ≤ pd_amount payment_data →
  escrow_pdas_storage s !! m = None →
  escrow_pdas_storage (process_payment e payment_data s).2 !! m = Some pda' →
  m = pd_merchant_id payment_data
  ∧ should_use_escrow (pd_api_key payment_data) = true
  ∧ (pda_total_balance pda' = 0
     ∨ ∃ batch,
         batches_storage (process_payment e payment_data s).2
         !! new_batch_id e m = Some batch
         ∧ bat_merchant_id batch = m
         ∧ bat_status batch ≠ "settled"
         ∧ pda_total_balance pda' = bat_total_amount batch).
Proof.
  intros Hok Hamount Hm. unfold process_payment.
  assert (escrow_pdas_storage (ensure_config e payment_data s)
          = escrow_pdas_storage s) as He.
  { unfold ensure_config.
    by destruct (merchant_configs_storage s !! pd_merchant_id payment_data). }
  apply (store_ok_ensure_config e payment_data) in Hok.
  rewrite <- He in Hm. clear He.
  set (s0 := ensure_config e payment_data s) in *.
  destruct (should_use_escrow (pd_api_key payment_data)); cbn [snd];
    [|intros Hpda'; cbn in Hpda'; congruence].
  apply (store_ok_create_or_get_escrow_pda e (pd_merchant_id payment_data))
    in Hok as Hok1.
  destruct (decide (m = pd_merchant_id payment_data)) as [->|Hne].
  - assert (∃ pda0,
              escrow_pdas_storage
                (create_or_get_escrow_pda e (pd_merchant_id payment_data)
                   s0).2
              !! pd_merchant_id payment_data = Some pda0
              ∧ pda_total_balance pda0 = 0) as (pda0 & Hpda0 & Hzero).
    { unfold create_or_get_escrow_pda. rewrite Hm. cbn.
      rewrite lookup_insert_eq. by eexists. }
    set (s1 := (create_or_get_escrow_pda e (pd_merchant_id payment_data)
                  s0).2) in *.
    match goal with
    | |- context [create_batch_for_merchant _ _ ?s2] =>
        assert (store_ok s2) as Hok2
    end.
    { apply store_ok_insert_payment; try done. left. split; [done|].
      by exists pda0. }
    destruct (should_create_batch _ _).
    + match goal with
      | |- context [create_batch_for_merchant _ _ ?s2] =>
          destruct (create_batch_for_merchant_balance e
                      (pd_merchant_id payment_data) s2
                      (pd_merchant_id payment_data) pda0 Hok2 Hpda0)
            as (pda1 & Hpda1 & Hcases)
      end.
      intros Hpda'. assert (pda1 = pda') as -> by congruence.
      split; [done|]. split; [done|].
      destruct Hcases as [Heq|(_ & batch & Hbatch & Hbm & Hst & Hsum)].
      * left. lia.
      * right. exists batch. repeat split; try done. lia.
    + intros Hpda'. cbn in Hpda'. assert (pda0 = pda') as -> by congruence.
      split; [done|]. split; [done|]. by left.
  - assert (escrow_pdas_storage
              (create_or_get_escrow_pda e (pd_merchant_id payment_data) s0).2
            !! m = None) as Hm1.
    { unfold create_or_get_escrow_pda.
      destruct (escrow_pdas_storage s0 !! pd_merchant_id payment_data);
        [done|].
      cbn. by rewrite lookup_insert_ne. }
    destruct (should_create_batch _ _).
    + intros Hpda'.
      rewrite create_batch_for_merchant_no_account in Hpda' by done.
      congruence.
    + intros Hpda'. cbn in Hpda'. congruence.
Qed.

(** C2, as the code has it. In every reachable store each escrow balance
    is at least zero. In runs that never use a batch identifier twice,
    that is, in which every call that stores a batch gives it an
    identifier that is not in use, the balance of a merchant is the sum of
    [total_amount] over the merchant's batches that have not settled:
    pending, processing or failed (a failed settlement leaves the funds
    committed). Across any call, an account stays; its balance grows only
    if the call stored a batch for that merchant, by the total of that
    batch, and shrinks only if the call is a [settle_batch] that returned
    [True] on a batch of that merchant, to the old balance minus the total
    of the batch, or zero if that is negative. An account that a call
    creates comes from [process_payment] on its escrow path, for the
    merchant of the payment; its balance is zero, or the total of the batch
    that the call stored for the merchant and that has not settled. *)
Theorem escrow_balance_accounting :
  (∀ s merchant_id pda,
     reachable s →
     escrow_pdas_storage s !! merchant_id = Some pda →
     0 ≤ pda_total_balance pda)
  ∧ (∀ s merchant_id pda,
       reachable_fresh s →
       escrow_pdas_storage s !! merchant_id = Some pda →
       pda_total_balance pda
       = total_where (is_unsettled_of merchant_id) (batches_storage s))
  ∧ (∀ s e c merchant_id pda,
       reachable s → amount_is_nat c →
       escrow_pdas_storage s !! merchant_id = Some pda →
       ∃ pda',
         escrow_pdas_storage (exec e c s) !! merchant_id = Some pda'
         ∧ (pda_total_balance pda < pda_total_balance pda' →
            ∃ batch,
              batches_storage (exec e c s) !! new_batch_id e merchant_id
              = Some batch
              ∧ bat_merchant_id batch = merchant_id
              ∧ bat_status batch ≠ "settled"
              ∧ pda_total_balance pda'
                = pda_total_balance pda + bat_total_amount batch)
         ∧ (pda_total_balance pda' < pda_total_balance pda →
            ∃ batch_id batch,
              c = SettleBatch batch_id
              ∧ (settle_batch e batch_id s).1 = true
              ∧ batches_storage s !! batch_id = Some batch
              ∧ bat_merchant_id batch = merchant_id
              ∧ pda_total_balance pda'
                = Z.max 0 (pda_total_balance pda - bat_total_amount batch)))
  ∧ (∀ s e c merchant_id pda',
       reachable s → amount_is_nat c →
       escrow_pdas_storage s !! merchant_id = None →
       escrow_pdas_storage (exec e c s) !! merchant_id = Some pda' →
       (∃ payment_data,
          c = ProcessPayment payment_data
          ∧ pd_merchant_id payment_data = merchant_id
          ∧ should_use_escrow (pd_api_key payment_data) = true)
       ∧ (pda_total_balance pda' = 0
          ∨ ∃ batch,
              batches_storage (exec e c s) !! new_batch_id e merchant_id
              = Some batch
              ∧ bat_merchant_id batch = merchant_id
              ∧ bat_status batch ≠ "settled"
              ∧ pda_total_balance pda' = bat_total_amount batch)).
Proof.
  split; [|split; [|split]].
  - intros s m pda Hreach Hpda.
    by eapply ok_balance; [apply reachable_store_ok|].
  - intros s m pda Hreach Hpda. by apply reachable_fresh_balance_ok.
  - intros s e c m pda Hreach Hc Hpda.
    pose proof (reachable_store_ok s Hreach) as Hok.
    destruct c as [payment_data|merchant_id|batch_id|merchant_id config_data];
      cbn [exec].
    + destruct (process_payment_balance e payment_data s m pda)
        as (pda' & Hpda' & [Heq|(-> & batch & Hbatch & Hm & Hst & Hsum)]);
        try done.
      * exists pda'. split; [done|]. split; intros; lia.
      * exists pda'. split; [done|]. split; [by exists batch|].
        intros Hlt. pose proof (ok_batch_total _
          (store_ok_process_payment e payment_data s Hok Hc) _ _ Hbatch). lia.
    + destruct (create_batch_for_merchant_balance e merchant_id s m pda)
        as (pda' & Hpda' & [Heq|(-> & batch & Hbatch & Hm & Hst & Hsum)]);
        try done.
      * exists pda'. split; [done|]. split; intros; lia.
      * exists pda'. split; [done|]. split; [by exists batch|].
        intros Hlt. pose proof (ok_batch_total _
          (store_ok_create_batch_for_merchant e merchant_id s Hok) _ _ Hbatch).
        lia.
    + destruct (settle_batch_balance e batch_id s m pda)
        as (pda' & Hpda' & [Heq|(Hr & batch & Hbatch & Hst & Hm & Hmax)]);
        try done.
      * exists pda'. split; [done|]. split; intros; lia.
      * pose proof (ok_batch_total s Hok _ _ Hbatch).
        pose proof (ok_balance s Hok _ _ Hpda).
        exists pda'. split; [done|]. split; [intros; lia|].
        intros _. by exists batch_id, batch.
    + exists pda. split; [|split; intros; lia].
      unfold update_merchant_config.
      by destruct (merchant_configs_storage s !! merchant_id).
  - intros s e c m pda' Hreach Hc Hnone.
    pose proof (reachable_store_ok s Hreach) as Hok.
    destruct c as [payment_data|merchant_id|batch_id|merchant_id config_data];
      cbn [exec].
    + intros Hpda'.
      destruct (process_payment_new_account e payment_data s m pda')
        as (-> & Hescrow & Hcases); try done.
      split; [by exists payment_data|done].
    + by rewrite create_batch_for_merchant_no_account.
    + by rewrite settle_batch_no_account.
    + unfold update_merchant_config.
      destruct (merchant_configs_storage s !! merchant_id); cbn; congruence.
Qed.

(** ** Batch creation *)

Lemma sum_amounts_perm (l l' : list BatchPayment) :
  l ≡ₚ l' → sum_amounts l = sum_amounts l'.
Proof.
  unfold sum_amounts. induction 1; cbn; lia.
Qed.

Lemma values_fmap {A B} (f : A → B) (m : gmap string A) :
  values (f <$> m) ≡ₚ f <$> values m.
Proof.
  unfold values. rewrite map_to_list_fmap, <- !list_fmap_compose.
  assert ((snd ∘ prod_map id f <$> map_to_list m)
          = (f ∘ snd <$> map_to_list m)) as ->; [|done].
  apply list_fmap_ext. by intros ? [].
Qed.

(** Among records none of which points at [batch_id] yet, the records
    that point at it after the batching loop are the merchant's pending
    ones. *)
Lemma sum_members_after_batching merchant_id batch_id (l : list BatchPayment) :
  (∀ p, p ∈ l → pay_batch_id p ≠ Some batch_id) →
  sum_amounts
    (filter (λ p, pay_batch_id p = Some batch_id)
       (batch_if_pending merchant_id batch_id <$> l))
  = sum_amounts (omap (keep_pending_of merchant_id) l).
Proof.
  induction l as [|p l IH]; intros Hl; [done|].
  assert (sum_amounts
            (filter (λ p, pay_batch_id p = Some batch_id)
               (batch_if_pending merchant_id batch_id <$> l))
          = sum_amounts (omap (keep_pending_of merchant_id) l)) as IH'
    by (apply IH; intros q Hq; apply Hl; by right).
  assert (pay_batch_id p ≠ Some batch_id) as Hp by (apply Hl; left).
  rewrite fmap_cons, filter_cons. cbn [omap list_omap].
  destruct (is_pending_of merchant_id p) eqn:Hpend.
  - assert (batch_if_pending merchant_id batch_id p
            = batched_payment batch_id p) as ->
      by (unfold batch_if_pending; by rewrite Hpend).
    assert (keep_pending_of merchant_id p = Some p) as ->
      by (unfold keep_pending_of; by rewrite Hpend).
    rewrite decide_True by done. cbn. unfold sum_amounts in IH'.
    by rewrite IH'.
  - assert (batch_if_pending merchant_id batch_id p = p) as ->
      by (unfold batch_if_pending; by rewrite Hpend).
    assert (keep_pending_of merchant_id p = None) as ->
      by (unfold keep_pending_of; by rewrite Hpend).
    by rewrite decide_False.
Qed.

(** C6, as the code has it. For a merchant with a configuration and at
    least one pending payment, [create_batch_for_merchant] returns the new
    batch identifier. Right after the batch is recorded, before the last
    statement of the function passes it to [settle_batch] when
    [auto_settle] is set, the stored batch has the sum of the pending
    amounts as [total_amount], their number as [payment_count] and status
    ["pending"], and every included payment has gone from ["pending"] to
    ["batched"] with [batch_id] set to the new identifier. If no batch was
    stored under that identifier before, [total_amount] is the sum of the
    amounts of the payments whose [batch_id] is the new identifier. *)
Theorem create_batch_for_merchant_records e merchant_id s config :
  reachable s →
  merchant_configs_storage s !! merchant_id = Some config →
  pending_payments_of merchant_id (batch_payments_storage s) ≠ [] →
  let pending := pending_payments_of merchant_id (batch_payments_storage s) in
  let batch_id := new_batch_id e merchant_id in
  let s1 := record_batch e merchant_id pending s in
  create_batch_for_merchant e merchant_id s
  = (batch_id,
     if cfg_auto_settle config then (settle_batch e batch_id s1).2 else s1)
  ∧ (∃ batch,
       batches_storage s1 !! batch_id = Some batch
       ∧ bat_batch_id batch = batch_id
       ∧ bat_total_amount batch = sum_amounts pending
       ∧ bat_payment_count batch = Z.of_nat (length pending)
       ∧ bat_status batch = "pending"
       ∧ (batches_storage s !! batch_id = None →
          bat_total_amount batch
          = sum_amounts (batch_members batch_id (batch_payments_storage s1))))
  ∧ (∀ p, p ∈ pending →
          batch_payments_storage s !! pay_payment_id p = Some p
          ∧ pay_status p = "pending"
          ∧ ∃ p', batch_payments_storage s1 !! pay_payment_id p = Some p'
                  ∧ pay_status p' = "batched"
                  ∧ pay_batch_id p' = Some batch_id
                  ∧ pay_amount p' = pay_amount p).
Proof.
  intros Hreach Hconfig Hne pending batch_id s1.
  pose proof (reachable_store_ok s Hreach) as Hok.
  destruct (record_batch_fields e merchant_id pending s)
    as (_ & Hp & Hb & _ & _).
  fold s1 in Hp, Hb. fold batch_id in Hp, Hb.
  unfold pending at 1 in Hp.
  rewrite batch_payments_fmap in Hp by apply Hok.
  split; [|split].
  - unfold create_batch_for_merchant. rewrite Hconfig. fold pending.
    destruct pending as [|p l] eqn:Hl; [done|]. done.
  - exists (new_batch e merchant_id pending).
    split; [rewrite Hb; apply lookup_insert_eq|].
    repeat split. intros Hfresh. cbn [new_batch bat_total_amount].
    unfold batch_members. rewrite Hp.
    rewrite (sum_amounts_perm _ _
               (filter_Permutation _ _ _ (values_fmap _ _))).
    rewrite sum_members_after_batching.
    + unfold pending. by rewrite pending_payments_of_values.
    + intros p Hin Hbatch. apply elem_of_values in Hin as [k Hk].
      destruct (ok_batch_ref s Hok k p batch_id Hk Hbatch) as [b Hsome].
      congruence.
  - intros p Hin.
    apply elem_of_pending_payments_of in Hin as ([k Hk] & Hm & Hs).
    pose proof (ok_payment_keys s Hok k p Hk) as Hid. subst k.
    split; [done|]. split; [done|].
    exists (batched_payment batch_id p). split; [|done].
    rewrite Hp, lookup_fmap, Hk. cbn. unfold batch_if_pending, is_pending_of.
    by rewrite !bool_decide_eq_true_2.
Qed.

(** ** A successful settlement *)

(** X10. What a successful settlement does to a pending batch when
    settlement is not paused: the call answers [True]; the batch is settled
    with a transaction hash, the gas drawn and twenty-five times that as
    cost, and keeps its total; every payment whose [batch_id] is the batch
    is settled and carries the transaction hash of the batch, every other
    payment is untouched; the merchant's balance and pending-batch count go
    down by the total and by one, not below zero. The [settled_at] of the
    batch and [last_settlement] of the account take the value that
    [settled_at] had before the call. *)
Theorem settle_batch_success_effects e batch_id s batch :
  batches_storage s !! batch_id = Some batch →
  bat_status batch = "pending" →
  emergency_paused s = false →
  random_success e = true →
  let s' := (settle_batch e batch_id s).2 in
  let tx :=
    Some ("settle_tx_" +:+ pretty (py_hash (batch_id +:+ pretty (ic_time e)))) in
  (settle_batch e batch_id s).1 = true
  ∧ (∃ final,
       batches_storage s' !! batch_id = Some final
       ∧ bat_status final = "settled"
       ∧ bat_transaction_hash final = tx
       ∧ bat_gas_used final = Some (random_gas e)
       ∧ bat_gas_cost final = Some (random_gas e * 25)
       ∧ bat_total_amount final = bat_total_amount batch
       ∧ bat_settled_at final = bat_settled_at batch)
  ∧ (∀ k p, batch_payments_storage s !! k = Some p →
            pay_batch_id p = Some batch_id →
            ∃ p', batch_payments_storage s' !! k = Some p'
                  ∧ pay_status p' = "settled"
                  ∧ pay_transaction_hash p' = tx
                  ∧ pay_batch_id p' = Some batch_id
                  ∧ pay_amount p' = pay_amount p)
  ∧ (∀ k p, batch_payments_storage s !! k = Some p →
            pay_batch_id p ≠ Some batch_id →
            batch_payments_storage s' !! k = Some p)
  ∧ (∀ pda, escrow_pdas_storage s !! bat_merchant_id batch = Some pda →
            ∃ pda',
              escrow_pdas_storage s' !! bat_merchant_id batch = Some pda'
              ∧ pda_total_balance pda'
                = Z.max 0 (pda_total_balance pda - bat_total_amount batch)
              ∧ pda_pending_batches pda'
                = Z.max 0 (pda_pending_batches pda - 1)
              ∧ pda_last_settlement pda' = bat_settled_at batch).
Proof.
  intros Hget Hstatus Hpause Hrand s' tx. subst s'.
  destruct (settle_batch_success_fields e batch_id s batch)
    as (Hr & _ & Hp & Hb & He & _); try done.
  rewrite Hr, Hp, Hb, He. split; [done|]. split; [|split; [|split]].
  - exists (final_batch e batch_id batch).
    split; [apply lookup_insert_eq|done].
  - intros k p Hk Hbatch. rewrite lookup_fmap, Hk. cbn.
    unfold settle_if_in. rewrite bool_decide_eq_true_2 by done.
    by eexists.
  - intros k p Hk Hbatch. rewrite lookup_fmap, Hk. cbn.
    unfold settle_if_in. by rewrite bool_decide_eq_false_2.
  - intros pda Hpda. rewrite Hpda, lookup_insert_eq. by eexists.
Qed.

(** ** Forward moves of a payment's status *)

Lemma record_batch_status e merchant_id s k p :
  store_ok s →
  batch_payments_storage s !! k = Some p →
  ∃ p',
    batch_payments_storage
      (record_batch e merchant_id
         (pending_payments_of merchant_id (batch_payments_storage s)) s)
    !! k = Some p'
    ∧ (p' = p ∨ status_step (pay_status p) (pay_status p')).
Proof.
  intros Hok Hk.
  destruct (record_batch_fields e merchant_id
              (pending_payments_of merchant_id (batch_payments_storage s)) s)
    as (_ & Hp & _).
  rewrite Hp, batch_payments_fmap, lookup_fmap, Hk by apply Hok. cbn.
  eexists. split; [done|]. unfold batch_if_pending, is_pending_of.
  destruct (bool_decide (pay_merchant_id p = merchant_id)); [|by left].
  destruct (bool_decide (pay_status p = "pending")) eqn:Hs; [|by left].
  apply bool_decide_eq_true_1 in Hs. right. cbn. rewrite Hs. constructor.
Qed.

(** [settle_batch] never touches a pending payment; the records it
    rewrites were batched (or already settled under the same batch). *)
Lemma settle_batch_status e batch_id s k p :
  store_ok s →
  batch_payments_storage s !! k = Some p →
  ∃ p',
    batch_payments_storage (settle_batch e batch_id s).2 !! k = Some p'
    ∧ (p' = p
       ∨ pay_status p' = "settled"
         ∧ (pay_status p = "batched" ∨ pay_status p = "settled")).
Proof.
  intros Hok Hk.
  destruct (settle_batch_cases e batch_id s)
    as [->|(batch & Hget & Hstatus & Hpause)]; [by eauto|].
  destruct (random_success e) eqn:Hrand.
  - destruct (settle_batch_success_fields e batch_id s batch)
      as (_ & _ & Hp & _); try done.
    rewrite Hp, lookup_fmap, Hk. cbn. eexists. split; [done|].
    unfold settle_if_in.
    destruct (bool_decide (pay_batch_id p = Some batch_id)) eqn:Hin;
      [|by left].
    apply bool_decide_eq_true_1 in Hin. right. split; [done|].
    destruct (ok_status s Hok k p Hk) as [Hs|[Hs|Hs]]; auto.
    destruct (ok_pending s Hok k p Hk Hs) as [Hnone _]. congruence.
  - destruct (settle_batch_failed_fields e batch_id s batch)
      as (_ & _ & Hp & _); try done.
    rewrite Hp. eauto.
Qed.

(** As long as a new payment does not take the identifier of a stored one,
    a call keeps every stored payment and moves its status forward along
    pending, batched, settled. *)
Lemma payment_status_forward e c s k p :
  store_ok s → amount_is_nat c → payment_id_unused e c s →
  batch_payments_storage s !! k = Some p →
  ∃ p', batch_payments_storage (exec e c s) !! k = Some p'
        ∧ rtc status_step (pay_status p) (pay_status p').
Proof.
  assert (∀ batch_id s k p,
            store_ok s → batch_payments_storage s !! k = Some p →
            ∃ p', batch_payments_storage (settle_batch e batch_id s).2 !! k
                  = Some p'
                  ∧ rtc status_step (pay_status p) (pay_status p')) as Hsettle.
  { clear. intros batch_id s k p Hok Hk.
    destruct (settle_batch_status e batch_id s k p Hok Hk)
      as (p' & Hp' & [Heq|[Hs' [Hs|Hs]]]); exists p'; split; try done.
    - by rewrite Heq.
    - rewrite Hs, Hs'. apply rtc_once. constructor.
    - by rewrite Hs, Hs'. }
  assert (∀ merchant_id s k p,
            store_ok s → batch_payments_storage s !! k = Some p →
            ∃ p', batch_payments_storage
                    (create_batch_for_merchant e merchant_id s).2 !! k
                  = Some p'
                  ∧ rtc status_step (pay_status p) (pay_status p')) as Hcreate.
  { clear -Hsettle. intros merchant_id s k p Hok Hk.
    unfold create_batch_for_merchant.
    destruct (merchant_configs_storage s !! merchant_id) as [config|];
      [|exists p; split; [done|apply rtc_refl]].
    destruct (pending_payments_of merchant_id (batch_payments_storage s))
      as [|q l] eqn:Hl; [exists p; split; [done|apply rtc_refl]|].
    change (length (q :: l) =? 0)%nat with false. cbv iota. cbn [snd].
    rewrite <- Hl.
    destruct (record_batch_status e merchant_id s k p Hok Hk)
      as (p1 & Hp1 & Hstep).
    assert (rtc status_step (pay_status p) (pay_status p1)) as Hrtc
      by (destruct Hstep as [->|Hstep]; [done|by apply rtc_once]).
    destruct (cfg_auto_settle config); [|by exists p1].
    edestruct (Hsettle (new_batch_id e merchant_id)) as (p2 & Hp2 & Hrtc2);
      [|exact Hp1|].
    { apply store_ok_record_batch; [done|]. by rewrite Hl. }
    exists p2. split; [done|]. by etrans. }
  intros Hok Hc Hfresh Hk.
  destruct c as [payment_data|merchant_id|batch_id|merchant_id config_data];
    cbn [exec].
  - cbn in Hc, Hfresh. unfold process_payment.
    assert (batch_payments_storage (ensure_config e payment_data s)
            = batch_payments_storage s) as Hp.
    { unfold ensure_config.
      by destruct (merchant_configs_storage s !! pd_merchant_id payment_data). }
    apply (store_ok_ensure_config e payment_data) in Hok.
    rewrite <- Hp in Hk, Hfresh. clear Hp.
    set (s0 := ensure_config e payment_data s) in *.
    assert (k ≠ new_payment_id e payment_data) as Hne
      by (intros ->; congruence).
    destruct (should_use_escrow (pd_api_key payment_data)); cbn [snd].
    + pose proof (escrow_pda_exists e (pd_merchant_id payment_data) s0) as Hex.
      assert (batch_payments_storage
                (create_or_get_escrow_pda e (pd_merchant_id payment_data) s0).2
              = batch_payments_storage s0) as Hp.
      { unfold create_or_get_escrow_pda.
        by destruct (escrow_pdas_storage s0 !! pd_merchant_id payment_data). }
      apply (store_ok_create_or_get_escrow_pda e (pd_merchant_id payment_data))
        in Hok.
      rewrite <- Hp in Hk. clear Hp.
      set (s1 := (create_or_get_escrow_pda e (pd_merchant_id payment_data)
                    s0).2) in *.
      match goal with
      | |- context [create_batch_for_merchant _ _ ?s2] =>
          assert (store_ok s2 ∧ batch_payments_storage s2 !! k = Some p)
            as [Hok2 Hk2]
      end.
      { split.
        - apply store_ok_insert_payment; try done. left. by split.
        - cbn. by rewrite lookup_insert_ne. }
      destruct (should_create_batch _ _);
        [|exists p; split; [done|apply rtc_refl]].
      by apply Hcreate.
    + exists p. split; [|done]. cbn. by rewrite lookup_insert_ne.
  - by apply Hcreate.
  - by apply Hsettle.
  - exists p. split; [|done]. unfold update_merchant_config.
    by destruct (merchant_configs_storage s !! merchant_id).
Qed.

(** ** Metrics *)

Lemma get_batching_metrics_pure s : (get_batching_metrics s).2 = s.
Proof. done. Qed.

Lemma get_batching_metrics_average s :
  let m := (get_batching_metrics s).1 in
  met_average_batch_size m
  = met_total_volume_batched m `div` Z.max 1 (met_total_batches_processed m).
Proof. done. Qed.

Lemma get_batching_metrics_no_batches s :
  batches_storage s = ∅ →
  met_settlement_success_rate (get_batching_metrics s).1 = 0
  ∧ met_average_batch_size (get_batching_metrics s).1 = 0.
Proof.
  intros Hempty. unfold get_batching_metrics. rewrite Hempty.
  unfold stored_batches, keys. rewrite map_to_list_empty. cbn.
  split; [by vm_compute|done].
Qed.

Lemma reachable_run calls s :
  reachable s → Forall (λ call, amount_is_nat call.2) calls →
  reachable (run calls s).
Proof.
  intros Hs Hcalls. revert s Hs. unfold run.
  induction Hcalls as [|[e c] calls Hc Hcalls IH]; intros s Hs; [done|].
  cbn [foldl]. apply IH. by apply reachable_exec.
Qed.

End Properties.

(** * Further properties

    The helpers and queries of the module, what one call does to the
    records of another merchant, and the history of a batch and of a
    payment over a run. *)

Section Further.

Context {rt : Runtime}.

Implicit Types (e : Env) (s : Store).

(** ** Tier classification *)

Lemma prefix_append (x y : string) : String.prefix x (x +:+ y) = true.
Proof.
  induction x as [|c x IH]; [by destruct y|].
  change (String c x +:+ y) with (String c (x +:+ y)).
  cbn [String.prefix].
  destruct (Ascii.ascii_dec c c) as [_|Hne]; [exact IH|by destruct Hne].
Qed.

Lemma prefix_split (x k : string) :
  String.prefix x k = true → ∃ y, k = x +:+ y.
Proof.
  revert k. induction x as [|c x IH]; intros k Hk; [by exists k|].
  destruct k as [|c' k]; [done|]. cbn in Hk.
  destruct (Ascii.ascii_dec c c') as [<-|]; [|done].
  destruct (IH k Hk) as [y ->]. by exists y.
Qed.

(** X1. The tier of a credential is read off its prefix alone: whatever
    follows ["ouro_enterprise_"] the tier is enterprise, whatever follows
    ["ouro_business_"] it is business, and every other credential, those
    that start with ["ouro_free_"] among them, is free tier.
    [should_use_escrow] holds exactly for the credentials that start with
    one of the first two prefixes, and a credential spelt in another case is
    not one of them. *)
Theorem detect_api_tier_prefix :
  (∀ x, detect_api_tier ("ouro_enterprise_" +:+ x) = enterprise)
  ∧ (∀ x, detect_api_tier ("ouro_business_" +:+ x) = business)
  ∧ (∀ x, detect_api_tier ("ouro_free_" +:+ x) = free)
  ∧ (∀ api_key,
       should_use_escrow api_key = true
       ↔ ∃ x, api_key = "ouro_enterprise_" +:+ x
              ∨ api_key = "ouro_business_" +:+ x)
  ∧ (∀ api_key,
       should_use_escrow api_key = false ↔ detect_api_tier api_key = free)
  ∧ (∀ x, should_use_escrow ("OURO_BUSINESS_" +:+ x) = false).
Proof.
  split; [|split; [|split; [|split; [|split]]]].
  - intros x. unfold detect_api_tier. by rewrite prefix_append.
  - intros x. unfold detect_api_tier.
    by rewrite (prefix_append "ouro_business_").
  - done.
  - intros api_key. unfold should_use_escrow, detect_api_tier. split.
    + destruct (String.prefix "ouro_enterprise_" api_key) eqn:He.
      { intros _. destruct (prefix_split _ _ He) as [x ->]. exists x.
        by left. }
      destruct (String.prefix "ouro_business_" api_key) eqn:Hb; [|done].
      intros _. destruct (prefix_split _ _ Hb) as [x ->]. exists x.
      by right.
    + intros [x [->| ->]].
      * by rewrite prefix_append.
      * by rewrite (prefix_append "ouro_business_").
  - intros api_key. unfold should_use_escrow.
    by destruct (detect_api_tier api_key).
  - done.
Qed.

(** ** Escrow accounts *)

Lemma create_or_get_escrow_pda_other e merchant_id s k :
  k ≠ merchant_id →
  escrow_pdas_storage (create_or_get_escrow_pda e merchant_id s).2 !! k
  = escrow_pdas_storage s !! k.
Proof.
  intros Hk. unfold create_or_get_escrow_pda.
  destruct (escrow_pdas_storage s !! merchant_id); [done|].
  by apply lookup_insert_ne.
Qed.

(** X2. [create_or_get_escrow_pda] returns the account that is stored for
    the merchant afterwards; a second call returns the same account and
    changes nothing; an existing account is returned as it is, with its
    balance; a new one starts active with balance zero and no pending batch;
    the accounts of the other merchants are untouched. *)
Theorem create_or_get_escrow_pda_stable e e' merchant_id s :
  let r := create_or_get_escrow_pda e merchant_id s in
  escrow_pdas_storage r.2 !! merchant_id = Some r.1
  ∧ create_or_get_escrow_pda e' merchant_id r.2 = r
  ∧ (∀ pda, escrow_pdas_storage s !! merchant_id = Some pda → r = (pda, s))
  ∧ (escrow_pdas_storage s !! merchant_id = None →
     pda_total_balance r.1 = 0
     ∧ pda_pending_batches r.1 = 0
     ∧ pda_last_settlement r.1 = None
     ∧ pda_is_active r.1 = true
     ∧ pda_merchant_id r.1 = merchant_id)
  ∧ (∀ k, k ≠ merchant_id →
          escrow_pdas_storage r.2 !! k = escrow_pdas_storage s !! k).
Proof.
  intros r. subst r. unfold create_or_get_escrow_pda.
  destruct (escrow_pdas_storage s !! merchant_id) as [pda|] eqn:Hget.
  - cbn [fst snd]. rewrite Hget. repeat split; try done. by intros ? [= ->].
  - cbn [fst snd insert_pda escrow_pdas_storage].
    rewrite lookup_insert_eq. repeat split; try done.
    intros k Hk. by apply lookup_insert_ne.
Qed.

(** ** The schedule *)

(** X3. [calculate_next_batch_time] renders a time strictly after the
    current one: one hour, one day or one week later for ["hourly"],
    ["daily"] and ["weekly"], and thirty days later for every other
    frequency text, known or not. *)
Theorem calculate_next_batch_time_later e config :
  ∃ delay,
    calculate_next_batch_time e config = pretty (ic_time e + delay)
    ∧ (cfg_batch_frequency config = "hourly" → delay = 3600)
    ∧ (cfg_batch_frequency config = "daily" → delay = 86400)
    ∧ (cfg_batch_frequency config = "weekly" → delay = 604800)
    ∧ (cfg_batch_frequency config ≠ "hourly" →
       cfg_batch_frequency config ≠ "daily" →
       cfg_batch_frequency config ≠ "weekly" → delay = 2592000)
    ∧ 3600 ≤ delay ≤ 2592000
    ∧ calculate_next_batch_time e config ≠ pretty (ic_time e).
Proof.
  unfold calculate_next_batch_time.
  destruct (decide (cfg_batch_frequency config = "hourly")) as [Hh|Hh];
    [rewrite (bool_decide_eq_true_2 _ Hh)
    |rewrite (bool_decide_eq_false_2 _ Hh);
     destruct (decide (cfg_batch_frequency config = "daily")) as [Hd|Hd];
       [rewrite (bool_decide_eq_true_2 _ Hd)
       |rewrite (bool_decide_eq_false_2 _ Hd);
        destruct (decide (cfg_batch_frequency config = "weekly")) as [Hw|Hw];
          [rewrite (bool_decide_eq_true_2 _ Hw)
          |rewrite (bool_decide_eq_false_2 _ Hw)]]];
    eexists; (split; [reflexivity|]);
    repeat split; try congruence; try lia;
    try (intros Heq; apply (inj pretty) in Heq; lia).
Qed.

(** ** Frames *)

Lemma settle_batch_configs e batch_id s :
  merchant_configs_storage (settle_batch e batch_id s).2
  = merchant_configs_storage s
  ∧ settle_config_storage (settle_batch e batch_id s).2
    = settle_config_storage s.
Proof.
  destruct (settle_batch_cases e batch_id s)
    as [->|(batch & Hget & Hstatus & Hpause)]; [done|].
  destruct (random_success e) eqn:Hrand.
  - by destruct (settle_batch_success_fields e batch_id s batch)
      as (_ & Hc & _ & _ & _ & Hsc).
  - by destruct (settle_batch_failed_fields e batch_id s batch)
      as (_ & Hc & _ & _ & _ & Hsc).
Qed.

Lemma create_batch_for_merchant_configs e merchant_id s :
  merchant_configs_storage (create_batch_for_merchant e merchant_id s).2
  = merchant_configs_storage s
  ∧ settle_config_storage (create_batch_for_merchant e merchant_id s).2
    = settle_config_storage s.
Proof.
  unfold create_batch_for_merchant.
  destruct (merchant_configs_storage s !! merchant_id) as [config|]; [|done].
  destruct (length _ =? 0)%nat; [done|]. cbn [snd].
  destruct (record_batch_fields e merchant_id
              (pending_payments_of merchant_id (batch_payments_storage s)) s)
    as (Hc & _ & _ & _ & Hsc).
  destruct (cfg_auto_settle config); [|done].
  destruct (settle_batch_configs e (new_batch_id e merchant_id)
              (record_batch e merchant_id
                 (pending_payments_of merchant_id (batch_payments_storage s))
                 s)) as [Hc' Hsc'].
  by rewrite Hc', Hsc'.
Qed.

Lemma ensure_config_fields e payment_data s :
  batch_payments_storage (ensure_config e payment_data s)
  = batch_payments_storage s
  ∧ batches_storage (ensure_config e payment_data s) = batches_storage s
  ∧ escrow_pdas_storage (ensure_config e payment_data s)
    = escrow_pdas_storage s
  ∧ settle_config_storage (ensure_config e payment_data s)
    = settle_config_storage s.
Proof.
  unfold ensure_config.
  by destruct (merchant_configs_storage s !! pd_merchant_id payment_data).
Qed.

Lemma create_or_get_escrow_pda_fields e merchant_id s :
  merchant_configs_storage (create_or_get_escrow_pda e merchant_id s).2
  = merchant_configs_storage s
  ∧ batch_payments_storage (create_or_get_escrow_pda e merchant_id s).2
    = batch_payments_storage s
  ∧ batches_storage (create_or_get_escrow_pda e merchant_id s).2
    = batches_storage s
  ∧ settle_config_storage (create_or_get_escrow_pda e merchant_id s).2
    = settle_config_storage s.
Proof.
  unfold create_or_get_escrow_pda.
  by destruct (escrow_pdas_storage s !! merchant_id).
Qed.

Lemma process_payment_configs e payment_data s :
  merchant_configs_storage (process_payment e payment_data s).2
  = merchant_configs_storage (ensure_config e payment_data s)
  ∧ settle_config_storage (process_payment e payment_data s).2
    = settle_config_storage s.
Proof.
  unfold process_payment.
  destruct (ensure_config_fields e payment_data s) as (_ & _ & _ & Hsc0).
  destruct (should_use_escrow (pd_api_key payment_data)); cbn [snd];
    [|done].
  destruct (create_or_get_escrow_pda_fields e (pd_merchant_id payment_data)
              (ensure_config e payment_data s)) as (Hc1 & _ & _ & Hsc1).
  destruct (should_create_batch _ _); [|by rewrite <- Hc1, <- Hsc0, <- Hsc1].
  match goal with
  | |- context [create_batch_for_merchant _ _ ?s2] =>
      destruct (create_batch_for_merchant_configs e
                  (pd_merchant_id payment_data) s2) as [Hc2 Hsc2]
  end.
  rewrite Hc2, Hsc2. by rewrite <- Hc1, <- Hsc0, <- Hsc1.
Qed.

(** X5. [process_payment] never rewrites the configuration of a merchant: a
    merchant that has one keeps it as it is, whatever the tier of the
    credential of the new payment; a merchant that has none gets the default
    one, with the tier and the batching flag of this first credential. The
    other merchants' configurations and the settlement configuration are
    untouched. *)
Theorem process_payment_keeps_config e payment_data s :
  let s' := (process_payment e payment_data s).2 in
  let merchant_id := pd_merchant_id payment_data in
  merchant_configs_storage s'
  = match merchant_configs_storage s !! merchant_id with
    | Some _ => merchant_configs_storage s
    | None =>
        <[merchant_id := default_config e payment_data]>
          (merchant_configs_storage s)
    end
  ∧ is_Some ((get_merchant_config merchant_id s').1)
  ∧ (∀ config, merchant_configs_storage s !! merchant_id = Some config →
               (get_merchant_config merchant_id s').1 = Some config)
  ∧ settle_config_storage s' = settle_config_storage s.
Proof.
  intros s' merchant_id.
  destruct (process_payment_configs e payment_data s) as [Hc Hsc].
  fold s' in Hc, Hsc.
  unfold get_merchant_config. cbn [fst]. rewrite Hc, Hsc.
  unfold ensure_config. fold merchant_id.
  destruct (merchant_configs_storage s !! merchant_id) as [config|] eqn:Hget.
  - rewrite Hget. by repeat split.
  - cbn. rewrite lookup_insert_eq. by repeat split.
Qed.

Lemma reachable_settle_config s :
  reachable s →
  settle_config_storage s = {[ "default" := DEFAULT_SETTLE_CONFIG ]}.
Proof.
  induction 1 as [|e c s Hreach IH Hc]; [done|].
  rewrite <- IH. destruct c; cbn [exec].
  - by destruct (process_payment_configs e payment_data s).
  - by destruct (create_batch_for_merchant_configs e merchant_id s).
  - by destruct (settle_batch_configs e batch_id s).
  - unfold update_merchant_config.
    by destruct (merchant_configs_storage s !! merchant_id).
Qed.

Lemma reachable_not_paused s : reachable s → emergency_paused s = false.
Proof.
  intros Hreach. unfold emergency_paused.
  by rewrite (reachable_settle_config s Hreach).
Qed.

(** X11. No call of the agent writes the settlement configuration: in every
    reachable store it is the one [canister_init] stored, so settlement is
    never paused and [settle_batch] on a stored pending batch always goes to
    the connector. *)
Theorem settlement_never_paused s :
  reachable s →
  settle_config_storage s = {[ "default" := DEFAULT_SETTLE_CONFIG ]}
  ∧ emergency_paused s = false
  ∧ (∀ e batch_id batch,
       batches_storage s !! batch_id = Some batch →
       bat_status batch = "pending" →
       (settle_batch e batch_id s).1 = random_success e).
Proof.
  intros Hreach.
  pose proof (reachable_not_paused s Hreach) as Hpause.
  split; [by apply reachable_settle_config|]. split; [done|].
  intros e batch_id batch Hget Hstatus.
  rewrite (settle_batch_accepted e _ _ batch) by done.
  by destruct (random_success e).
Qed.

(** ** Identifiers *)

Lemma occurs_app c (x y : string) :
  occurs c (x +:+ y) = occurs c x || occurs c y.
Proof.
  induction x as [|c' x IH]; [done|].
  change (occurs c (String c' x +:+ y))
    with (bool_decide (c' = c) || occurs c (x +:+ y)).
  rewrite IH. cbn [occurs]. by rewrite orb_assoc.
Qed.

Lemma pretty_N_char_no_underscore (x : N) : pretty_N_char x ≠ "_"%char.
Proof. unfold pretty_N_char. by repeat case_match. Qed.

Lemma pretty_N_go_no_underscore (x : N) (acc : string) :
  occurs "_"%char acc = false → occurs "_"%char (pretty_N_go x acc) = false.
Proof.
  revert acc. induction (N.lt_wf_0 x) as [x _ IH]; intros acc Hacc.
  destruct (decide (0 < x)%N) as [Hpos|Hzero].
  - rewrite pretty_N_go_step by done. apply IH.
    + by apply N.div_lt.
    + cbn. rewrite Hacc, orb_false_r.
      apply bool_decide_eq_false_2, pretty_N_char_no_underscore.
  - assert (x = 0%N) as -> by lia. by rewrite pretty_N_go_0.
Qed.

(** The decimal rendering of an integer has no underscore. *)
Lemma pretty_Z_no_underscore (z : Z) : occurs "_"%char (pretty z) = false.
Proof.
  assert (∀ p : positive, occurs "_"%char (pretty p) = false) as Hpos.
  { intros p. unfold pretty, pretty_positive, pretty, pretty_N.
    case_decide; [done|]. by apply pretty_N_go_no_underscore. }
  destruct z as [|p|p]; [done|apply Hpos|].
  unfold pretty, pretty_Z. rewrite occurs_app, Hpos. done.
Qed.

Lemma append_inj_l (p y y' : string) : p +:+ y = p +:+ y' → y = y'.
Proof.
  induction p as [|c p IH]; intros Heq; [done|].
  change (String c (p +:+ y) = String c (p +:+ y')) in Heq.
  injection Heq as Heq. by apply IH.
Qed.

(** A string is cut in one way only at its last underscore. *)
Lemma cut_at_last_underscore (x x' y y' : string) :
  occurs "_"%char y = false → occurs "_"%char y' = false →
  x +:+ "_" +:+ y = x' +:+ "_" +:+ y' → x = x' ∧ y = y'.
Proof.
  intros Hy Hy'. revert x'.
  induction x as [|c x IH]; intros [|c' x'] Heq.
  - change (String "_" y = String "_" y') in Heq. by injection Heq as ->.
  - change (String "_" y = String c' (x' +:+ String "_" y')) in Heq.
    injection Heq as <- Heq. rewrite Heq, occurs_app in Hy. cbn in Hy.
    by rewrite orb_true_r in Hy.
  - change (String c (x +:+ String "_" y) = String "_" y') in Heq.
    injection Heq as -> Heq. rewrite <- Heq, occurs_app in Hy'. cbn in Hy'.
    by rewrite orb_true_r in Hy'.
  - change (String c (x +:+ "_" +:+ y) = String c' (x' +:+ "_" +:+ y'))
      in Heq.
    injection Heq as -> Heq. by destruct (IH x' Heq) as [-> ->].
Qed.

Lemma new_batch_id_made_inj e e' (m m' : string) :
  new_batch_id e m = new_batch_id e' m' → m = m' ∧ ic_time e = ic_time e'.
Proof.
  unfold new_batch_id. intros Heq. apply append_inj_l in Heq.
  apply cut_at_last_underscore in Heq as [-> Ht];
    [|apply pretty_Z_no_underscore..].
  split; [done|]. by apply (inj pretty).
Qed.

(** X4. Identifiers. Two batch identifiers coincide only for the same
    merchant at the same time; two payment identifiers coincide exactly when
    the calls see the same time and the payloads hash to the same value
    modulo 10000, whoever the merchants are. *)
Theorem identifiers_coincide e e' (m m' : string) (pd pd' : PaymentData) :
  (new_batch_id e m = new_batch_id e' m' → m = m' ∧ ic_time e = ic_time e')
  ∧ (new_payment_id e pd = new_payment_id e' pd'
     ↔ ic_time e = ic_time e'
       ∧ py_hash (str_payment_data pd) `mod` 10000
         = py_hash (str_payment_data pd') `mod` 10000).
Proof.
  split; [apply new_batch_id_made_inj|].
  unfold new_payment_id. split; [|by intros [-> ->]].
  intros Heq. apply append_inj_l in Heq.
  apply cut_at_last_underscore in Heq as [Ht Hh];
    [|apply pretty_Z_no_underscore..].
  split; by apply (inj pretty).
Qed.

(** ** One merchant's calls and another merchant's account *)

Lemma settle_batch_escrow_other e batch_id s m :
  bat_merchant_id <$> batches_storage s !! batch_id ≠ Some m →
  escrow_pdas_storage (settle_batch e batch_id s).2 !! m
  = escrow_pdas_storage s !! m.
Proof.
  intros Hm.
  destruct (settle_batch_cases e batch_id s)
    as [->|(batch & Hget & Hstatus & Hpause)]; [done|].
  rewrite Hget in Hm. cbn in Hm.
  destruct (random_success e) eqn:Hrand.
  - destruct (settle_batch_success_fields e batch_id s batch)
      as (_ & _ & _ & _ & He & _); try done.
    rewrite He. destruct (escrow_pdas_storage s !! bat_merchant_id batch);
      [|done].
    apply lookup_insert_ne. congruence.
  - destruct (settle_batch_failed_fields e batch_id s batch)
      as (_ & _ & _ & _ & He & _); try done.
    by rewrite He.
Qed.

Lemma create_batch_for_merchant_escrow_other e merchant_id s m :
  m ≠ merchant_id →
  escrow_pdas_storage (create_batch_for_merchant e merchant_id s).2 !! m
  = escrow_pdas_storage s !! m.
Proof.
  intros Hm. unfold create_batch_for_merchant.
  destruct (merchant_configs_storage s !! merchant_id) as [config|]; [|done].
  destruct (length _ =? 0)%nat; [done|]. cbn [snd].
  destruct (record_batch_fields e merchant_id
              (pending_payments_of merchant_id (batch_payments_storage s)) s)
    as (_ & _ & Hb & He & _).
  set (s1 := record_batch e merchant_id _ s) in *.
  assert (escrow_pdas_storage s1 !! m = escrow_pdas_storage s !! m) as He1.
  { rewrite He. destruct (escrow_pdas_storage s !! merchant_id); [|done].
    by apply lookup_insert_ne. }
  destruct (cfg_auto_settle config); [|done].
  rewrite settle_batch_escrow_other; [done|].
  rewrite Hb, lookup_insert_eq. cbn. congruence.
Qed.

(** X12. A call made for one merchant leaves the escrow account of every
    other merchant as it is: [process_payment] and
    [create_batch_for_merchant] write only the account of their own
    merchant, [settle_batch] only the account of the merchant of the batch,
    and [update_merchant_config] none. *)
Theorem escrow_account_isolation e c s merchant_id :
  call_merchant c s ≠ Some merchant_id →
  escrow_pdas_storage (exec e c s) !! merchant_id
  = escrow_pdas_storage s !! merchant_id
  ∧ (get_escrow_balance merchant_id (exec e c s)).1
    = (get_escrow_balance merchant_id s).1.
Proof.
  intros Hm.
  assert (escrow_pdas_storage (exec e c s) !! merchant_id
          = escrow_pdas_storage s !! merchant_id) as Heq.
  { destruct c as [payment_data|m|batch_id|m config_data];
      cbn [exec call_merchant] in *.
    - assert (merchant_id ≠ pd_merchant_id payment_data) as Hne by congruence.
      unfold process_payment.
      destruct (ensure_config_fields e payment_data s) as (_ & _ & He0 & _).
      destruct (should_use_escrow (pd_api_key payment_data)); cbn [snd];
        [|cbn; by rewrite He0].
      pose proof (create_or_get_escrow_pda_other e
                    (pd_merchant_id payment_data)
                    (ensure_config e payment_data s) merchant_id Hne) as He1.
      destruct (should_create_batch _ _).
      + rewrite create_batch_for_merchant_escrow_other by done.
        cbn. by rewrite He1, He0.
      + cbn. by rewrite He1, He0.
    - apply create_batch_for_merchant_escrow_other. congruence.
    - by apply settle_batch_escrow_other.
    - unfold update_merchant_config.
      by destruct (merchant_configs_storage s !! m). }
  split; [done|]. unfold get_escrow_balance. rewrite Heq.
  by destruct (escrow_pdas_storage s !! merchant_id).
Qed.

(** ** The history of a batch *)

(** The batch store after [settle_batch]: as before, or with the pending
    batch under [batch_id] replaced by its settled or failed version. *)
Lemma settle_batch_batches e batch_id s :
  batches_storage (settle_batch e batch_id s).2 = batches_storage s
  ∨ ∃ batch b',
      batches_storage s !! batch_id = Some batch
      ∧ batches_storage (settle_batch e batch_id s).2
        = <[batch_id := b']> (batches_storage s)
      ∧ same_batch_content batch b'
      ∧ bat_status batch = "pending"
      ∧ (bat_status b' = "settled" ∨ bat_status b' = "failed").
Proof.
  destruct (settle_batch_cases e batch_id s)
    as [->|(batch & Hget & Hstatus & Hpause)]; [by left|].
  right. exists batch. destruct (random_success e) eqn:Hrand.
  - destruct (settle_batch_success_fields e batch_id s batch)
      as (_ & _ & _ & Hb & _); try done.
    exists (final_batch e batch_id batch). repeat split; try done. by left.
  - destruct (settle_batch_failed_fields e batch_id s batch)
      as (_ & _ & _ & Hb & _); try done.
    exists (failed_batch batch). repeat split; try done. by right.
Qed.

(** The batch store after [create_batch_for_merchant]: as before, or with
    one batch of the merchant stored under the new identifier. *)
Lemma create_batch_for_merchant_batches e merchant_id s :
  batches_storage (create_batch_for_merchant e merchant_id s).2
  = batches_storage s
  ∨ ∃ b',
      batches_storage (create_batch_for_merchant e merchant_id s).2
      = <[new_batch_id e merchant_id := b']> (batches_storage s)
      ∧ bat_merchant_id b' = merchant_id
      ∧ bat_batch_id b' = new_batch_id e merchant_id.
Proof.
  unfold create_batch_for_merchant.
  destruct (merchant_configs_storage s !! merchant_id) as [config|];
    [|by left].
  destruct (length _ =? 0)%nat; [by left|]. cbn [snd]. right.
  destruct (record_batch_fields e merchant_id
              (pending_payments_of merchant_id (batch_payments_storage s)) s)
    as (_ & _ & Hb & _).
  set (l := pending_payments_of merchant_id (batch_payments_storage s)) in *.
  set (s1 := record_batch e merchant_id l s) in *.
  destruct (cfg_auto_settle config); [|by exists (new_batch e merchant_id l)].
  destruct (settle_batch_batches e (new_batch_id e merchant_id) s1)
    as [->|(batch & b' & Hget & -> & Hsame & _)].
  - by exists (new_batch e merchant_id l).
  - rewrite Hb, lookup_insert_eq in Hget. injection Hget as <-.
    exists b'. rewrite Hb, insert_insert_eq.
    destruct Hsame as (Hid & Hm & _). by rewrite Hid, Hm.
Qed.

Lemma process_payment_batches e payment_data s :
  let merchant_id := pd_merchant_id payment_data in
  batches_storage (process_payment e payment_data s).2 = batches_storage s
  ∨ ∃ b',
      batches_storage (process_payment e payment_data s).2
      = <[new_batch_id e merchant_id := b']> (batches_storage s)
      ∧ bat_merchant_id b' = merchant_id
      ∧ bat_batch_id b' = new_batch_id e merchant_id.
Proof.
  intros merchant_id. subst merchant_id. unfold process_payment.
  destruct (ensure_config_fields e payment_data s) as (_ & Hb0 & _).
  destruct (should_use_escrow (pd_api_key payment_data)); cbn [snd];
    [|by left].
  destruct (create_or_get_escrow_pda_fields e (pd_merchant_id payment_data)
              (ensure_config e payment_data s)) as (_ & _ & Hb1 & _).
  destruct (should_create_batch _ _); [|left; cbn; by rewrite Hb1].
  match goal with
  | |- context [create_batch_for_merchant _ _ ?s2] =>
      destruct (create_batch_for_merchant_batches e
                  (pd_merchant_id payment_data) s2) as [->|(b' & -> & Hb')];
      assert (batches_storage s2 = batches_storage s) as ->
        by (cbn; by rewrite Hb1)
  end.
  - by left.
  - right. by exists b'.
Qed.

(** [creates_batch] and [stores_batch] are exact: a call for which
    [stores_batch] holds inserts a batch under the identifier made for its
    merchant, and any other call than [settle_batch] for which it fails
    leaves the batch store as it is. *)
Lemma create_batch_for_merchant_stores e merchant_id s :
  if creates_batch merchant_id s
  then ∃ b',
         batches_storage (create_batch_for_merchant e merchant_id s).2
         = <[new_batch_id e merchant_id := b']> (batches_storage s)
  else (create_batch_for_merchant e merchant_id s).2 = s.
Proof.
  unfold create_batch_for_merchant, creates_batch.
  destruct (merchant_configs_storage s !! merchant_id) as [config|]; [|done].
  destruct (length _ =? 0)%nat; [done|]. cbn [snd negb].
  destruct (record_batch_fields e merchant_id
              (pending_payments_of merchant_id (batch_payments_storage s)) s)
    as (_ & _ & Hb & _).
  set (l := pending_payments_of merchant_id (batch_payments_storage s)) in *.
  set (s1 := record_batch e merchant_id l s) in *.
  destruct (cfg_auto_settle config); [|by exists (new_batch e merchant_id l)].
  destruct (settle_batch_batches e (new_batch_id e merchant_id) s1)
    as [->|(batch & b' & Hget & -> & _)].
  - by exists (new_batch e merchant_id l).
  - exists b'. by rewrite Hb, insert_insert_eq.
Qed.

Lemma stores_batch_exact e c s :
  if stores_batch e c s
  then ∃ merchant_id b',
         call_merchant c s = Some merchant_id
         ∧ batches_storage (exec e c s)
           = <[new_batch_id e merchant_id := b']> (batches_storage s)
  else (∀ batch_id, c ≠ SettleBatch batch_id) →
       batches_storage (exec e c s) = batches_storage s.
Proof.
  destruct c as [payment_data|m|batch_id|m config_data];
    cbn [stores_batch exec call_merchant].
  - unfold escrow_intake, process_payment. cbv zeta.
    destruct (ensure_config_fields e payment_data s) as (_ & Hb0 & _).
    destruct (should_use_escrow (pd_api_key payment_data)); cbn [snd andb];
      [|done].
    destruct (create_or_get_escrow_pda_fields e (pd_merchant_id payment_data)
                (ensure_config e payment_data s)) as (_ & _ & Hb1 & _).
    match goal with
    | |- context [create_batch_for_merchant _ _ ?s2] =>
        pose proof (create_batch_for_merchant_stores e
                      (pd_merchant_id payment_data) s2) as Hstores;
        assert (batches_storage s2 = batches_storage s) as Hb2
          by (cbn; by rewrite Hb1);
        destruct (should_create_batch (pd_merchant_id payment_data) s2);
          [|by intros _];
        destruct (creates_batch (pd_merchant_id payment_data) s2)
    end; cbn [andb].
    + destruct Hstores as [b' Hb']. exists (pd_merchant_id payment_data), b'.
      split; [done|]. by rewrite Hb', Hb2.
    + intros _. by rewrite Hstores.
  - pose proof (create_batch_for_merchant_stores e m s) as Hstores.
    destruct (creates_batch m s).
    + destruct Hstores as [b' Hb']. by exists m, b'.
    + intros _. by rewrite Hstores.
  - intros Hc. by destruct (Hc batch_id).
  - intros _. unfold update_merchant_config.
    by destruct (merchant_configs_storage s !! m).
Qed.


(** ** Batches of different merchants *)

Lemma batch_keys_made_insert (batches : gmap string Batch) e m b :
  batch_keys_made batches → bat_merchant_id b = m →
  batch_keys_made (<[new_batch_id e m := b]> batches).
Proof.
  intros Hmade Hm k b'. rewrite lookup_insert.
  destruct (decide (new_batch_id e m = k)) as [<-|]; [|by apply Hmade].
  intros [= <-]. exists (ic_time e). by rewrite Hm.
Qed.

Lemma reachable_batch_keys_made s :
  reachable s → batch_keys_made (batches_storage s).
Proof.
  induction 1 as [|e c s Hreach IH Hc]; [by intros k b|].
  destruct c as [payment_data|m|batch_id|m config_data]; cbn [exec].
  - destruct (process_payment_batches e payment_data s)
      as [->|(b' & -> & Hm & _)]; [done|].
    by apply batch_keys_made_insert.
  - destruct (create_batch_for_merchant_batches e m s)
      as [->|(b' & -> & Hm & _)]; [done|].
    by apply batch_keys_made_insert.
  - destruct (settle_batch_batches e batch_id s)
      as [->|(batch & b' & Hget & -> & Hsame & _)]; [done|].
    intros k b. rewrite lookup_insert.
    destruct (decide (batch_id = k)) as [<-|]; [|by apply IH].
    intros [= <-]. destruct (IH _ _ Hget) as [t Ht]. exists t.
    destruct Hsame as (_ & -> & _). done.
  - unfold update_merchant_config.
    by destruct (merchant_configs_storage s !! m).
Qed.

(** X14. In a reachable store every batch is stored under the identifier
    made of its own merchant and a time, and identifiers made for different
    merchants differ; so a call made for one merchant never touches a batch
    of another merchant. *)
Theorem batch_isolation e c s k b :
  reachable s →
  batches_storage s !! k = Some b →
  call_merchant c s ≠ Some (bat_merchant_id b) →
  batches_storage (exec e c s) !! k = Some b.
Proof.
  intros Hreach Hk Hm.
  destruct (reachable_batch_keys_made s Hreach k b Hk) as [t Ht].
  assert (∀ m, m ≠ bat_merchant_id b → new_batch_id e m ≠ k) as Hne.
  { intros m Hmne Heq. apply Hmne. rewrite Ht in Heq.
    by apply (new_batch_id_made_inj e
                {| ic_time := t; random_success := true; random_gas := 0 |})
      in Heq as [? _]. }
  destruct c as [payment_data|m|batch_id|m config_data];
    cbn [exec call_merchant] in *.
  - destruct (process_payment_batches e payment_data s)
      as [->|(b' & -> & _)]; [done|].
    rewrite lookup_insert_ne; [done|]. apply Hne. congruence.
  - destruct (create_batch_for_merchant_batches e m s)
      as [->|(b' & -> & _)]; [done|].
    rewrite lookup_insert_ne; [done|]. apply Hne. congruence.
  - destruct (settle_batch_batches e batch_id s)
      as [->|(batch & b' & Hget & -> & _)]; [done|].
    rewrite lookup_insert_ne; [done|]. intros ->.
    rewrite Hk in Hm. by cbn in Hm.
  - unfold update_merchant_config.
    by destruct (merchant_configs_storage s !! m).
Qed.

(** ** A merchant whose batching is disabled *)

(** X7. When the stored configuration of the merchant has batching disabled,
    as it is for a merchant first seen with a free-tier credential, a
    payment with a business or enterprise credential is put in escrow as
    pending and [process_payment] never batches it, whatever the amount: no
    batch is stored, no configuration and no balance changes. *)
Theorem process_payment_batching_disabled e payment_data s config :
  merchant_configs_storage s !! pd_merchant_id payment_data = Some config →
  cfg_batching_enabled config = false →
  should_use_escrow (pd_api_key payment_data) = true →
  let merchant_id := pd_merchant_id payment_data in
  let payment_id := new_payment_id e payment_data in
  let r := process_payment e payment_data s in
  r = ("escrow_batched_" +:+ payment_id,
       insert_payment payment_id (escrow_payment e payment_data)
         (create_or_get_escrow_pda e merchant_id s).2)
  ∧ batches_storage r.2 = batches_storage s
  ∧ merchant_configs_storage r.2 = merchant_configs_storage s
  ∧ (pay_status <$> batch_payments_storage r.2 !! payment_id) = Some "pending"
  ∧ (get_escrow_balance merchant_id r.2).1
    = (get_escrow_balance merchant_id s).1.
Proof.
  intros Hconfig Hdisabled Hescrow merchant_id payment_id r.
  destruct (create_or_get_escrow_pda_fields e merchant_id s)
    as (Hc & _ & Hb & _).
  assert (r = ("escrow_batched_" +:+ payment_id,
               insert_payment payment_id (escrow_payment e payment_data)
                 (create_or_get_escrow_pda e merchant_id s).2)) as Hr.
  { subst r merchant_id payment_id. unfold process_payment. cbv zeta.
    rewrite Hescrow.
    assert (ensure_config e payment_data s = s) as ->
      by (unfold ensure_config; by rewrite Hconfig).
    assert (should_create_batch (pd_merchant_id payment_data)
              (insert_payment (new_payment_id e payment_data)
                 (escrow_payment e payment_data)
                 (create_or_get_escrow_pda e (pd_merchant_id payment_data)
                    s).2) = false) as ->; [|done].
    unfold should_create_batch.
    cbn [insert_payment merchant_configs_storage].
    by rewrite Hc, Hconfig, Hdisabled. }
  rewrite Hr. cbn [snd].
  split; [done|]. split; [done|]. split; [done|].
  split; [cbn; by rewrite lookup_insert_eq|].
  unfold get_escrow_balance, create_or_get_escrow_pda. cbn.
  destruct (escrow_pdas_storage s !! merchant_id) as [pda|] eqn:Hpda; cbn.
  - by rewrite Hpda.
  - by rewrite lookup_insert_eq.
Qed.

(** ** The results of [create_batch_for_merchant] *)

Lemma elem_of_get_merchant_batches merchant_id s b :
  b ∈ (get_merchant_batches merchant_id s).1
  ↔ (∃ k, batches_storage s !! k = Some b) ∧ bat_merchant_id b = merchant_id.
Proof.
  unfold get_merchant_batches. cbn [fst].
  rewrite (omap_keys _ _
             (λ batch, if bool_decide (bat_merchant_id batch = merchant_id)
                       then Some batch else None))
    by (intros k v Hk; by rewrite Hk).
  rewrite list_elem_of_omap. split.
  - intros (b' & Hin & Hkeep). apply elem_of_values in Hin.
    destruct (bool_decide (bat_merchant_id b' = merchant_id)) eqn:Hm;
      [|done].
    injection Hkeep as <-. by apply bool_decide_eq_true_1 in Hm.
  - intros (Hin & Hm). exists b. split; [by apply elem_of_values|].
    by rewrite bool_decide_eq_true_2.
Qed.

(** X8. [create_batch_for_merchant] answers ["merchant_not_found"] and
    changes nothing when the merchant has no configuration, answers
    ["no_pending_payments"] and changes nothing when it has one but no
    pending payment, and otherwise answers the identifier of the new batch,
    which is neither of the two messages; the batch is then stored under
    that identifier and [get_merchant_batches] lists it. *)
Theorem create_batch_for_merchant_result e merchant_id s :
  let r := create_batch_for_merchant e merchant_id s in
  let pending := pending_payments_of merchant_id (batch_payments_storage s) in
  (merchant_configs_storage s !! merchant_id = None →
   r = ("merchant_not_found", s))
  ∧ (is_Some (merchant_configs_storage s !! merchant_id) → pending = [] →
     r = ("no_pending_payments", s))
  ∧ (is_Some (merchant_configs_storage s !! merchant_id) → pending ≠ [] →
     r.1 = new_batch_id e merchant_id
     ∧ r.1 ≠ "merchant_not_found"
     ∧ r.1 ≠ "no_pending_payments"
     ∧ ∃ b, batches_storage r.2 !! r.1 = Some b
            ∧ bat_batch_id b = r.1
            ∧ bat_merchant_id b = merchant_id
            ∧ bat_total_amount b = sum_amounts pending
            ∧ bat_payment_count b = Z.of_nat (length pending)
            ∧ b ∈ (get_merchant_batches merchant_id r.2).1).
Proof.
  intros r pending. subst r. split; [|split].
  - intros Hnone. unfold create_batch_for_merchant. by rewrite Hnone.
  - intros [config Hconfig] Hnil. unfold create_batch_for_merchant.
    rewrite Hconfig. fold pending. by rewrite Hnil.
  - intros [config Hconfig] Hne.
    assert ((create_batch_for_merchant e merchant_id s).1
            = new_batch_id e merchant_id) as Hr.
    { unfold create_batch_for_merchant. rewrite Hconfig. fold pending.
      destruct pending; [done|]. done. }
    rewrite Hr. split; [done|]. split; [done|]. split; [done|].
    assert (∃ b,
              batches_storage (create_batch_for_merchant e merchant_id s).2
              !! new_batch_id e merchant_id = Some b
              ∧ same_batch_content (new_batch e merchant_id pending) b)
      as (b & Hb & Hsame).
    { unfold create_batch_for_merchant. rewrite Hconfig. fold pending.
      destruct pending as [|p l] eqn:Hl; [done|].
      change (length (p :: l) =? 0)%nat with false. cbv iota. cbn [snd].
      destruct (record_batch_fields e merchant_id (p :: l) s)
        as (_ & _ & Hb & _).
      set (s1 := record_batch e merchant_id (p :: l) s) in *.
      assert (batches_storage s1 !! new_batch_id e merchant_id
              = Some (new_batch e merchant_id (p :: l))) as Hnew
        by (rewrite Hb; apply lookup_insert_eq).
      destruct (cfg_auto_settle config); [|by eexists].
      destruct (settle_batch_batches e (new_batch_id e merchant_id) s1)
        as [->|(batch & b' & Hget & -> & Hsame & _)]; [by eexists|].
      assert (batch = new_batch e merchant_id (p :: l)) as -> by congruence.
      exists b'. split; [apply lookup_insert_eq|done]. }
    destruct Hsame as (Hid & Hm & Htotal & Hcount & _).
    exists b. split; [done|]. split; [done|]. split; [done|].
    split; [done|]. split; [done|].
    apply elem_of_get_merchant_batches. split; [by eexists|done].
Qed.

(** ** Queries *)

Lemma total_where_foldr P (batches : gmap string Batch) :
  total_where P batches
  = sum_totals (filter (λ b, P b) (values batches)).
Proof.
  unfold total_where, values. rewrite map_fold_foldr.
  induction (map_to_list batches) as [|[k b] l IH]; [done|].
  cbn [foldr uncurry fmap list_fmap]. rewrite filter_cons, IH.
  unfold share. cbn [snd]. destruct (P b) eqn:HP.
  - by rewrite decide_True by done.
  - rewrite decide_False by (by intros []). lia.
Qed.

Lemma get_merchant_batches_values merchant_id s :
  (get_merchant_batches merchant_id s).1
  = filter (λ b, bat_merchant_id b = merchant_id) (values (batches_storage s)).
Proof.
  unfold get_merchant_batches. cbn [fst].
  rewrite (omap_keys _ _
             (λ batch, if bool_decide (bat_merchant_id batch = merchant_id)
                       then Some batch else None))
    by (intros k v Hk; by rewrite Hk).
  induction (values (batches_storage s)) as [|b l IH]; [done|].
  cbn [omap list_omap]. rewrite filter_cons, IH.
  destruct (decide (bat_merchant_id b = merchant_id)) as [Hm|Hm].
  - by rewrite bool_decide_eq_true_2.
  - by rewrite bool_decide_eq_false_2.
Qed.

(** X18. The three queries change nothing. For a merchant without an escrow
    account [get_escrow_balance] answers zero; in a reachable store the
    answer is never negative; and in runs that use no batch identifier twice
    it is, for every merchant identifier, the sum of [total_amount] over the
    batches that [get_merchant_batches] lists for the merchant and that are
    not settled. *)
Theorem queries_agree merchant_id s :
  (get_merchant_config merchant_id s).2 = s
  ∧ (get_merchant_batches merchant_id s).2 = s
  ∧ (get_escrow_balance merchant_id s).2 = s
  ∧ (escrow_pdas_storage s !! merchant_id = None →
     (get_escrow_balance merchant_id s).1 = 0)
  ∧ (reachable s → 0 ≤ (get_escrow_balance merchant_id s).1)
  ∧ (reachable_fresh s →
     (get_escrow_balance merchant_id s).1
     = sum_totals
         (filter (λ b, bat_status b ≠ "settled")
            (get_merchant_batches merchant_id s).1)).
Proof.
  split; [done|]. split; [done|].
  split; [unfold get_escrow_balance;
          by destruct (escrow_pdas_storage s !! merchant_id)|].
  split; [by unfold get_escrow_balance; intros ->|].
  split.
  - intros Hreach. unfold get_escrow_balance.
    destruct (escrow_pdas_storage s !! merchant_id) as [pda|] eqn:Hpda;
      [|done].
    cbn. by eapply ok_balance; [apply reachable_store_ok|].
  - intros Hfresh.
    pose proof (reachable_store_ok s (reachable_fresh_reachable s Hfresh))
      as Hok.
    assert ((get_escrow_balance merchant_id s).1
            = total_where (is_unsettled_of merchant_id) (batches_storage s))
      as ->.
    { unfold get_escrow_balance.
      destruct (escrow_pdas_storage s !! merchant_id) as [pda|] eqn:Hpda.
      - by apply reachable_fresh_balance_ok.
      - cbn. symmetry. apply total_where_zero. intros k b Hb.
        unfold is_unsettled_of.
        destruct (bool_decide (bat_merchant_id b = merchant_id)) eqn:Hm;
          [|done].
        apply bool_decide_eq_true_1 in Hm.
        destruct (ok_batch_pda s Hok k b Hb) as [pda' Hpda']. congruence. }
    rewrite total_where_foldr, get_merchant_batches_values.
    f_equal. induction (values (batches_storage s)) as [|b l IH]; [done|].
    unfold is_unsettled_of in *.
    destruct (decide (bat_merchant_id b = merchant_id)) as [Hm|Hm];
      destruct (decide (bat_status b = "settled")) as [Hs|Hs].
    + rewrite filter_cons_False
        by (rewrite (bool_decide_eq_true_2 _ Hm), (bool_decide_eq_true_2 _ Hs);
            by intros []).
      rewrite (filter_cons_True (λ b, bat_merchant_id b = merchant_id))
        by done.
      by rewrite filter_cons_False by (by intros []).
    + rewrite filter_cons_True
        by (by rewrite (bool_decide_eq_true_2 _ Hm),
                       (bool_decide_eq_false_2 _ Hs)).
      rewrite (filter_cons_True (λ b, bat_merchant_id b = merchant_id))
        by done.
      rewrite filter_cons_True by done. by rewrite IH.
    + rewrite filter_cons_False
        by (rewrite (bool_decide_eq_false_2 _ Hm); by intros []).
      by rewrite (filter_cons_False (λ b, bat_merchant_id b = merchant_id))
        by done.
    + rewrite filter_cons_False
        by (rewrite (bool_decide_eq_false_2 _ Hm); by intros []).
      by rewrite (filter_cons_False (λ b, bat_merchant_id b = merchant_id))
        by done.
Qed.

(** ** The total of a batch and its payments *)

Lemma sum_members_fmap k (f : BatchPayment → BatchPayment)
    (l : list BatchPayment) :
  (∀ p, p ∈ l →
        (pay_batch_id (f p) = Some k ↔ pay_batch_id p = Some k)
        ∧ pay_amount (f p) = pay_amount p) →
  sum_amounts (filter (λ p, pay_batch_id p = Some k) (f <$> l))
  = sum_amounts (filter (λ p, pay_batch_id p = Some k) l).
Proof.
  induction l as [|p l IH]; intros Hl; [done|].
  destruct (Hl p) as [Hiff Hamount]; [left|].
  assert (sum_amounts (filter (λ p, pay_batch_id p = Some k) (f <$> l))
          = sum_amounts (filter (λ p, pay_batch_id p = Some k) l)) as IH'
    by (apply IH; intros q Hq; apply Hl; by right).
  rewrite fmap_cons.
  destruct (decide (pay_batch_id p = Some k)) as [Hin|Hout].
  - rewrite !filter_cons_True by (done || by apply Hiff).
    cbn. unfold sum_amounts in IH'. by rewrite IH', Hamount.
  - rewrite !filter_cons_False by (done || by rewrite Hiff). done.
Qed.

Lemma batch_members_fmap_sum k (f : BatchPayment → BatchPayment)
    (payments : gmap string BatchPayment) :
  (∀ j p, payments !! j = Some p →
          (pay_batch_id (f p) = Some k ↔ pay_batch_id p = Some k)
          ∧ pay_amount (f p) = pay_amount p) →
  sum_amounts (batch_members k (f <$> payments))
  = sum_amounts (batch_members k payments).
Proof.
  intros Hf. unfold batch_members.
  rewrite (sum_amounts_perm _ _
             (filter_Permutation _ _ _ (values_fmap _ _))).
  apply sum_members_fmap. intros p Hp.
  apply elem_of_values in Hp as [j Hj]. by apply (Hf j).
Qed.

Lemma batch_members_insert_sum k pid p
    (payments : gmap string BatchPayment) :
  payments !! pid = None → pay_batch_id p ≠ Some k →
  sum_amounts (batch_members k (<[pid := p]> payments))
  = sum_amounts (batch_members k payments).
Proof.
  intros Hfresh Hp. unfold batch_members.
  assert (values (<[pid := p]> payments) ≡ₚ p :: values payments) as Hperm.
  { unfold values. by rewrite map_to_list_insert. }
  rewrite (sum_amounts_perm _ _ (filter_Permutation _ _ _ Hperm)).
  by rewrite filter_cons_False.
Qed.

Lemma totals_ok_settle_batch e batch_id s :
  totals_ok s → totals_ok (settle_batch e batch_id s).2.
Proof.
  intros Htotals.
  destruct (settle_batch_cases e batch_id s)
    as [->|(batch & Hget & Hstatus & Hpause)]; [done|].
  destruct (random_success e) eqn:Hrand.
  - destruct (settle_batch_success_fields e batch_id s batch)
      as (_ & _ & Hp & Hb & _); try done.
    intros k b. rewrite Hb, Hp, batch_members_fmap_sum.
    + rewrite lookup_insert.
      destruct (decide (batch_id = k)) as [<-|]; [|by apply Htotals].
      intros [= <-]. cbn [final_batch bat_total_amount]. by apply Htotals.
    + intros j p _. unfold settle_if_in. by destruct (bool_decide _).
  - destruct (settle_batch_failed_fields e batch_id s batch)
      as (_ & _ & Hp & Hb & _); try done.
    intros k b. rewrite Hb, Hp, lookup_insert.
    destruct (decide (batch_id = k)) as [<-|]; [|by apply Htotals].
    intros [= <-]. cbn [failed_batch bat_total_amount]. by apply Htotals.
Qed.

Lemma totals_ok_record_batch e merchant_id s :
  store_ok s → totals_ok s →
  batches_storage s !! new_batch_id e merchant_id = None →
  totals_ok
    (record_batch e merchant_id
       (pending_payments_of merchant_id (batch_payments_storage s)) s).
Proof.
  intros Hok Htotals Hunused.
  destruct (record_batch_fields e merchant_id
              (pending_payments_of merchant_id (batch_payments_storage s)) s)
    as (_ & Hp & Hb & _).
  rewrite batch_payments_fmap in Hp by apply Hok.
  intros k b. rewrite Hb, Hp, lookup_insert.
  destruct (decide (new_batch_id e merchant_id = k)) as [<-|Hne].
  - intros [= <-]. cbn [new_batch bat_total_amount]. unfold batch_members.
    rewrite (sum_amounts_perm _ _
               (filter_Permutation _ _ _ (values_fmap _ _))).
    rewrite sum_members_after_batching.
    + by rewrite pending_payments_of_values.
    + intros p Hin Hbatch. apply elem_of_values in Hin as [j Hj].
      destruct (ok_batch_ref s Hok j p _ Hj Hbatch) as [b Hsome]. congruence.
  - intros Hk. rewrite batch_members_fmap_sum; [by apply Htotals|].
    intros j p Hj. unfold batch_if_pending.
    destruct (is_pending_of merchant_id p) eqn:Hpend; [|done].
    split; [|done]. cbn.
    unfold is_pending_of in Hpend. apply andb_prop in Hpend as [_ Hs].
    apply bool_decide_eq_true_1 in Hs.
    destruct (ok_pending s Hok j p Hj Hs) as [Hnone _]. rewrite Hnone.
    split; [intros [= ?]; congruence|done].
Qed.

Lemma totals_ok_create_batch_for_merchant e merchant_id s :
  store_ok s → totals_ok s →
  (creates_batch merchant_id s = true →
   batches_storage s !! new_batch_id e merchant_id = None) →
  totals_ok (create_batch_for_merchant e merchant_id s).2.
Proof.
  intros Hok Htotals. unfold create_batch_for_merchant, creates_batch.
  destruct (merchant_configs_storage s !! merchant_id) as [config|]; [|done].
  destruct (length _ =? 0)%nat; [done|]. cbn [snd negb].
  intros Hunused. specialize (Hunused eq_refl).
  pose proof (totals_ok_record_batch e merchant_id s Hok Htotals Hunused).
  destruct (cfg_auto_settle config); [|done].
  by apply totals_ok_settle_batch.
Qed.

Lemma totals_ok_process_payment e payment_data s :
  store_ok s → totals_ok s → 0 ≤ pd_amount payment_data →
  batch_id_not_reused e (ProcessPayment payment_data) s →
  batch_payments_storage s !! new_payment_id e payment_data = None →
  totals_ok (process_payment e payment_data s).2.
Proof.
  intros Hok Htotals Hamount Hbunused Hpunused.
  unfold batch_id_not_reused, stores_batch, escrow_intake, batch_id_unused
    in Hbunused.
  cbv zeta in Hbunused. unfold process_payment.
  destruct (ensure_config_fields e payment_data s) as (Hp0 & Hb0 & _).
  apply (store_ok_ensure_config e payment_data) in Hok.
  set (s0 := ensure_config e payment_data s) in *.
  assert (∀ s1 p,
            batch_payments_storage s1 = batch_payments_storage s →
            batches_storage s1 = batches_storage s →
            pay_batch_id p = None →
            totals_ok (insert_payment (new_payment_id e payment_data) p s1))
    as Hinsert.
  { intros s1 p Hp1 Hb1 Hnone k b. cbn. rewrite Hp1, Hb1. intros Hk.
    rewrite batch_members_insert_sum by (done || by rewrite Hnone).
    by apply Htotals. }
  destruct (should_use_escrow (pd_api_key payment_data)); cbn [snd];
    [|by apply Hinsert].
  cbn [andb] in Hbunused.
  destruct (create_or_get_escrow_pda_fields e (pd_merchant_id payment_data) s0)
    as (_ & Hp1 & Hb1 & _).
  pose proof (escrow_pda_exists e (pd_merchant_id payment_data) s0) as Hex.
  apply (store_ok_create_or_get_escrow_pda e (pd_merchant_id payment_data))
    in Hok.
  set (s1 := (create_or_get_escrow_pda e (pd_merchant_id payment_data) s0).2)
    in *.
  match goal with
  | |- context [create_batch_for_merchant _ _ ?s2] =>
      assert (store_ok s2 ∧ totals_ok s2) as [Hok2 Htotals2]
  end.
  { split.
    - apply store_ok_insert_payment; try done. left. by split.
    - apply Hinsert; [by rewrite Hp1, Hp0|by rewrite Hb1, Hb0|done]. }
  destruct (should_create_batch _ _); [|done].
  apply totals_ok_create_batch_for_merchant; [done..|].
  intros Hcreates. cbn. rewrite Hb1, Hb0. by apply Hbunused.
Qed.

Lemma reachable_unique_reachable s : reachable_unique s → reachable s.
Proof. induction 1; [constructor|by constructor]. Qed.

Lemma reachable_unique_fresh s : reachable_unique s → reachable_fresh s.
Proof. induction 1; [constructor|by constructor]. Qed.

(** X16. In runs that use no batch identifier and no payment identifier
    twice, the total of every stored batch is the sum of the amounts of the
    stored payments whose [batch_id] is the key of the batch; this holds
    after creation and stays true through settlement, successful or not. *)
Theorem batch_totals_invariant s :
  reachable_unique s →
  ∀ k b, batches_storage s !! k = Some b →
         bat_batch_id b = k
         ∧ bat_total_amount b
           = sum_amounts (batch_members k (batch_payments_storage s)).
Proof.
  intros Hreach.
  assert (totals_ok s) as Htotals.
  { induction Hreach as [|e c s Hreach IH Hc Hb Hp]; [by intros k b|].
    pose proof (reachable_store_ok s (reachable_unique_reachable s Hreach))
      as Hok.
    destruct c as [payment_data|m|batch_id|m config_data]; cbn [exec].
    - by apply totals_ok_process_payment.
    - by apply totals_ok_create_batch_for_merchant.
    - by apply totals_ok_settle_batch.
    - unfold update_merchant_config.
      by destruct (merchant_configs_storage s !! m). }
  intros k b Hk. split; [|by apply Htotals].
  by eapply ok_batch_keys;
    [apply reachable_store_ok, reachable_unique_reachable|].
Qed.

(** ** Creation followed by automatic settlement *)

(** X9. With [auto_settle] set, as it is by default, and a connector that
    succeeds, one call of [create_batch_for_merchant] on a reachable store
    takes the merchant's pending payments all the way: the new batch is
    stored settled, every payment that was pending is settled and carries
    the identifier of the batch, and every escrow balance is what it was
    before the call. *)
Theorem create_batch_for_merchant_auto_settled e merchant_id s config :
  reachable s →
  merchant_configs_storage s !! merchant_id = Some config →
  cfg_auto_settle config = true →
  random_success e = true →
  pending_payments_of merchant_id (batch_payments_storage s) ≠ [] →
  let r := create_batch_for_merchant e merchant_id s in
  r.1 = new_batch_id e merchant_id
  ∧ (bat_status <$> batches_storage r.2 !! r.1) = Some "settled"
  ∧ (∀ p, p ∈ pending_payments_of merchant_id (batch_payments_storage s) →
          ∃ p', batch_payments_storage r.2 !! pay_payment_id p = Some p'
                ∧ pay_status p' = "settled"
                ∧ pay_batch_id p' = Some r.1
                ∧ pay_amount p' = pay_amount p)
  ∧ (∀ m, pda_total_balance <$> escrow_pdas_storage r.2 !! m
          = pda_total_balance <$> escrow_pdas_storage s !! m).
Proof.
  intros Hreach Hconfig Hauto Hrand Hne r.
  pose proof (reachable_store_ok s Hreach) as Hok.
  pose proof (reachable_not_paused s Hreach) as Hpause.
  destruct (record_batch_fields e merchant_id
              (pending_payments_of merchant_id (batch_payments_storage s)) s)
    as (_ & Hp & Hb & He & Hsc).
  rewrite batch_payments_fmap in Hp by apply Hok.
  set (pending := pending_payments_of merchant_id (batch_payments_storage s))
    in *.
  set (s1 := record_batch e merchant_id pending s) in *.
  assert (r = (new_batch_id e merchant_id,
               (settle_batch e (new_batch_id e merchant_id) s1).2)) as Hr.
  { subst r. unfold create_batch_for_merchant. rewrite Hconfig, Hauto.
    fold pending. destruct pending; [done|]. done. }
  assert (emergency_paused s1 = false) as Hpause1
    by (unfold emergency_paused in *; by rewrite Hsc).
  assert (batches_storage s1 !! new_batch_id e merchant_id
          = Some (new_batch e merchant_id pending)) as Hnew
    by (rewrite Hb; apply lookup_insert_eq).
  destruct (settle_batch_success_fields e (new_batch_id e merchant_id) s1
              (new_batch e merchant_id pending))
    as (_ & _ & Hp' & Hb' & He' & _); try done.
  rewrite Hr. cbn [fst snd]. split; [done|]. split; [|split].
  - by rewrite Hb', lookup_insert_eq.
  - intros p Hin.
    apply elem_of_pending_payments_of in Hin as ([k Hk] & Hm & Hs).
    pose proof (ok_payment_keys s Hok k p Hk) as Hid. subst k.
    rewrite Hp', Hp, !lookup_fmap, Hk. cbn.
    unfold batch_if_pending, is_pending_of.
    rewrite !bool_decide_eq_true_2 by done. cbn.
    unfold settle_if_in. cbn. rewrite bool_decide_eq_true_2 by done.
    by eexists.
  - intros m. rewrite He'. change (bat_merchant_id _) with merchant_id.
    assert (is_Some (escrow_pdas_storage s !! merchant_id)) as [pda Hpda].
    { destruct pending as [|p l] eqn:Hl; [done|].
      eapply (pending_payments_of_stored merchant_id s p); [done|].
      fold pending. rewrite Hl. left. }
    rewrite Hpda in He. rewrite He, lookup_insert_eq.
    rewrite insert_insert_eq.
    destruct (decide (merchant_id = m)) as [<-|Hm].
    + rewrite lookup_insert_eq, Hpda. cbn.
      pose proof (ok_balance s Hok _ _ Hpda). f_equal. lia.
    + by rewrite lookup_insert_ne.
Qed.

(** ** The history of a payment *)

Lemma settle_batch_payment_content e batch_id s k p :
  batch_payments_storage s !! k = Some p →
  ∃ p', batch_payments_storage (settle_batch e batch_id s).2 !! k = Some p'
        ∧ same_payment_content p p'.
Proof.
  intros Hk.
  destruct (settle_batch_cases e batch_id s)
    as [->|(batch & Hget & Hstatus & Hpause)]; [by exists p|].
  destruct (random_success e) eqn:Hrand.
  - destruct (settle_batch_success_fields e batch_id s batch)
      as (_ & _ & Hp & _); try done.
    rewrite Hp, lookup_fmap, Hk. cbn. eexists. split; [done|].
    unfold settle_if_in. by destruct (bool_decide _).
  - destruct (settle_batch_failed_fields e batch_id s batch)
      as (_ & _ & Hp & _); try done.
    rewrite Hp. by exists p.
Qed.

Lemma create_batch_for_merchant_payment_content e merchant_id s k p :
  store_ok s →
  batch_payments_storage s !! k = Some p →
  ∃ p', batch_payments_storage (create_batch_for_merchant e merchant_id s).2
        !! k = Some p'
        ∧ same_payment_content p p'.
Proof.
  intros Hok Hk. unfold create_batch_for_merchant.
  destruct (merchant_configs_storage s !! merchant_id) as [config|];
    [|by exists p].
  destruct (length _ =? 0)%nat; [by exists p|]. cbn [snd].
  destruct (record_batch_fields e merchant_id
              (pending_payments_of merchant_id (batch_payments_storage s)) s)
    as (_ & Hp & _).
  rewrite batch_payments_fmap in Hp by apply Hok.
  set (s1 := record_batch e merchant_id _ s) in *.
  assert (∃ p1, batch_payments_storage s1 !! k = Some p1
                ∧ same_payment_content p p1) as (p1 & Hp1 & Hsame1).
  { rewrite Hp, lookup_fmap, Hk. cbn. eexists. split; [done|].
    unfold batch_if_pending. by destruct (is_pending_of _ _). }
  destruct (cfg_auto_settle config); [|by exists p1].
  destruct (settle_batch_payment_content e (new_batch_id e merchant_id) s1
              k p1 Hp1) as (p2 & Hp2 & Hsame2).
  exists p2. split; [done|].
  destruct Hsame1 as (? & ? & ? & ? & ? & ?).
  destruct Hsame2 as (? & ? & ? & ? & ? & ?).
  repeat split; congruence.
Qed.

Lemma exec_payment_content e c s k p :
  store_ok s → amount_is_nat c → payment_id_unused e c s →
  batch_payments_storage s !! k = Some p →
  ∃ p', batch_payments_storage (exec e c s) !! k = Some p'
        ∧ same_payment_content p p'.
Proof.
  intros Hok Hc Hunused Hk.
  destruct c as [payment_data|m|batch_id|m config_data];
    cbn [exec amount_is_nat payment_id_unused] in *.
  - unfold process_payment.
    destruct (ensure_config_fields e payment_data s) as (Hp0 & _).
    apply (store_ok_ensure_config e payment_data) in Hok.
    set (s0 := ensure_config e payment_data s) in *.
    assert (new_payment_id e payment_data ≠ k) as Hne
      by (intros <-; congruence).
    destruct (should_use_escrow (pd_api_key payment_data)); cbn [snd].
    + destruct (create_or_get_escrow_pda_fields e
                  (pd_merchant_id payment_data) s0) as (_ & Hp1 & _).
      pose proof (escrow_pda_exists e (pd_merchant_id payment_data) s0) as Hex.
      apply (store_ok_create_or_get_escrow_pda e
               (pd_merchant_id payment_data)) in Hok.
      set (s1 := (create_or_get_escrow_pda e (pd_merchant_id payment_data)
                    s0).2) in *.
      match goal with
      | |- context [create_batch_for_merchant _ _ ?s2] =>
          assert (store_ok s2 ∧ batch_payments_storage s2 !! k = Some p)
            as [Hok2 Hk2]
      end.
      { split.
        - apply store_ok_insert_payment; try done. left. by split.
        - cbn. by rewrite lookup_insert_ne, Hp1, Hp0. }
      destruct (should_create_batch _ _); [|by exists p].
      by apply create_batch_for_merchant_payment_content.
    + exists p. split; [|done]. cbn. by rewrite lookup_insert_ne, Hp0.
  - by apply create_batch_for_merchant_payment_content.
  - by apply settle_batch_payment_content.
  - exists p. split; [|done]. unfold update_merchant_config.
    by destruct (merchant_configs_storage s !! m).
Qed.

(** X15. As long as a new payment does not take the identifier of a stored
    one, no call on a reachable store loses or rewrites a stored payment:
    it stays under its key with the same identifier, merchant, wallet,
    amount, currency and timestamp; its status stays or moves forward by
    the steps of [status_step] (pending to batched, batched to settled or
    failed), and a settled payment stays settled. *)
Theorem payment_history e c s k p :
  reachable s → amount_is_nat c → payment_id_unused e c s →
  batch_payments_storage s !! k = Some p →
  ∃ p', batch_payments_storage (exec e c s) !! k = Some p'
        ∧ same_payment_content p p'
        ∧ rtc status_step (pay_status p) (pay_status p')
        ∧ (pay_status p = "settled" → pay_status p' = "settled").
Proof.
  intros Hreach Hc Hunused Hk.
  pose proof (reachable_store_ok s Hreach) as Hok.
  destruct (exec_payment_content e c s k p Hok Hc Hunused Hk)
    as (p' & Hp' & Hsame).
  destruct (payment_status_forward e c s k p Hok Hc Hunused Hk)
    as (p'' & Hp'' & Hforward).
  assert (p'' = p') as -> by congruence.
  exists p'. split; [done|]. split; [done|]. split; [done|].
  intros Hsettled. rewrite Hsettled in Hforward.
  clear -Hforward. remember "settled" as st eqn:Hst.
  induction Hforward as [|x y z Hstep Hrest IH]; [done|].
  subst x. inversion Hstep.
Qed.

(** ** What [process_payment] stores *)

(** X6. On a reachable store, [process_payment] with a natural amount leaves
    a record of the payment under the new identifier, with the merchant,
    wallet and amount of the payload and currency ["USDC"]. For a free-tier
    credential the call answers ["direct_settled_"] and the identifier, and
    the record is settled outside any batch; otherwise it answers
    ["escrow_batched_"] and the identifier, the merchant has an escrow
    account, and the record is pending, batched or settled. *)
Theorem process_payment_records e payment_data s :
  reachable s → 0 ≤ pd_amount payment_data →
  let r := process_payment e payment_data s in
  let payment_id := new_payment_id e payment_data in
  ∃ p,
    batch_payments_storage r.2 !! payment_id = Some p
    ∧ pay_payment_id p = payment_id
    ∧ pay_merchant_id p = pd_merchant_id payment_data
    ∧ pay_user_wallet p = pd_user_wallet payment_data
    ∧ pay_amount p = pd_amount payment_data
    ∧ pay_currency p = "USDC"
    ∧ if should_use_escrow (pd_api_key payment_data)
      then r.1 = "escrow_batched_" +:+ payment_id
           ∧ is_Some (escrow_pdas_storage r.2 !! pd_merchant_id payment_data)
           ∧ (pay_status p = "pending" ∨ pay_status p = "batched"
              ∨ pay_status p = "settled")
      else r.1 = "direct_settled_" +:+ payment_id
           ∧ pay_status p = "settled"
           ∧ pay_batch_id p = None.
Proof.
  intros Hreach Hamount r payment_id.
  pose proof (reachable_store_ok s Hreach) as Hok.
  pose proof (store_ok_process_payment e payment_data s Hok Hamount) as Hok'.
  fold r in Hok'.
  subst r payment_id. unfold process_payment in *.
  apply (store_ok_ensure_config e payment_data) in Hok.
  set (s0 := ensure_config e payment_data s) in *.
  destruct (should_use_escrow (pd_api_key payment_data)); cbn [fst snd] in *.
  - pose proof (escrow_pda_exists e (pd_merchant_id payment_data) s0) as Hex.
    apply (store_ok_create_or_get_escrow_pda e (pd_merchant_id payment_data))
      in Hok.
    set (s1 := (create_or_get_escrow_pda e (pd_merchant_id payment_data)
                  s0).2) in *.
    set (s2 := insert_payment (new_payment_id e payment_data)
                 (escrow_payment e payment_data) s1) in *.
    assert (store_ok s2) as Hok2.
    { apply store_ok_insert_payment; try done. left. by split. }
    assert (batch_payments_storage s2 !! new_payment_id e payment_data
            = Some (escrow_payment e payment_data)) as Hk2
      by (cbn; apply lookup_insert_eq).
    assert (is_Some (escrow_pdas_storage s2 !! pd_merchant_id payment_data))
      as Hex2 by done.
    destruct (should_create_batch _ _).
    + destruct (create_batch_for_merchant_payment_content e
                  (pd_merchant_id payment_data) s2 _ _ Hok2 Hk2)
        as (p & Hp & Hid & Hm & Hw & Ha & Hcur & _).
      exists p. repeat split; try done.
      * destruct Hex2 as [pda Hpda].
        assert (∃ pda', escrow_pdas_storage
                          (create_batch_for_merchant e
                             (pd_merchant_id payment_data) s2).2
                        !! pd_merchant_id payment_data = Some pda')
          as [pda' Hpda']; [|by eexists].
        destruct (create_batch_for_merchant_balance e
                    (pd_merchant_id payment_data) s2
                    (pd_merchant_id payment_data) pda Hok2 Hpda)
          as (pda' & Hpda' & _). by exists pda'.
      * exact (ok_status _ Hok' _ _ Hp).
    + exists (escrow_payment e payment_data). repeat split; try done.
      by left.
  - exists (direct_payment e payment_data).
    split; [cbn; apply lookup_insert_eq|]. by repeat split.
Qed.

(** ** Metrics *)

Lemma stored_batches_values (batches : gmap string Batch) :
  stored_batches batches = values batches.
Proof.
  unfold stored_batches. rewrite (omap_keys _ _ Some) by done.
  induction (values batches) as [|b l IH]; [done|]. cbn. by rewrite IH.
Qed.

Lemma sum_totals_filter_le (P : Batch → Prop) `{∀ b, Decision (P b)}
    (l : list Batch) :
  (∀ b, b ∈ l → 0 ≤ bat_total_amount b) →
  0 ≤ sum_totals (filter P l) ≤ sum_totals l.
Proof.
  induction l as [|b l IH]; intros Hl; [done|].
  assert (0 ≤ bat_total_amount b) by (apply Hl; left).
  assert (0 ≤ sum_totals (filter P l) ≤ sum_totals l) as IH'
    by (apply IH; intros b' Hb'; apply Hl; by right).
  rewrite filter_cons. unfold sum_totals in *.
  destruct (decide (P b)); cbn; lia.
Qed.

(** X19. [get_batching_metrics] changes nothing. On a reachable store the
    number of batches it reports is the number of stored batches, the
    pending amount lies between zero and the total volume, so does the
    average batch size, and the number of active merchants is at most the
    number of configurations; with no stored batch the volume, the average
    and the success rate are zero. *)
Theorem get_batching_metrics_bounds s :
  reachable s →
  let m := (get_batching_metrics s).1 in
  (get_batching_metrics s).2 = s
  ∧ met_total_batches_processed m = Z.of_nat (size (batches_storage s))
  ∧ 0 ≤ met_pending_amount m ≤ met_total_volume_batched m
  ∧ 0 ≤ met_average_batch_size m ≤ met_total_volume_batched m
  ∧ 0 ≤ met_merchants_active m ≤ Z.of_nat (size (merchant_configs_storage s))
  ∧ (batches_storage s = ∅ →
     met_total_volume_batched m = 0
     ∧ met_average_batch_size m = 0
     ∧ met_settlement_success_rate m = 0).
Proof.
  intros Hreach m. subst m.
  pose proof (reachable_store_ok s Hreach) as Hok.
  unfold get_batching_metrics. cbn [fst snd met_total_batches_processed
    met_pending_amount met_total_volume_batched met_average_batch_size
    met_merchants_active met_settlement_success_rate].
  rewrite stored_batches_values.
  assert (∀ b, b ∈ values (batches_storage s) → 0 ≤ bat_total_amount b)
    as Hnonneg.
  { intros b Hb. apply elem_of_values in Hb as [k Hk].
    by eapply ok_batch_total. }
  assert (0 ≤ sum_totals (values (batches_storage s))) as Hvolume.
  { clear -Hnonneg.
    induction (values (batches_storage s)) as [|b l IH]; [done|].
    assert (0 ≤ bat_total_amount b) by (apply Hnonneg; left).
    assert (0 ≤ sum_totals l) by (apply IH; intros; apply Hnonneg; by right).
    cbn. unfold sum_totals in *. lia. }
  split; [done|]. split.
  { unfold values. by rewrite length_fmap, length_map_to_list. }
  split; [by apply sum_totals_filter_le|]. split.
  { split.
    - apply Z.div_pos; lia.
    - transitivity (sum_totals (values (batches_storage s)) `div` 1).
      + apply Z.div_le_compat_l; lia.
      + by rewrite Z.div_1_r. }
  split.
  { split; [lia|]. apply inj_le.
    etrans; [apply length_filter|].
    unfold values. by rewrite length_fmap, length_map_to_list. }
  intros Hempty. rewrite Hempty. unfold values.
  rewrite map_to_list_empty. cbn. repeat split; by vm_compute.
Qed.

(** ** The invariants of reachable stores *)

(** X17. The invariants that every sequence of calls with natural amounts
    keeps. Each payment is stored under its own identifier, has a natural
    amount and is pending, batched or settled; a pending payment belongs to
    no batch and its merchant has an escrow account; the batch a payment
    refers to is stored. Each configuration is stored under its merchant.
    Each batch is stored under its own identifier, has a natural total, and
    its merchant has an escrow account. Every balance is natural. *)
Theorem reachable_store_well_formed s :
  reachable s →
  (∀ k p, batch_payments_storage s !! k = Some p →
          pay_payment_id p = k
          ∧ 0 ≤ pay_amount p
          ∧ (pay_status p = "pending" ∨ pay_status p = "batched"
             ∨ pay_status p = "settled")
          ∧ (pay_status p = "pending" →
             pay_batch_id p = None
             ∧ is_Some (escrow_pdas_storage s !! pay_merchant_id p))
          ∧ (∀ batch_id, pay_batch_id p = Some batch_id →
                         is_Some (batches_storage s !! batch_id)))
  ∧ (∀ k config, merchant_configs_storage s !! k = Some config →
                 cfg_merchant_id config = k)
  ∧ (∀ k batch, batches_storage s !! k = Some batch →
                bat_batch_id batch = k
                ∧ 0 ≤ bat_total_amount batch
                ∧ is_Some (escrow_pdas_storage s !! bat_merchant_id batch))
  ∧ (∀ k pda, escrow_pdas_storage s !! k = Some pda →
              0 ≤ pda_total_balance pda).
Proof.
  intros Hreach. pose proof (reachable_store_ok s Hreach) as Hok.
  split; [|split; [|split]].
  - intros k p Hk. split; [by apply (ok_payment_keys s Hok)|].
    split; [by eapply ok_amounts|]. split; [by eapply ok_status|].
    split; [by eapply ok_pending|]. intros batch_id. by eapply ok_batch_ref.
  - by apply ok_config_keys.
  - intros k batch Hk. split; [by eapply ok_batch_keys|].
    split; [by eapply ok_batch_total|by eapply ok_batch_pda].
  - by apply ok_balance.
Qed.

End Further.

(** * Examples

    The theorems above at concrete inputs, and the inputs at which the
    agent departs from its description. All of them run with
    [example_runtime]. *)

Section Examples.

#[local] Existing Instance example_runtime.

Lemma reachable_three_pending : reachable (run three_pending canister_init).
Proof.
  apply reachable_run; [constructor|]. repeat constructor; by vm_compute.
Qed.

(** In [same_round_payment] no batch identifier and no payment identifier
    is used twice: the last call stores no batch. *)
Lemma reachable_unique_same_round_payment :
  reachable_unique (run same_round_payment canister_init).
Proof.
  unfold run, same_round_payment, pending_batch, three_pending.
  cbn [foldl app fst snd].
  repeat (apply reachable_unique_exec;
          [|vm_compute;
            first [exact I|reflexivity|discriminate
                  |intros Hstores; discriminate Hstores]..]).
  constructor.
Qed.

Lemma reachable_fresh_same_round_payment :
  reachable_fresh (run same_round_payment canister_init).
Proof. apply reachable_unique_fresh, reachable_unique_same_round_payment. Qed.

(** A batch that has settled is rejected by the first guard that applies,
    and a further call is rejected as well. *)
Lemma settle_batch_rejects_witness :
  let s := run [(at_time 1000 true, ProcessPayment large_payment)]
             canister_init in
  settle_batch (at_time 2000 true) "batch_shop_1000" s = (false, s)
  ∧ settle_batch (at_time 3000 true) "batch_shop_1000"
      (settle_batch (at_time 2000 true) "batch_shop_1000" s).2
    = (false, (settle_batch (at_time 2000 true) "batch_shop_1000" s).2).
Proof.
  intros s.
  destruct (settle_batch_rejects (at_time 2000 true) (at_time 3000 true)
              "batch_shop_1000" s) as [Hguard Hsecond].
  split; [|exact Hsecond].
  apply Hguard. right. left.
  destruct (batches_storage s !! "batch_shop_1000") as [batch|] eqn:Hget;
    [|vm_compute in Hget; discriminate Hget].
  exists batch. split; [reflexivity|].
  vm_compute in Hget. injection Hget as <-. discriminate.
Defined.

(** A pending batch whose settlement fails. *)
Lemma settle_batch_failure_witness :
  let s := run pending_batch canister_init in
  let r := settle_batch (at_time 2000 false) "batch_shop_1004" s in
  r.1 = false
  ∧ (bat_status <$> batches_storage r.2 !! "batch_shop_1004") = Some "failed"
  ∧ batch_payments_storage r.2 = batch_payments_storage s.
Proof.
  intros s r.
  destruct (batches_storage s !! "batch_shop_1004") as [batch|] eqn:Hget;
    [|vm_compute in Hget; discriminate Hget].
  destruct (settle_batch_failure (at_time 2000 false) "batch_shop_1004" s
              batch Hget)
    as (Hr & (failed & Hfailed & Hstatus & _) & Hpayments & _).
  - vm_compute in Hget. injection Hget as <-. reflexivity.
  - vm_compute. reflexivity.
  - reflexivity.
  - split; [exact Hr|]. split; [|exact Hpayments].
    subst r. rewrite Hfailed. cbn [fmap option_fmap option_map].
    by rewrite Hstatus.
Defined.

(** One pending payment whose amount is exactly [max_batch_amount]. *)
Lemma should_create_batch_cases_witness :
  let s :=
    run [ (at_time 1000 true,
           ProcessPayment (payment "ouro_business_k1" "alice" 5));
          (at_time 1001 true, UpdateMerchantConfig "shop" (thresholds 5 5)) ]
      canister_init in
  length (pending_payments_of "shop" (batch_payments_storage s)) = 1%nat
  ∧ should_create_batch "shop" s = true.
Proof.
  intros s. split; [by vm_compute|].
  destruct (should_create_batch_cases "shop" s) as (_ & _ & Hcases).
  destruct (merchant_configs_storage s !! "shop") as [config|] eqn:Hconfig;
    [|vm_compute in Hconfig; discriminate Hconfig].
  destruct (Hcases config eq_refl) as (_ & _ & _ & Htrigger).
  vm_compute in Hconfig. injection Hconfig as <-.
  destruct Htrigger as [Hmax _]; [done|by vm_compute|by vm_compute|].
  apply Hmax. by vm_compute.
Defined.

(** Switching automatic settlement off for a merchant that has paid once. *)
Lemma update_merchant_config_frame_witness :
  let s := run [(at_time 1000 true, ProcessPayment large_payment)]
             canister_init in
  let r := update_merchant_config (at_time 2000 true) "shop"
             manual_settlement s in
  r.1 = true ∧ batch_payments_storage r.2 = batch_payments_storage s.
Proof.
  intros s r.
  assert (reachable s) as Hreach.
  { apply reachable_run; [constructor|]. repeat constructor; by vm_compute. }
  pose proof (update_merchant_config_frame (at_time 2000 true) "shop"
                manual_settlement s Hreach) as Hframe.
  cbv zeta in Hframe. fold r in Hframe.
  destruct (merchant_configs_storage s !! "shop") eqn:Hconfig;
    [|vm_compute in Hconfig; discriminate Hconfig].
  destruct Hframe as (Hr & _ & _ & Hpayments & _).
  split; [exact Hr|exact Hpayments].
Defined.

(** A free-tier payment on a fresh canister leaves a record in the payment
    store: the store had no record and has one afterwards, a payment of the
    merchant. The escrow store stays empty. *)
Lemma process_payment_free_tier_counterexample :
  let payment_data := payment "ouro_free_k1" "alice" 40 in
  let e := at_time 1000 true in
  let r := process_payment e payment_data canister_init in
  detect_api_tier (pd_api_key payment_data) = free
  ∧ batch_payments_storage r.2 ≠ batch_payments_storage canister_init
  ∧ size (batch_payments_storage canister_init) = 0%nat
  ∧ size (batch_payments_storage r.2) = 1%nat
  ∧ (pay_merchant_id <$>
       batch_payments_storage r.2 !! new_payment_id e payment_data)
    = Some "shop"
  ∧ escrow_pdas_storage r.2 = ∅.
Proof.
  intros payment_data e r. split; [by vm_compute|]. split.
  - intros Heq.
    apply (f_equal (λ m, pay_status <$> m !! new_payment_id e payment_data))
      in Heq.
    by vm_compute in Heq.
  - by vm_compute.
Defined.

Lemma process_payment_free_tier_witness :
  let payment_data := payment "ouro_free_k1" "alice" 40 in
  let e := at_time 1000 true in
  let r := process_payment e payment_data canister_init in
  r.1 = "direct_settled_" +:+ new_payment_id e payment_data
  ∧ escrow_pdas_storage r.2 = escrow_pdas_storage canister_init
  ∧ batch_payments_storage r.2
    = <[new_payment_id e payment_data := direct_payment e payment_data]>
        (batch_payments_storage canister_init).
Proof.
  intros payment_data e r.
  assert (detect_api_tier (pd_api_key payment_data) = free) as Htier
    by (by vm_compute).
  destruct (process_payment_free_tier e payment_data canister_init Htier)
    as (Hr & Hescrow & _ & _ & Hpayments & _).
  split; [exact Hr|]. split; [exact Hescrow|exact Hpayments].
Defined.

(** With the default [auto_settle], the batch that
    [create_batch_for_merchant] makes out of three pending payments of 40
    is settled when the function returns, and so are its payments. And when
    the scheduler creates a second batch for the merchant within the same
    round, the new batch takes the identifier of the first: its total is
    the 50 of the one new payment while four payments, 170 in all, point
    at it (automatic settlement is off here, so this is the store right
    after creation). *)
Lemma create_batch_for_merchant_counterexample :
  (let s := run three_pending canister_init in
   let r := create_batch_for_merchant (at_time 1004 true) "shop" s in
   length (pending_payments_of "shop" (batch_payments_storage s)) = 3%nat
   ∧ r.1 = "batch_shop_1004"
   ∧ (bat_total_amount <$> batches_storage r.2 !! r.1) = Some 120
   ∧ (bat_payment_count <$> batches_storage r.2 !! r.1) = Some 3
   ∧ (bat_status <$> batches_storage r.2 !! r.1) = Some "settled"
   ∧ (pay_status <$> values (batch_payments_storage r.2))
     = ["settled"; "settled"; "settled"])
  ∧ (let s :=
       run (three_pending
            ++ [ (at_time 1004 true, CreateBatchForMerchant "shop");
                 (at_time 1004 true,
                  ProcessPayment (payment "ouro_business_k1" "dave" 50));
                 (at_time 1004 true,
                  UpdateMerchantConfig "shop" manual_settlement) ])
         canister_init in
     let r := create_batch_for_merchant (at_time 1004 true) "shop" s in
     r.1 = "batch_shop_1004"
     ∧ (bat_status <$> batches_storage r.2 !! r.1) = Some "pending"
     ∧ (bat_total_amount <$> batches_storage r.2 !! r.1) = Some 50
     ∧ sum_amounts (batch_members r.1 (batch_payments_storage r.2)) = 170).
Proof. vm_compute. repeat split; reflexivity. Defined.

(** Scenario A of the description, up to the auto-settle call. *)
Lemma create_batch_for_merchant_records_witness :
  let s := run three_pending canister_init in
  let e := at_time 1004 true in
  let pending := pending_payments_of "shop" (batch_payments_storage s) in
  let batch_id := new_batch_id e "shop" in
  let s1 := record_batch e "shop" pending s in
  batch_id = "batch_shop_1004"
  ∧ create_batch_for_merchant e "shop" s
    = (batch_id, (settle_batch e batch_id s1).2)
  ∧ ∃ batch,
      batches_storage s1 !! batch_id = Some batch
      ∧ bat_total_amount batch = 120
      ∧ bat_payment_count batch = 3
      ∧ bat_status batch = "pending"
      ∧ sum_amounts (batch_members batch_id (batch_payments_storage s1)) = 120.
Proof.
  intros s e pending batch_id s1.
  split; [vm_compute; reflexivity|].
  destruct (merchant_configs_storage s !! "shop") as [config|] eqn:Hconfig;
    [|vm_compute in Hconfig; discriminate Hconfig].
  assert (pending_payments_of "shop" (batch_payments_storage s) ≠ [])
    as Hpending by (vm_compute; discriminate).
  destruct (create_batch_for_merchant_records e "shop" s config
              reachable_three_pending Hconfig Hpending)
    as (Hcall & (batch & Hbatch & _ & Htotal & Hcount & Hstatus & Hsum) & _).
  assert (batches_storage s !! new_batch_id e "shop" = None) as Hunused
    by (vm_compute; reflexivity).
  specialize (Hsum Hunused).
  assert (sum_amounts (pending_payments_of "shop" (batch_payments_storage s))
          = 120) as Hsum120 by (vm_compute; reflexivity).
  assert (Z.of_nat
            (length (pending_payments_of "shop" (batch_payments_storage s)))
          = 3) as Hcount3 by (vm_compute; reflexivity).
  split.
  - rewrite Hcall. vm_compute in Hconfig. injection Hconfig as <-.
    reflexivity.
  - exists batch. split; [exact Hbatch|].
    split; [exact (eq_trans Htotal Hsum120)|].
    split; [exact (eq_trans Hcount Hcount3)|].
    split; [exact Hstatus|].
    exact (eq_trans (eq_sym Hsum) (eq_trans Htotal Hsum120)).
Defined.

(** A payment that reaches [max_batch_amount] and whose settlement fails
    leaves the batch failed and the merchant's balance at the batch total,
    while the merchant has no pending or processing batch. And when a
    second such payment arrives in the same round and settles, its batch
    replaces the failed one under the same identifier: the balance still
    holds the total of the first batch, and no stored batch is unsettled. *)
Lemma escrow_balance_counterexample :
  (let s := run [(at_time 1000 false, ProcessPayment large_payment)]
              canister_init in
   reachable s
   ∧ (bat_status <$> values (batches_storage s)) = ["failed"]
   ∧ (pda_total_balance <$> escrow_pdas_storage s !! "shop")
     = Some 10000000000
   ∧ total_where (is_open_of "shop") (batches_storage s) = 0)
  ∧ (let s :=
       run [ (at_time 1000 false, ProcessPayment large_payment);
             (at_time 1000 true,
              ProcessPayment (payment "ouro_business_k1" "bob" 10000000000)) ]
         canister_init in
     reachable s
     ∧ (bat_status <$> values (batches_storage s)) = ["settled"]
     ∧ (pda_total_balance <$> escrow_pdas_storage s !! "shop")
       = Some 10000000000
     ∧ total_where (is_unsettled_of "shop") (batches_storage s) = 0).
Proof.
  split; (split; [apply reachable_run; [constructor|];
                  repeat constructor; vm_compute; discriminate|]);
    vm_compute; repeat split; reflexivity.
Defined.

(** The theorem at two runs. In the first, a payment that reaches
    [max_batch_amount] creates the account of ["shop"] and its settlement
    fails: the balance is at least zero, it is the total of the failed
    batch, which the call stored, and a later [settle_batch] on that batch
    keeps the account. In the second, a payment arrives in the round in
    which a batch was created, when the identifier that a batch of this
    round would get is in use; the call stores no batch, so no identifier
    is used twice, and the balance is the total of the pending batch. *)
Lemma escrow_balance_accounting_witness :
  (let e := at_time 1000 false in
   let s := exec e (ProcessPayment large_payment) canister_init in
   ∃ pda,
     escrow_pdas_storage s !! "shop" = Some pda
     ∧ 0 ≤ pda_total_balance pda
     ∧ pda_total_balance pda
       = total_where (is_unsettled_of "shop") (batches_storage s)
     ∧ (pda_total_balance pda = 0
        ∨ ∃ batch,
            batches_storage s !! new_batch_id e "shop" = Some batch
            ∧ bat_status batch ≠ "settled"
            ∧ pda_total_balance pda = bat_total_amount batch)
     ∧ is_Some
         (escrow_pdas_storage
            (exec (at_time 2000 true) (SettleBatch "batch_shop_1000") s)
          !! "shop"))
  ∧ (let s0 := run pending_batch canister_init in
     let s := run same_round_payment canister_init in
     is_Some (batches_storage s0 !! new_batch_id (at_time 1004 true) "shop")
     ∧ batches_storage s = batches_storage s0
     ∧ ∃ pda,
         escrow_pdas_storage s !! "shop" = Some pda
         ∧ pda_total_balance pda = 120
         ∧ pda_total_balance pda
           = total_where (is_unsettled_of "shop") (batches_storage s)).
Proof.
  destruct escrow_balance_accounting as (Hnonneg & Hsum & Hstep & Hnew).
  split.
  - intros e s.
    assert (amount_is_nat (ProcessPayment large_payment)) as Hamount
      by (vm_compute; discriminate).
    assert (reachable_fresh s) as Hfresh.
    { apply reachable_fresh_exec; [constructor|exact Hamount|].
      intros _. vm_compute. reflexivity. }
    assert (reachable s) as Hreach
      by (apply reachable_exec; [constructor|exact Hamount]).
    destruct (escrow_pdas_storage s !! "shop") as [pda|] eqn:Hpda;
      [|vm_compute in Hpda; discriminate Hpda].
    exists pda. split; [reflexivity|].
    split; [exact (Hnonneg s "shop" pda Hreach Hpda)|].
    split; [exact (Hsum s "shop" pda Hfresh Hpda)|].
    split.
    + destruct (Hnew canister_init e (ProcessPayment large_payment) "shop" pda
                  reachable_init Hamount eq_refl Hpda)
        as [_ [Hzero|(batch & Hbatch & _ & Hstatus & Htotal)]].
      * left. exact Hzero.
      * right. exists batch.
        split; [exact Hbatch|]. split; [exact Hstatus|exact Htotal].
    + destruct (Hstep s (at_time 2000 true) (SettleBatch "batch_shop_1000")
                  "shop" pda Hreach I Hpda) as (pda' & Hpda' & _).
      exists pda'. exact Hpda'.
  - intros s0 s.
    split; [vm_compute; eexists; reflexivity|].
    split; [vm_compute; reflexivity|].
    destruct (escrow_pdas_storage s !! "shop") as [pda|] eqn:Hpda;
      [|vm_compute in Hpda; discriminate Hpda].
    exists pda. split; [reflexivity|].
    split; [|exact (Hsum s "shop" pda reachable_fresh_same_round_payment
                      Hpda)].
    vm_compute in Hpda. injection Hpda as <-. reflexivity.
Defined.

(** C3, where the code departs from it. A batch of three payments is
    pending; it is settled at time 2000 and the connector succeeds. The
    call returns [True] and the batch is ["settled"], but its
    [settled_at] is still empty and so is [last_settlement] of the
    merchant's account, where the time of the call was to be recorded. *)
Theorem settle_batch_success_settled_at :
  let s := run pending_batch canister_init in
  let r := settle_batch (at_time 2000 true) "batch_shop_1004" s in
  (bat_status <$> batches_storage s !! "batch_shop_1004") = Some "pending"
  ∧ emergency_paused s = false
  ∧ r.1 = true
  ∧ (bat_status <$> batches_storage r.2 !! "batch_shop_1004") = Some "settled"
  ∧ (bat_settled_at <$> batches_storage r.2 !! "batch_shop_1004") = Some None
  ∧ (pda_last_settlement <$> escrow_pdas_storage r.2 !! "shop") = Some None
  ∧ (pda_total_balance <$> escrow_pdas_storage s !! "shop") = Some 120
  ∧ (pda_total_balance <$> escrow_pdas_storage r.2 !! "shop") = Some 0
  ∧ (pay_status <$> values (batch_payments_storage r.2))
    = ["settled"; "settled"; "settled"].
Proof. vm_compute. repeat split; reflexivity. Qed.

(** C7, where the code departs from it. The same payment is submitted
    twice within one round. The first call batches and settles it. The
    second call computes the same payment identifier and stores its record
    over the settled one; this time the settlement fails, and the payment
    that was ["settled"] is now ["batched"]. *)
Theorem process_payment_reuses_payment_id :
  let s1 := run [(at_time 1000 true, ProcessPayment large_payment)]
              canister_init in
  let s2 := run [(at_time 1000 false, ProcessPayment large_payment)] s1 in
  let k := new_payment_id (at_time 1000 true) large_payment in
  new_payment_id (at_time 1000 false) large_payment = k
  ∧ (pay_status <$> batch_payments_storage s1 !! k) = Some "settled"
  ∧ (pay_status <$> batch_payments_storage s2 !! k) = Some "batched".
Proof. vm_compute. repeat split; reflexivity. Qed.

(** C9, where the code departs from it. With a hundred stored batches of
    which 57 are settled, the reported success rate is 5699, one below
    [57 * 10000 / max(1, 100) = 5700]: the rate is computed in binary
    floating point, where [57 / 100 * 10000] falls just short of 5700, and
    then truncated. *)
Theorem get_batching_metrics_success_rate :
  let s := run hundred_payments canister_init in
  let m := (get_batching_metrics s).1 in
  reachable s
  ∧ met_total_batches_processed m = 100
  ∧ Z.of_nat
      (length
         (filter (λ b, bat_status b = "settled")
            (values (batches_storage s)))) = 57
  ∧ met_settlement_success_rate m = 5699
  ∧ 57 * 10000 `div` Z.max 1 100 = 5700.
Proof.
  split.
  - apply reachable_run; [constructor|].
    apply Forall_fmap, Forall_forall. intros i _. vm_compute. discriminate.
  - vm_compute. repeat split; reflexivity.
Qed.

Lemma reachable_pending_batch : reachable (run pending_batch canister_init).
Proof.
  apply reachable_run; [constructor|]. repeat constructor; by vm_compute.
Qed.

(** Settlement is not paused after a run, and a failing connector is what
    makes [settle_batch] answer [False] on the pending batch. *)
Lemma settlement_never_paused_witness :
  let s := run pending_batch canister_init in
  emergency_paused s = false
  ∧ (settle_batch (at_time 2000 false) "batch_shop_1004" s).1 = false.
Proof.
  intros s.
  destruct (settlement_never_paused s reachable_pending_batch)
    as (_ & Hpause & Hsettle).
  split; [exact Hpause|].
  destruct (batches_storage s !! "batch_shop_1004") as [batch|] eqn:Hget;
    [|vm_compute in Hget; discriminate Hget].
  apply (Hsettle (at_time 2000 false) "batch_shop_1004" batch Hget).
  vm_compute in Hget. injection Hget as <-. reflexivity.
Defined.

(** A payment to ["cafe"] that is batched and settled at once leaves the
    account of ["shop"] as it is. *)
Lemma escrow_account_isolation_witness :
  let s := run pending_batch canister_init in
  let s' := exec (at_time 2000 true) (ProcessPayment cafe_payment) s in
  (get_escrow_balance "shop" s').1 = (get_escrow_balance "shop" s).1
  ∧ (get_escrow_balance "shop" s).1 = 120.
Proof.
  intros s s'.
  destruct (escrow_account_isolation (at_time 2000 true)
              (ProcessPayment cafe_payment) s "shop") as [_ Hbalance].
  - intros Heq. vm_compute in Heq. discriminate Heq.
  - split; [exact Hbalance|]. vm_compute. reflexivity.
Defined.


(** A payment to ["cafe"] leaves the pending batch of ["shop"] as it
    is. *)
Lemma batch_isolation_witness :
  let s := run pending_batch canister_init in
  let s' := exec (at_time 2000 true) (ProcessPayment cafe_payment) s in
  ∃ b, batches_storage s !! "batch_shop_1004" = Some b
       ∧ batches_storage s' !! "batch_shop_1004" = Some b
       ∧ is_Some (batches_storage s' !! "batch_cafe_2000").
Proof.
  intros s s'.
  destruct (batches_storage s !! "batch_shop_1004") as [b|] eqn:Hget;
    [|vm_compute in Hget; discriminate Hget].
  exists b. split; [reflexivity|]. split.
  - apply (batch_isolation (at_time 2000 true) (ProcessPayment cafe_payment)
             s "batch_shop_1004" b reachable_pending_batch Hget).
    intros Heq. vm_compute in Hget. injection Hget as <-.
    vm_compute in Heq. discriminate Heq.
  - vm_compute. eexists. reflexivity.
Defined.

(** The merchant was first seen with a free-tier credential; a business
    payment of 10,000 USDC, which reaches [max_batch_amount], stays
    pending. *)
Lemma process_payment_batching_disabled_witness :
  let s := run free_merchant canister_init in
  let r := process_payment (at_time 2000 true) large_payment s in
  batches_storage r.2 = batches_storage s
  ∧ (pay_status <$>
       batch_payments_storage r.2
       !! new_payment_id (at_time 2000 true) large_payment)
    = Some "pending".
Proof.
  intros s r.
  destruct (merchant_configs_storage s !! pd_merchant_id large_payment)
    as [config|] eqn:Hconfig;
    [|vm_compute in Hconfig; discriminate Hconfig].
  destruct (process_payment_batching_disabled (at_time 2000 true)
              large_payment s config Hconfig)
    as (_ & Hbatches & _ & Hstatus & _).
  - vm_compute in Hconfig. injection Hconfig as <-. reflexivity.
  - vm_compute. reflexivity.
  - split; [exact Hbatches|exact Hstatus].
Defined.

(** The total of the pending batch is the sum of its three payments,
    also after a fourth payment in the round of the batch, which stays
    outside the batch. *)
Lemma batch_totals_invariant_witness :
  let s := run same_round_payment canister_init in
  size (batch_payments_storage s) = 4%nat
  ∧ ∃ b, batches_storage s !! "batch_shop_1004" = Some b
         ∧ bat_total_amount b = 120
         ∧ bat_total_amount b
           = sum_amounts
               (batch_members "batch_shop_1004" (batch_payments_storage s)).
Proof.
  intros s. split; [vm_compute; reflexivity|].
  destruct (batches_storage s !! "batch_shop_1004") as [b|] eqn:Hget;
    [|vm_compute in Hget; discriminate Hget].
  exists b. split; [reflexivity|]. split.
  - vm_compute in Hget. injection Hget as <-. reflexivity.
  - exact (proj2 (batch_totals_invariant s
                    reachable_unique_same_round_payment
                    "batch_shop_1004" b Hget)).
Defined.

(** Three pending payments are batched and settled by one call. *)
Lemma create_batch_for_merchant_auto_settled_witness :
  let s := run three_pending canister_init in
  let r := create_batch_for_merchant (at_time 1004 true) "shop" s in
  r.1 = new_batch_id (at_time 1004 true) "shop"
  ∧ (bat_status <$> batches_storage r.2 !! r.1) = Some "settled".
Proof.
  intros s r.
  destruct (merchant_configs_storage s !! "shop") as [config|] eqn:Hconfig;
    [|vm_compute in Hconfig; discriminate Hconfig].
  destruct (create_batch_for_merchant_auto_settled (at_time 1004 true) "shop"
              s config reachable_three_pending Hconfig)
    as (Hr & Hstatus & _).
  - vm_compute in Hconfig. injection Hconfig as <-. reflexivity.
  - reflexivity.
  - intros Hnil. vm_compute in Hnil. discriminate Hnil.
  - split; [exact Hr|exact Hstatus].
Defined.

(** The first of three pending payments through the creation of their
    batch. *)
Lemma payment_history_witness :
  let s := run three_pending canister_init in
  let s' := exec (at_time 1004 true) (CreateBatchForMerchant "shop") s in
  let k := new_payment_id (at_time 1000 true)
             (payment "ouro_business_k1" "alice" 40) in
  ∃ p p', batch_payments_storage s !! k = Some p
          ∧ batch_payments_storage s' !! k = Some p'
          ∧ same_payment_content p p'
          ∧ rtc status_step (pay_status p) (pay_status p').
Proof.
  intros s s' k.
  destruct (batch_payments_storage s !! k) as [p|] eqn:Hget;
    [|vm_compute in Hget; discriminate Hget].
  destruct (payment_history (at_time 1004 true) (CreateBatchForMerchant "shop")
              s k p reachable_three_pending I I Hget)
    as (p' & Hget' & Hsame & Hforward & _).
  exists p, p'. split; [reflexivity|]. split; [exact Hget'|].
  split; [exact Hsame|exact Hforward].
Defined.

(** A fourth payment of 40 is recorded with its amount. *)
Lemma process_payment_records_witness :
  let s := run three_pending canister_init in
  let payment_data := payment "ouro_business_k1" "dave" 40 in
  let r := process_payment (at_time 1003 true) payment_data s in
  ∃ p, batch_payments_storage r.2
       !! new_payment_id (at_time 1003 true) payment_data = Some p
       ∧ pay_amount p = 40
       ∧ pay_currency p = "USDC".
Proof.
  intros s payment_data r.
  assert (0 ≤ pd_amount payment_data) as Hamount
    by (vm_compute; discriminate).
  destruct (process_payment_records (at_time 1003 true) payment_data s
              reachable_three_pending Hamount)
    as (p & Hget & _ & _ & _ & Ha & Hcur & _).
  exists p. split; [exact Hget|]. split; [exact Ha|exact Hcur].
Defined.

(** The metrics of a store with one pending batch. *)
Lemma get_batching_metrics_bounds_witness :
  let s := run pending_batch canister_init in
  let m := (get_batching_metrics s).1 in
  met_total_batches_processed m = Z.of_nat (size (batches_storage s))
  ∧ 0 ≤ met_pending_amount m ≤ met_total_volume_batched m.
Proof.
  intros s m.
  destruct (get_batching_metrics_bounds s reachable_pending_batch)
    as (_ & Hcount & Hpending & _).
  split; [exact Hcount|exact Hpending].
Defined.

(** The account of ["shop"] after the run. *)
Lemma reachable_store_well_formed_witness :
  let s := run pending_batch canister_init in
  ∃ pda, escrow_pdas_storage s !! "shop" = Some pda
         ∧ 0 ≤ pda_total_balance pda.
Proof.
  intros s.
  destruct (escrow_pdas_storage s !! "shop") as [pda|] eqn:Hget;
    [|vm_compute in Hget; discriminate Hget].
  exists pda. split; [reflexivity|].
  destruct (reachable_store_well_formed s reachable_pending_batch)
    as (_ & _ & _ & Hbalance).
  exact (Hbalance "shop" pda Hget).
Defined.

(** The pending batch settles. *)
Lemma settle_batch_success_effects_witness :
  let s := run pending_batch canister_init in
  let r := settle_batch (at_time 2000 true) "batch_shop_1004" s in
  r.1 = true
  ∧ ∃ final, batches_storage r.2 !! "batch_shop_1004" = Some final
             ∧ bat_status final = "settled"
             ∧ bat_gas_cost final = Some (random_gas (at_time 2000 true) * 25).
Proof.
  intros s r.
  destruct (batches_storage s !! "batch_shop_1004") as [batch|] eqn:Hget;
    [|vm_compute in Hget; discriminate Hget].
  destruct (settle_batch_success_effects (at_time 2000 true) "batch_shop_1004"
              s batch Hget)
    as (Hr & (final & Hfinal & Hstatus & _ & _ & Hcost & _) & _).
  - vm_compute in Hget. injection Hget as <-. reflexivity.
  - vm_compute. reflexivity.
  - reflexivity.
  - split; [exact Hr|]. exists final.
    split; [exact Hfinal|]. split; [exact Hstatus|exact Hcost].
Defined.

(** The same payload at the same time, once with a connector that succeeds
    and once with one that fails, gets the same payment identifier. *)
Lemma identifiers_coincide_witness :
  new_payment_id (at_time 1000 true) large_payment
  = new_payment_id (at_time 1000 false) large_payment.
Proof.
  destruct (identifiers_coincide (at_time 1000 true) (at_time 1000 false)
              "shop" "shop" large_payment large_payment) as [_ [_ Hsame]].
  apply Hsame. split; reflexivity.
Defined.

(** The merchant was first seen with a free-tier credential; after a
    business payment its configuration still says free tier and batching
    disabled. *)
Lemma process_payment_keeps_config_witness :
  let s := run free_merchant canister_init in
  let s' := (process_payment (at_time 2000 true) large_payment s).2 in
  (get_merchant_config "shop" s').1 = (get_merchant_config "shop" s).1
  ∧ (cfg_tier <$> (get_merchant_config "shop" s).1) = Some free.
Proof.
  intros s s'. split; [|vm_compute; reflexivity].
  destruct (process_payment_keeps_config (at_time 2000 true) large_payment s)
    as (_ & _ & Hkept & _).
  destruct (merchant_configs_storage s !! pd_merchant_id large_payment)
    as [config|] eqn:Hconfig;
    [|vm_compute in Hconfig; discriminate Hconfig].
  transitivity (Some config); [exact (Hkept config eq_refl)|].
  symmetry. exact Hconfig.
Defined.

(** Three pending payments of 40: the answer is the identifier of the new
    batch, whose total is their sum. *)
Lemma create_batch_for_merchant_result_witness :
  let s := run three_pending canister_init in
  let r := create_batch_for_merchant (at_time 1004 true) "shop" s in
  r.1 = new_batch_id (at_time 1004 true) "shop"
  ∧ ∃ b, batches_storage r.2 !! r.1 = Some b
         ∧ bat_total_amount b
           = sum_amounts
               (pending_payments_of "shop" (batch_payments_storage s))
         ∧ b ∈ (get_merchant_batches "shop" r.2).1.
Proof.
  intros s r.
  destruct (create_batch_for_merchant_result (at_time 1004 true) "shop" s)
    as (_ & _ & Hcreated).
  destruct Hcreated as (Hr & _ & _ & b & Hb & _ & _ & Htotal & _ & Hlisted).
  - vm_compute. eexists. reflexivity.
  - intros Hnil. vm_compute in Hnil. discriminate Hnil.
  - split; [exact Hr|]. exists b.
    split; [exact Hb|]. split; [exact Htotal|exact Hlisted].
Defined.

(** With one pending batch of 120, and after a payment in the round of
    that batch which stores no batch, the balance of ["shop"] is the total
    of the batches listed for it that are not settled; an unknown merchant
    has balance zero. *)
Lemma queries_agree_witness :
  let s := run same_round_payment canister_init in
  (get_escrow_balance "shop" s).1
  = sum_totals
      (filter (λ b, bat_status b ≠ "settled")
         (get_merchant_batches "shop" s).1)
  ∧ (get_escrow_balance "shop" s).1 = 120
  ∧ (get_escrow_balance "cafe" s).1 = 0.
Proof.
  intros s.
  destruct (queries_agree "shop" s) as (_ & _ & _ & _ & _ & Hsum).
  destruct (queries_agree "cafe" s) as (_ & _ & _ & Hnone & _).
  split; [exact (Hsum reachable_fresh_same_round_payment)|].
  split; [vm_compute; reflexivity|].
  apply Hnone. vm_compute. reflexivity.
Defined.

End Examples.
